(** * NotionManager: entity resolution and mention linking

    A shallow embedding of the entity-resolution core of the repository:
    [people_manager.py] (class [PeopleManager]) and the mention linkers of
    [update_meeting.py].

    Conventions of the embedding.
    - A Python [str] is a [list ascii].  The alphabet of the model is ASCII:
      case folding, [isupper], [\s] and the character classes treat the
      codes above 127 as caseless characters that belong to no class.
    - A Python float score is the rational it denotes ([Q]); the code only
      compares scores.
    - A JSON page object is a record with its [id] and its [properties]
      dictionary (an association list, first binding wins); a property
      keeps the [content] strings of its [title] rich-text array (a missing
      [title] key and an empty array are both falsy in the code, so both
      are the empty list).
    - [while] loops take a fuel; [None] is "fuel exhausted", never a value
      of the program. *)

From Stdlib Require Import Ascii String.
From Stdlib Require Import List Arith Bool Lia.
From Stdlib Require Import QArith Lqa Permutation Sorted.
Import ListNotations.

Local Open Scope nat_scope.
Local Open Scope list_scope.

(** ** Python strings *)

Definition str := list ascii.

Definition py (s : string) : str := list_ascii_of_string s.

Definition str_eqb (a b : str) : bool :=
  if list_eq_dec ascii_dec a b then true else false.

Definition code (c : ascii) : nat := nat_of_ascii c.

Definition is_upper (c : ascii) : bool := (65 <=? code c) && (code c <=? 90).
Definition is_lower (c : ascii) : bool := (97 <=? code c) && (code c <=? 122).

(** [c.lower()] and [c.upper()] on one character. *)
Definition lower_char (c : ascii) : ascii :=
  if is_upper c then ascii_of_nat (code c + 32) else c.
Definition upper_char (c : ascii) : ascii :=
  if is_lower c then ascii_of_nat (code c - 32) else c.

(** [s.lower()] *)
Definition lower (s : str) : str := map lower_char s.

(** [str.isspace] on one character, also the class [\s]. *)
Definition is_space (c : ascii) : bool :=
  ((9 <=? code c) && (code c <=? 13)) ||
  ((28 <=? code c) && (code c <=? 32)).

(** [s[i:j]] for [0 <= i <= j]. *)
Definition slice (s : str) (i j : nat) : str := firstn (j - i) (skipn i s).

(** [s.replace(c, '')] for a one-character [c]. *)
Definition remove_char (c : ascii) (s : str) : str :=
  filter (fun x => negb (Ascii.eqb x c)) s.

(** Truthiness of an optional string ([os.getenv] gives [None] or a [str]). *)
Definition truthy (o : option str) : bool :=
  match o with
  | Some (_ :: _) => true
  | _ => false
  end.

(** ** [difflib.SequenceMatcher(None, a, b).ratio()]

    The standard-library metric, as documented: the longest matching block
    (largest size, then smallest start in [a], then smallest start in [b]),
    recursively to its left and to its right; [ratio = 2*M/T].  The
    automatic junk heuristic of difflib only acts when [b] has 200
    characters or more and is not part of this model.  Every general
    result below is stated for an arbitrary metric. *)

Fixpoint common_prefix_len (a b : str) : nat :=
  match a, b with
  | x :: a', y :: b' => if Ascii.eqb x y then S (common_prefix_len a' b') else 0
  | _, _ => 0
  end.

(** Best block of [a[i:]] against every start of [b], scanning [j] upwards. *)
Fixpoint scan_b (a b : str) (i j : nat) (best : nat * nat * nat) : nat * nat * nat :=
  match b with
  | [] => best
  | _ :: b' =>
      let k := common_prefix_len a b in
      let best' := if snd best <? k then (i, j, k) else best in
      scan_b a b' i (S j) best'
  end.

Fixpoint scan_a (a b : str) (i : nat) (best : nat * nat * nat) : nat * nat * nat :=
  match a with
  | [] => best
  | _ :: a' => scan_a a' b (S i) (scan_b a b i 0 best)
  end.

Definition find_longest_match (a b : str) : nat * nat * nat :=
  scan_a a b 0 (0, 0, 0).

Fixpoint matching_size (fuel : nat) (a b : str) : nat :=
  match fuel with
  | 0 => 0
  | S fuel' =>
      let '(i, j, k) := find_longest_match a b in
      if k =? 0 then 0
      else k + matching_size fuel' (firstn i a) (firstn j b)
             + matching_size fuel' (skipn (i + k) a) (skipn (j + k) b)
  end.

Definition sequence_matcher_ratio (a b : str) : Q :=
  let total := length a + length b in
  if total =? 0 then 1%Q
  else Qmake (Z.of_nat (2 * matching_size (S (length a)) a b)) (Pos.of_nat total).

(** ** Notion pages *)

Record property := { title : list str }.

Record page := { page_id : str; properties : list (str * property) }.

(** [d.get(key)] on a dictionary. *)
Fixpoint dict_get {V : Type} (d : list (str * V)) (key : str) : option V :=
  match d with
  | [] => None
  | (k, v) :: d' => if str_eqb k key then Some v else dict_get d' key
  end.

(** [d.update(e)]: the bindings of [e] replace those of [d]. *)
Definition dict_update {V : Type} (d e : list (str * V)) : list (str * V) :=
  e ++ filter (fun kv => match dict_get e (fst kv) with Some _ => false | None => true end) d.

(** [person.get('properties', {}).get('Name', {})], then the content of the
    first item of a truthy [title]. *)
Definition person_name (p : page) : option str :=
  match dict_get (properties p) (py "Name") with
  | Some prop => match title prop with
                 | [] => None
                 | content :: _ => Some content
                 end
  | None => None
  end.

(** The first of ['Name', 'Title', 'Project Name', 'Project'] that is a key
    of the properties decides; no later key is tried once one is present. *)
Fixpoint first_present (props : list (str * property)) (keys : list str) : option property :=
  match keys with
  | [] => None
  | k :: keys' => match dict_get props k with
                  | Some prop => Some prop
                  | None => first_present props keys'
                  end
  end.

Definition project_title_keys : list str :=
  [py "Name"; py "Title"; py "Project Name"; py "Project"].

Definition project_name (p : page) : option str :=
  match first_present (properties p) project_title_keys with
  | Some prop => match title prop with
                 | [] => None
                 | content :: _ => Some content
                 end
  | None => None
  end.

(** ** Literal, case-insensitive search

    [re.compile(re.escape(v), re.IGNORECASE).search(text)]: the escaped
    pattern is the literal [v]; every pattern character matches exactly one
    text character, so [match.end() = match.start() + len(v)]. *)

Definition char_eq_ci (a b : ascii) : bool :=
  Ascii.eqb (lower_char a) (lower_char b).

Fixpoint prefix_ci (pat text : str) : bool :=
  match pat, text with
  | [], _ => true
  | p :: pat', c :: text' => char_eq_ci p c && prefix_ci pat' text'
  | _ :: _, [] => false
  end.

(** [match.start()] of the leftmost match, if any. *)
Fixpoint search_ci (pat text : str) : option nat :=
  if prefix_ci pat text then Some 0
  else match text with
       | [] => None
       | _ :: text' => option_map S (search_ci pat text')
       end.

(** ** Rich text *)

(** [{"type": "text", "text": {"content": c}}], with ["link": {"url": u}]
    when [link = Some u]. *)
Record rich_text := { content : str; link : option str }.

Definition plain (s : str) : rich_text := {| content := s; link := None |}.

Definition joined (parts : list rich_text) : str := concat (map content parts).

(** ** Sorting by length, longest first

    [l.sort(key=len, reverse=True)]: stable, so items of equal length keep
    their order. *)

Section SortByLength.
Context {A : Type} (key : A -> str).

Fixpoint insert_desc (x : A) (l : list A) : list A :=
  match l with
  | [] => [x]
  | y :: l' => if length (key x) <? length (key y)
               then y :: insert_desc x l'
               else x :: l
  end.

Definition sort_desc (l : list A) : list A := fold_right insert_desc [] l.

(** The order the sort establishes. *)
Definition longer_first (x y : A) : Prop := length (key y) <= length (key x).
End SortByLength.

(** ** Best fuzzy match

    The loop shared, verbatim, by [PeopleManager.find_matching_person],
    [get_person_link] and [get_project_link]:
    [best_match = None; best_score = 0.0], then for each record with a name
    [if score > best_score and score >= threshold] the record becomes the
    best match.  Records without a name are skipped. *)

Definition Qlt_bool (x y : Q) : bool := negb (Qle_bool y x).

Section BestMatch.
Variable ratio : str -> str -> Q.
Variable name_of : page -> option str.

Definition score_of (name : str) (p : page) : option Q :=
  match name_of p with
  | Some pname => Some (ratio (lower name) (lower pname))
  | None => None
  end.

Definition best_step (name : str) (threshold : Q) (st : option page * Q) (p : page)
  : option page * Q :=
  match score_of name p with
  | None => st
  | Some score =>
      if Qlt_bool (snd st) score && Qle_bool threshold score
      then (Some p, score)
      else st
  end.

Definition best_match_loop (name : str) (threshold : Q) (people : list page)
  : option page * Q :=
  fold_left (best_step name threshold) people (None, 0%Q).

(** [p], scored [s], is the first record of the directory with the
    maximum score: every record before it scores less, no record after it
    scores more. *)
Definition first_best (n : str) (people : list page) (p : page) (s : Q) : Prop :=
  exists l1 l2,
    people = l1 ++ p :: l2 /\
    score_of n p = Some s /\
    (forall q sq, In q l1 -> score_of n q = Some sq -> (sq < s)%Q) /\
    (forall q sq, In q l2 -> score_of n q = Some sq -> (sq <= s)%Q).

Definition best_inv (n : str) (threshold : Q) (seen : list page)
           (st : option page * Q) : Prop :=
  match fst st with
  | None =>
      snd st = 0%Q /\
      forall q sq, In q seen -> score_of n q = Some sq ->
                   ~ ((0 < sq)%Q /\ (threshold <= sq)%Q)
  | Some p => first_best n seen p (snd st) /\ (0 < snd st)%Q /\ (threshold <= snd st)%Q
  end.
End BestMatch.

(** ** update_meeting.py: the environment of the linkers

    The process environment variables and the answers of the two database
    queries ([None] when the request raises). *)

Record Env := {
  NOTION_TOKEN : option str;
  PEOPLE_DATABASE_ID : option str;
  PROJECTS_DATABASE_ID : option str;
  people_response : option (list page);
  projects_response : option (list page)
}.

Fixpoint names_of (name_of : page -> option str) (results : list page) : list str :=
  match results with
  | [] => []
  | p :: results' => match name_of p with
                     | Some n => n :: names_of name_of results'
                     | None => names_of name_of results'
                     end
  end.

Definition get_all_people_names (env : Env) : list str :=
  if negb (truthy (NOTION_TOKEN env)) || negb (truthy (PEOPLE_DATABASE_ID env)) then []
  else match people_response env with
       | Some results => names_of person_name results
       | None => []
       end.

Definition get_all_project_names (env : Env) : list str :=
  if negb (truthy (NOTION_TOKEN env)) || negb (truthy (PROJECTS_DATABASE_ID env)) then []
  else match projects_response env with
       | Some results => names_of project_name results
       | None => []
       end.

Definition notion_url (p : page) : str :=
  py "https://www.notion.so/" ++ remove_char "-"%char (page_id p).

Definition link_threshold : Q := 8 # 10.

Definition get_person_link (ratio : str -> str -> Q) (env : Env) (attendee_name : str)
  : option str :=
  if negb (truthy (NOTION_TOKEN env)) || negb (truthy (PEOPLE_DATABASE_ID env)) then None
  else match people_response env with
       | Some results =>
           option_map notion_url
             (fst (best_match_loop ratio person_name attendee_name link_threshold results))
       | None => None
       end.

Definition get_project_link (ratio : str -> str -> Q) (env : Env) (project : str)
  : option str :=
  if negb (truthy (NOTION_TOKEN env)) || negb (truthy (PROJECTS_DATABASE_ID env)) then None
  else match projects_response env with
       | Some results =>
           option_map notion_url
             (fst (best_match_loop ratio project_name project link_threshold results))
       | None => None
       end.

(** ** update_meeting.py: the mention linkers *)

Inductive entity_type := person | project.

Record Entity := { name : str; type : entity_type; variations : list str }.

Record Variation := { text : str; entity : Entity }.

(** [earliest_match]: what was matched ([entity] or [name]), [start],
    [end] and [matched_text]. *)
Record Match (A : Type) := {
  matched : A;
  start : nat;
  stop : nat;
  matched_text : str
}.
Arguments matched {A}.
Arguments start {A}.
Arguments stop {A}.
Arguments matched_text {A}.

Section Linker.
Context {A : Type}.
Variable text_of : A -> str.
Variable link_of : A -> option str.

(** One pass of the [for] loop over the sorted candidates: a candidate
    replaces the earliest match only when it starts strictly earlier. *)
Definition scan_step (remaining_text : str) (st : option (Match A) * nat) (v : A)
  : option (Match A) * nat :=
  match search_ci (text_of v) remaining_text with
  | Some s =>
      if s <? snd st
      then (Some {| matched := v; start := s; stop := s + length (text_of v);
                    matched_text := slice remaining_text s (s + length (text_of v)) |}, s)
      else st
  | None => st
  end.

Definition find_earliest (candidates : list A) (remaining_text : str)
  : option (Match A) :=
  fst (fold_left (scan_step remaining_text) candidates (None, length remaining_text)).

(** What the scan selects among [candidates]: the match of a candidate
    [matched m] at its leftmost occurrence, such that no candidate occurs
    earlier in the text and no candidate placed before it in the list
    occurs at the same offset. *)
Definition selected (candidates : list A) (remaining_text : str) (m : Match A) : Prop :=
  search_ci (text_of (matched m)) remaining_text = Some (start m) /\
  start m < length remaining_text /\
  stop m = start m + length (text_of (matched m)) /\
  matched_text m = slice remaining_text (start m) (stop m) /\
  exists l1 l2,
    candidates = l1 ++ matched m :: l2 /\
    (forall u s, In u l1 -> search_ci (text_of u) remaining_text = Some s -> start m < s) /\
    (forall u s, In u l2 -> search_ci (text_of u) remaining_text = Some s -> start m <= s).

Definition scan_inv (remaining_text : str) (seen : list A)
           (st : option (Match A) * nat) : Prop :=
  match fst st with
  | None =>
      snd st = length remaining_text /\
      forall u s, In u seen -> search_ci (text_of u) remaining_text = Some s ->
                  length remaining_text <= s
  | Some m => snd st = start m /\ selected seen remaining_text m
  end.

(** The [while remaining_text:] loop. *)
Fixpoint link_loop (fuel : nat) (candidates : list A) (remaining_text : str)
         (rich_text_parts : list rich_text) : option (list rich_text) :=
  match remaining_text with
  | [] => Some rich_text_parts
  | _ :: _ =>
      match fuel with
      | 0 => None
      | S fuel' =>
          match find_earliest candidates remaining_text with
          | Some m =>
              let before :=
                if 0 <? start m
                then [plain (slice remaining_text 0 (start m))]
                else [] in
              let linked := {| content := matched_text m; link := link_of (matched m) |} in
              link_loop fuel' candidates (skipn (stop m) remaining_text)
                        (rich_text_parts ++ before ++ [linked])
          | None => Some (rich_text_parts ++ [plain remaining_text])
          end
      end
  end.
End Linker.

Definition person_entity (n : str) : Entity :=
  {| name := n; type := person; variations := [n; n ++ py " project"] |}.

Definition project_entity (n : str) : Entity :=
  {| name := n; type := project;
     variations := [n; n ++ py " project"; py "the " ++ n ++ py " project"] |}.

(** The entities gathered by [create_rich_text_with_entity_links]. *)
Definition gather_entities (env : Env) : list Entity :=
  (if truthy (PEOPLE_DATABASE_ID env)
   then map person_entity (get_all_people_names env) else [])
  ++
  (if truthy (PROJECTS_DATABASE_ID env)
   then map project_entity (get_all_project_names env) else []).

Definition variations_of (e : Entity) : list Variation :=
  map (fun v => {| text := v; entity := e |}) (variations e).

Definition all_variations (entities : list Entity) : list Variation :=
  sort_desc text (flat_map variations_of entities).

Definition entity_link (ratio : str -> str -> Q) (env : Env) (v : Variation) : option str :=
  match type (entity v) with
  | person => get_person_link ratio env (name (entity v))
  | project => get_project_link ratio env (name (entity v))
  end.

Definition create_rich_text_with_entity_links
  (ratio : str -> str -> Q) (env : Env) (fuel : nat) (s : str) : option (list rich_text) :=
  if negb (truthy (NOTION_TOKEN env)) then Some [plain s]
  else
    let entities := gather_entities env in
    match entities with
    | [] => Some [plain s]
    | _ :: _ =>
        link_loop text (entity_link ratio env) fuel (all_variations entities) s []
    end.

Definition create_rich_text_with_people_links
  (ratio : str -> str -> Q) (env : Env) (fuel : nat) (s : str) : option (list rich_text) :=
  if negb (truthy (NOTION_TOKEN env)) || negb (truthy (PEOPLE_DATABASE_ID env))
  then Some [plain s]
  else
    match get_all_people_names env with
    | [] => Some [plain s]
    | people_names =>
        link_loop (fun n : str => n) (get_person_link ratio env) fuel
                  (sort_desc (fun n : str => n) people_names) s []
    end.

(** ** A small backtracking matcher for the [re] patterns of the extractor

    The result of matching is the list of successes in the priority order of
    Python's backtracking engine: its head is the match [re] reports.  Only
    group 1 is ever read by the code, so one capture slot is kept. *)

Inductive class_item :=
| Range (lo hi : ascii)
| One (c : ascii)
| SpaceItem.

Inductive regex :=
| Chr (c : ascii)
| Cls (negated : bool) (items : list class_item)
| Space
| Bol
| Eol
| Cat (r1 r2 : regex)
| Alt (r1 r2 : regex)
| Opt (r : regex)
| Star (r : regex)
| Plus (r : regex)
| Group (r : regex).

Record flags := { IGNORECASE : bool; MULTILINE : bool }.

Definition no_flags : flags := {| IGNORECASE := false; MULTILINE := false |}.

Record mstate := {
  before : option ascii;   (* the character just before the position *)
  rest : str;              (* the input from the position on *)
  pos : nat;
  group1 : option str
}.

Definition newline : ascii := ascii_of_nat 10.

Definition item_has (c : ascii) (it : class_item) : bool :=
  match it with
  | Range lo hi => (code lo <=? code c) && (code c <=? code hi)
  | One x => Ascii.eqb x c
  | SpaceItem => is_space c
  end.

Definition in_items (fl : flags) (items : list class_item) (c : ascii) : bool :=
  existsb (item_has c) items ||
  (IGNORECASE fl &&
   (existsb (item_has (lower_char c)) items || existsb (item_has (upper_char c)) items)).

Definition chr_matches (fl : flags) (x c : ascii) : bool :=
  if IGNORECASE fl then char_eq_ci x c else Ascii.eqb x c.

Definition advance (st : mstate) : list mstate :=
  match rest st with
  | [] => []
  | c :: t => [{| before := Some c; rest := t; pos := S (pos st); group1 := group1 st |}]
  end.

Definition eat (ok : ascii -> bool) (st : mstate) : list mstate :=
  match rest st with
  | [] => []
  | c :: _ => if ok c then advance st else []
  end.

Definition at_bol (fl : flags) (st : mstate) : bool :=
  match before st with
  | None => true
  | Some c => MULTILINE fl && Ascii.eqb c newline
  end.

Definition at_eol (fl : flags) (st : mstate) : bool :=
  match rest st with
  | [] => true
  | c :: t => Ascii.eqb c newline && (MULTILINE fl || match t with [] => true | _ => false end)
  end.

(** Greedy repetition; an iteration has to consume input, which bounds the
    number of iterations by the length of the remaining input. *)
Fixpoint star (step : mstate -> list mstate) (fuel : nat) (st : mstate) : list mstate :=
  match fuel with
  | 0 => [st]
  | S fuel' =>
      flat_map (fun st' => if pos st <? pos st' then star step fuel' st' else []) (step st)
      ++ [st]
  end.

Fixpoint rmatch (fl : flags) (r : regex) (st : mstate) : list mstate :=
  match r with
  | Chr x => eat (chr_matches fl x) st
  | Cls negated items => eat (fun c => xorb negated (in_items fl items c)) st
  | Space => eat is_space st
  | Bol => if at_bol fl st then [st] else []
  | Eol => if at_eol fl st then [st] else []
  | Cat r1 r2 => flat_map (rmatch fl r2) (rmatch fl r1 st)
  | Alt r1 r2 => rmatch fl r1 st ++ rmatch fl r2 st
  | Opt r1 => rmatch fl r1 st ++ [st]
  | Star r1 => star (rmatch fl r1) (length (rest st)) st
  | Plus r1 => flat_map (fun st' => star (rmatch fl r1) (length (rest st')) st') (rmatch fl r1 st)
  | Group r1 =>
      map (fun st' => {| before := before st'; rest := rest st'; pos := pos st';
                         group1 := Some (firstn (pos st' - pos st) (rest st)) |})
          (rmatch fl r1 st)
  end.

Definition start_of (s : str) : mstate :=
  {| before := None; rest := s; pos := 0; group1 := None |}.

(** [re.match(r, s)] *)
Definition re_match (fl : flags) (r : regex) (s : str) : option mstate :=
  hd_error (rmatch fl r (start_of s)).

(** [re.finditer(r, s, flags)]: leftmost matches, each search resuming where
    the previous match ended (one character further after an empty match). *)
Fixpoint finditer_from (fuel : nat) (fl : flags) (r : regex) (st : mstate) : list mstate :=
  match fuel with
  | 0 => []
  | S fuel' =>
      let fresh := {| before := before st; rest := rest st; pos := pos st; group1 := None |} in
      match rmatch fl r fresh with
      | m :: _ =>
          m :: (if pos st <? pos m
                then finditer_from fuel' fl r m
                else flat_map (finditer_from fuel' fl r) (advance st))
      | [] => flat_map (finditer_from fuel' fl r) (advance st)
      end
  end.

Definition finditer (fl : flags) (r : regex) (s : str) : list mstate :=
  finditer_from (S (length s)) fl r (start_of s).

(** [m.group(1)] ([None] of an unset group does not occur in the patterns used). *)
Definition group_1 (m : mstate) : str :=
  match group1 m with Some g => g | None => [] end.

Fixpoint lit (s : str) : regex :=
  match s with
  | [] => Opt (Cls false [])
  | [c] => Chr c
  | c :: s' => Cat (Chr c) (lit s')
  end.

(** ** Python string helpers used by the extractor *)

Fixpoint lstrip (s : str) : str :=
  match s with
  | c :: s' => if is_space c then lstrip s' else s
  | [] => []
  end.

(** [s.strip()] *)
Definition strip (s : str) : str := rev (lstrip (rev (lstrip s))).

(** [s.split(sep)] for a one-character separator. *)
Fixpoint split_char (sep : ascii) (s : str) (cur : str) : list str :=
  match s with
  | [] => [cur]
  | c :: s' => if Ascii.eqb c sep then cur :: split_char sep s' []
               else split_char sep s' (cur ++ [c])
  end.

(** [re.split(r'[,;&]+', s)] *)
Definition is_separator (c : ascii) : bool :=
  Ascii.eqb c ","%char || Ascii.eqb c ";"%char || Ascii.eqb c "&"%char.

Fixpoint re_split_seps (s : str) (cur : str) (in_run : bool) : list str :=
  match s with
  | [] => [cur]
  | c :: s' =>
      if is_separator c
      then if in_run then re_split_seps s' [] true
           else cur :: re_split_seps s' [] true
      else re_split_seps s' (cur ++ [c]) false
  end.

(** [len(s.split())]: the number of whitespace-separated words. *)
Fixpoint word_count (s : str) (in_word : bool) : nat :=
  match s with
  | [] => 0
  | c :: s' =>
      if is_space c then word_count s' false
      else if in_word then word_count s' true
      else S (word_count s' true)
  end.

(** A Python [set] of strings, as a duplicate-free list. *)
Definition set_add (x : str) (s : list str) : list str :=
  if existsb (str_eqb x) s then s else s ++ [x].

(** ** people_manager.py: name extraction *)

Definition upper_then_lowers : regex :=
  Cat (Cls false [Range "A" "Z"]) (Plus (Cls false [Range "a" "z"])).

(** [r'^([A-Z][a-z]+(?:\s+[A-Z][a-z]+)?):\s'] *)
Definition speaker_pattern : regex :=
  Cat Bol
      (Cat (Group (Cat upper_then_lowers (Opt (Cat (Plus Space) upper_then_lowers))))
           (Cat (Chr ":") Space)).

(** [r'(?:attendees?|participants?|people):\s*([^.!?\n]+)'] *)
Definition attendees_pattern : regex :=
  Cat (Alt (Cat (lit (py "attendee")) (Opt (Chr "s")))
           (Alt (Cat (lit (py "participant")) (Opt (Chr "s")))
                (lit (py "people"))))
      (Cat (Chr ":")
           (Cat (Star Space)
                (Group (Plus (Cls true [One "."; One "!"; One "?"; One newline]))))).

(** [patterns[:-1]]: the third, broad pattern of the source is never used. *)
Definition patterns_but_last : list regex := [attendees_pattern; speaker_pattern].

Definition non_names : list str :=
  map py
    ["Team"; "Meeting"; "Call"; "Discussion"; "Review"; "Update";
     "Monday"; "Tuesday"; "Wednesday"; "Thursday"; "Friday"; "Saturday"; "Sunday";
     "January"; "February"; "March"; "April"; "May"; "June";
     "July"; "August"; "September"; "October"; "November"; "December";
     "AM"; "PM"; "EST"; "PST"; "UTC"; "GMT"]%string.

(** [r"^[A-Za-z\s\-']+$"] *)
Definition name_chars_pattern : regex :=
  Cat Bol
      (Cat (Plus (Cls false [Range "A" "Z"; Range "a" "z"; SpaceItem; One "-"; One "'"]))
           Eol).

Definition _is_likely_person_name (n : str) : bool :=
  if (length n <? 2) || (50 <? length n) then false
  else if negb (match n with c :: _ => is_upper c | [] => false end) then false
  else if existsb (str_eqb n) non_names then false
  else match re_match no_flags name_chars_pattern n with
       | None => false
       | Some _ => true
       end.

Definition add_speaker (potential_names : list str) (line : str) : list str :=
  match re_match no_flags speaker_pattern (strip line) with
  | Some m =>
      let n := strip (group_1 m) in
      if _is_likely_person_name n then set_add n potential_names else potential_names
  | None => potential_names
  end.

Definition add_listed (potential_names : list str) (n0 : str) : list str :=
  let n := strip n0 in
  if _is_likely_person_name n && (word_count n false <=? 3)
  then set_add n potential_names
  else potential_names.

Definition add_match (potential_names : list str) (m : mstate) : list str :=
  fold_left add_listed (re_split_seps (strip (group_1 m)) [] false) potential_names.

Definition add_pattern (s : str) (potential_names : list str) (pattern : regex) : list str :=
  fold_left add_match
            (finditer {| IGNORECASE := true; MULTILINE := true |} pattern s)
            potential_names.

Definition extract_person_names (s : str) : list str :=
  let from_speakers := fold_left add_speaker (split_char newline s []) [] in
  fold_left (add_pattern s) patterns_but_last from_speakers.

(** ** The Notion service

    The external store behind [requests.post].  It is not code of the
    repository; the model keeps what the manager can observe: the rows of
    the People database in listing order, a page length, and for each coming
    request whether it goes through ([false]: the request raises
    [requests.exceptions.RequestException]; requests beyond the script go
    through).  A cursor is the offset of the next row. *)

Inductive response (A : Type) :=
| Ok (json : A)
| RequestException.
Arguments Ok {A}.
Arguments RequestException {A}.

Record query_result := {
  results : list page;
  has_more : bool;
  next_cursor : option nat
}.

Record World := {
  database : list page;
  page_limit : nat;          (* a response carries at most [S page_limit] rows *)
  script : list bool;
  created : nat
}.

Definition next_request (w : World) : bool * World :=
  match script w with
  | [] => (true, w)
  | ok :: later =>
      (ok, {| database := database w; page_limit := page_limit w;
              script := later; created := created w |})
  end.

(** [POST /databases/<id>/query] with the optional [start_cursor]. *)
Definition post_query (w : World) (start_cursor : option nat)
  : response query_result * World :=
  let (ok, w') := next_request w in
  if ok then
    let from := match start_cursor with Some c => c | None => 0 end in
    let more := from + S (page_limit w) <? length (database w) in
    (Ok {| results := firstn (S (page_limit w)) (skipn from (database w));
           has_more := more;
           next_cursor := if more then Some (from + S (page_limit w)) else None |}, w')
  else (RequestException, w').

Definition fresh_id (n : nat) : str := py "new-" ++ repeat "i"%char n.

(** [POST /pages]: the created page is returned and becomes a row. *)
Definition post_pages (w : World) (props : list (str * property))
  : response page * World :=
  let (ok, w') := next_request w in
  if ok then
    let p := {| page_id := fresh_id (created w'); properties := props |} in
    (Ok p, {| database := database w' ++ [p]; page_limit := page_limit w';
              script := script w'; created := S (created w') |})
  else (RequestException, w').

(** ** people_manager.py: [PeopleManager] *)

Record PeopleManager := {
  token : str;
  people_database_id : str;
  _people_cache : option (list page)
}.

Definition set_people_cache (self : PeopleManager) (c : option (list page)) : PeopleManager :=
  {| token := token self; people_database_id := people_database_id self;
     _people_cache := c |}.

(** How a call ends: with a value, or with an exception that leaves it. *)
Inductive outcome (A : Type) :=
| Returns (value : A)
| Raises (exception : str).
Arguments Returns {A}.
Arguments Raises {A}.

(** The [while has_more:] loop of [get_all_people]; [Ok] carries
    [all_people] when the loop ends, [RequestException] is the request that
    raised inside the [try]. *)
Fixpoint fetch_pages (fuel : nat) (w : World) (start_cursor : option nat)
         (all_people : list page) : option (response (list page) * World) :=
  match fuel with
  | 0 => None
  | S fuel' =>
      match post_query w start_cursor with
      | (RequestException, w') => Some (RequestException, w')
      | (Ok result, w') =>
          let all_people' := all_people ++ results result in
          if has_more result
          then fetch_pages fuel' w' (next_cursor result) all_people'
          else Some (Ok all_people', w')
      end
  end.

Definition get_all_people (fuel : nat) (self : PeopleManager) (w : World)
           (force_refresh : bool)
  : option (outcome (list page) * PeopleManager * World) :=
  match _people_cache self, force_refresh with
  | Some cache, false => Some (Returns cache, self, w)
  | _, _ =>
      match fetch_pages fuel w None [] with
      | None => None
      | Some (Ok all_people, w') =>
          Some (Returns all_people, set_people_cache self (Some all_people), w')
      | Some (RequestException, w') => Some (Returns [], self, w')
      end
  end.

Definition find_matching_person (ratio : str -> str -> Q) (fuel : nat)
           (self : PeopleManager) (w : World) (n : str) (threshold : Q)
  : option (outcome (option page) * PeopleManager * World) :=
  match get_all_people fuel self w false with
  | None => None
  | Some (Raises e, self', w') => Some (Raises e, self', w')
  | Some (Returns people, self', w') =>
      Some (Returns (fst (best_match_loop ratio person_name n threshold people)), self', w')
  end.

Definition create_person (self : PeopleManager) (w : World) (n : str)
           (additional_properties : option (list (str * property)))
  : option page * PeopleManager * World :=
  let props := [(py "Name", {| title := [n] |})] in
  let props' := match additional_properties with
                | Some ((_ :: _) as extra) => dict_update props extra
                | _ => props
                end in
  match post_pages w props' with
  | (Ok result, w') => (Some result, set_people_cache self None, w')
  | (RequestException, w') => (None, self, w')
  end.

(** ** people_manager.py: resolving the people of a text *)

(** The default [threshold] of [find_matching_person]. *)
Definition default_threshold : Q := 8 # 10.

(** The [for name in potential_names:] loop of [resolve_people_in_text],
    with the two result lists it appends to.  Python iterates over
    [list(potential_names)], a set in an unspecified order: what is proved
    of this loop is proved for every list of names. *)
Fixpoint resolve_names (ratio : str -> str -> Q) (fuel : nat) (create_missing : bool)
         (potential_names : list str) (self : PeopleManager) (w : World)
         (resolved_people : list page) (unresolved_names : list str)
  : option (outcome (list page * list str) * PeopleManager * World) :=
  match potential_names with
  | [] => Some (Returns (resolved_people, unresolved_names), self, w)
  | n :: later =>
      match find_matching_person ratio fuel self w n default_threshold with
      | None => None
      | Some (Raises e, self1, w1) => Some (Raises e, self1, w1)
      | Some (Returns (Some existing_person), self1, w1) =>
          resolve_names ratio fuel create_missing later self1 w1
                        (resolved_people ++ [existing_person]) unresolved_names
      | Some (Returns None, self1, w1) =>
          if create_missing then
            match create_person self1 w1 n None with
            | (Some new_person, self2, w2) =>
                resolve_names ratio fuel create_missing later self2 w2
                              (resolved_people ++ [new_person]) unresolved_names
            | (None, self2, w2) =>
                resolve_names ratio fuel create_missing later self2 w2
                              resolved_people (unresolved_names ++ [n])
            end
          else
            resolve_names ratio fuel create_missing later self1 w1
                          resolved_people (unresolved_names ++ [n])
      end
  end.

Definition resolve_people_in_text (ratio : str -> str -> Q) (fuel : nat)
           (self : PeopleManager) (w : World) (s : str) (create_missing : bool)
  : option (outcome (list page * list str) * PeopleManager * World) :=
  resolve_names ratio fuel create_missing (extract_person_names s) self w [] [].

(** [[person['id'] for person in people]] *)
Definition get_person_ids (people : list page) : list str := map page_id people.

(** ** update_meeting.py: the page id of a Notion URL *)

(** [r{n}] *)
Fixpoint times (n : nat) (r : regex) : regex :=
  match n with
  | 0 => Opt (Cls false [])
  | S n' => Cat r (times n' r)
  end.

(** [[a-f0-9]] *)
Definition hex_item : list class_item := [Range "a" "f"; Range "0" "9"].
Definition hex : regex := Cls false hex_item.

(** [(?:\?|$)] *)
Definition query_or_end : regex := Alt (Chr "?") Eol.

(** [r'[?&]p=([a-f0-9]{32})'] *)
Definition p_parameter_pattern : regex :=
  Cat (Cls false [One "?"; One "&"]) (Cat (lit (py "p=")) (Group (times 32 hex))).

(** [r'/([a-f0-9]{32})(?:\?|$)'] *)
Definition trailing_id_pattern : regex :=
  Cat (Chr "/") (Cat (Group (times 32 hex)) query_or_end).

(** [r'-([a-f0-9]{8}[a-f0-9]{4}[a-f0-9]{4}[a-f0-9]{4}[a-f0-9]{12})(?:\?|$)'] *)
Definition dashed_id_pattern : regex :=
  Cat (Chr "-")
      (Cat (Group (Cat (times 8 hex)
                       (Cat (times 4 hex)
                            (Cat (times 4 hex) (Cat (times 4 hex) (times 12 hex))))))
           query_or_end).

Definition page_id_patterns : list regex :=
  [p_parameter_pattern; trailing_id_pattern; dashed_id_pattern].

(** [re.search(r, s)]: the match at the leftmost position that has one. *)
Fixpoint search_at (fl : flags) (r : regex) (prev : option ascii) (s : str) (at_pos : nat)
  : option mstate :=
  match rmatch fl r {| before := prev; rest := s; pos := at_pos; group1 := None |} with
  | m :: _ => Some m
  | [] => match s with
          | [] => None
          | c :: s' => search_at fl r (Some c) s' (S at_pos)
          end
  end.

Definition re_search (fl : flags) (r : regex) (s : str) : option mstate :=
  search_at fl r None s 0.

Definition dash : str := py "-".

(** [page_id.replace('-', '')], then the dashes of the API format. *)
Definition format_page_id (g : str) : str :=
  let page_id := remove_char "-" g in
  slice page_id 0 8 ++ dash ++ slice page_id 8 12 ++ dash ++ slice page_id 12 16
        ++ dash ++ slice page_id 16 20 ++ dash ++ skipn 20 page_id.

Fixpoint first_page_id (patterns : list regex) (url : str) : option str :=
  match patterns with
  | [] => None
  | pattern :: later =>
      match re_search no_flags pattern url with
      | Some m => Some (format_page_id (group_1 m))
      | None => first_page_id later url
      end
  end.

Definition extract_page_id_from_url (url : str) : option str :=
  first_page_id page_id_patterns url.

(** ** update_meeting.py: reading the transcript

    [file] is what [open(...).read()] gives, [None] when it raises. *)
Definition read_transcript_file (file : option str) : option str :=
  match file with
  | None => None
  | Some raw =>
      match strip raw with
      | [] => None
      | content => Some content
      end
  end.

(** ** transcript_processor.py: the text of a meeting

    The data extracted from a transcript, with the fields the formatters
    read; a missing, null or empty field is the empty string or list (the
    code tests them for truth only). *)

Record action_item := { task : str; assignee : str; due_date : str }.

Record extracted_data := {
  attendees : list str;
  summary : str;
  key_decisions : list str;
  action_items : list action_item;
  next_steps : list str
}.

(** [sep.join(l)] *)
Fixpoint join (sep : str) (l : list str) : str :=
  match l with
  | [] => []
  | [x] => x
  | x :: l' => x ++ sep ++ join sep l'
  end.

(** The bullet character U+2022, one character of the model. *)
Definition bullet : str := [ascii_of_nat 149].

Definition nl : str := [newline].

(** The text after the bullet of one action item. *)
Definition action_item_suffix (item : action_item) : str :=
  (match assignee item with
   | [] => []
   | who => py " (Assigned to: " ++ who ++ py ")"
   end)
  ++
  (match due_date item with
   | [] => []
   | due => py " (Due: " ++ due ++ py ")"
   end).

Definition action_item_text (item : action_item) : str :=
  bullet ++ py " " ++ task item ++ action_item_suffix item.

Definition _format_action_items (items : list action_item) : str :=
  match items with
  | [] => []
  | _ => join nl (map action_item_text items)
  end.

Definition bullet_lines (l : list str) : str :=
  join nl (map (fun x => bullet ++ py " " ++ x) l).

Definition _format_meeting_content (data : extracted_data) : str :=
  join (nl ++ nl)
    ((match attendees data with
      | [] => []
      | who => [py "**Attendees:** " ++ join (py ", ") who]
      end)
     ++
     (match summary data with
      | [] => []
      | text_ => [py "## Summary" ++ nl ++ text_]
      end)
     ++
     (match key_decisions data with
      | [] => []
      | decisions => [py "## Key Decisions" ++ nl ++ bullet_lines decisions]
      end)
     ++
     (match next_steps data with
      | [] => []
      | steps => [py "## Next Steps" ++ nl ++ bullet_lines steps]
      end)).

(** ** update_meeting.py: the blocks added to a page *)

Inductive block_type :=
| divider
| heading_1
| heading_2
| paragraph
| bulleted_list_item.

Record block := { block_type_of : block_type; rich_text_of : list rich_text }.

Definition text_block (t : block_type) (s : str) : block :=
  {| block_type_of := t; rich_text_of := [plain s] |}.

(** [l[i:j]] on any list. *)
Definition list_slice {A : Type} (l : list A) (i j : nat) : list A :=
  firstn (j - i) (skipn i l).

(** [range(0, stop, step)] for a positive [step]. *)
Definition range_step (stop step : nat) : list nat :=
  map (fun k => k * step) (seq 0 ((stop + step - 1) / step)).

(** [[l[i:i+size] for i in range(0, len(l), size)]] *)
Definition chunks {A : Type} (size : nat) (l : list A) : list (list A) :=
  map (fun i => list_slice l i (i + size)) (range_step (length l) size).

Fixpoint all_some {A : Type} (l : list (option A)) : option (list A) :=
  match l with
  | [] => Some []
  | None :: _ => None
  | Some x :: l' => match all_some l' with
                    | Some xs => Some (x :: xs)
                    | None => None
                    end
  end.

(** The attendee names after the first, each behind a plain [", "]. *)
Definition attendee_part (ratio : str -> str -> Q) (env : Env) (attendee : str) : rich_text :=
  {| content := attendee; link := get_person_link ratio env attendee |}.

Fixpoint attendee_parts (ratio : str -> str -> Q) (env : Env) (i : nat)
         (who : list str) : list rich_text :=
  match who with
  | [] => []
  | attendee :: later =>
      (if 0 <? i then [plain (py ", ")] else [])
      ++ [attendee_part ratio env attendee]
      ++ attendee_parts ratio env (S i) later
  end.

Definition attendee_blocks (ratio : str -> str -> Q) (env : Env) (who : list str)
  : list block :=
  match who with
  | [] => []
  | _ => [{| block_type_of := paragraph;
             rich_text_of := plain (py "**Attendees:** ") :: attendee_parts ratio env 0 who |}]
  end.

Definition summary_paragraphs (ratio : str -> str -> Q) (env : Env) (fuel : nat) (text_ : str)
  : option (list block) :=
  all_some
    (map (fun chunk =>
            option_map (fun parts => {| block_type_of := paragraph; rich_text_of := parts |})
                       (create_rich_text_with_entity_links ratio env fuel chunk))
         (chunks 2000 text_)).

Definition summary_blocks (ratio : str -> str -> Q) (env : Env) (fuel : nat) (text_ : str)
  : option (list block) :=
  match text_ with
  | [] => Some []
  | _ => option_map (cons (text_block heading_2 (py "Summary")))
                    (summary_paragraphs ratio env fuel text_)
  end.

Definition bulleted_section (heading : str) (items : list str) : list block :=
  match items with
  | [] => []
  | _ => text_block heading_2 heading :: map (text_block bulleted_list_item) items
  end.

Definition action_item_rich_text (ratio : str -> str -> Q) (env : Env) (fuel : nat)
           (item : action_item) : option (list rich_text) :=
  match create_rich_text_with_people_links ratio env fuel (task item) with
  | None => None
  | Some task_parts =>
      match
        (match assignee item with
         | [] => Some []
         | who =>
             option_map (fun parts => [plain (py " (Assigned to: ")] ++ parts ++ [plain (py ")")])
                        (create_rich_text_with_people_links ratio env fuel who)
         end)
      with
      | None => None
      | Some assignee_parts =>
          Some (task_parts ++ assignee_parts
                ++ match due_date item with
                   | [] => []
                   | due => [plain (py " (Due: " ++ due ++ py ")")]
                   end)
      end
  end.

Definition action_blocks (ratio : str -> str -> Q) (env : Env) (fuel : nat)
           (items : list action_item) : option (list block) :=
  match items with
  | [] => Some []
  | _ =>
      option_map (cons (text_block heading_2 (py "Action Items")))
        (all_some
           (map (fun item =>
                   option_map (fun parts => {| block_type_of := bulleted_list_item;
                                               rich_text_of := parts |})
                              (action_item_rich_text ratio env fuel item))
                items))
  end.

Definition header_blocks : list block :=
  [{| block_type_of := divider; rich_text_of := [] |};
   text_block heading_1 (py "AI-Processed Meeting Summary")].

Definition footer_blocks : list block :=
  [text_block heading_2 (py "Original Transcript");
   text_block paragraph (py "See attached transcript file for full meeting recording.")].

(** The [blocks] list of [add_blocks_to_notion_page], in the order it is
    built. *)
Definition build_blocks (ratio : str -> str -> Q) (env : Env) (fuel : nat)
           (data : extracted_data) : option (list block) :=
  match summary_blocks ratio env fuel (summary data),
        action_blocks ratio env fuel (action_items data) with
  | Some summary_part, Some action_part =>
      Some (header_blocks
            ++ attendee_blocks ratio env (attendees data)
            ++ summary_part
            ++ bulleted_section (py "Key Decisions") (key_decisions data)
            ++ action_part
            ++ bulleted_section (py "Next Steps") (next_steps data)
            ++ footer_blocks)
  | _, _ => None
  end.






(** What a reader sees of a block: its type and the text of its parts. *)
Definition block_text (b : block) : block_type * str :=
  (block_type_of b, joined (rich_text_of b)).

(** ** Example data *)

Definition person_page (id n : str) : page :=
  {| page_id := id; properties := [(py "Name", {| title := [n] |})] |}.

(** A configured run whose People database lists [names]; no Projects
    database is configured. *)
Definition people_env (names : list str) : Env :=
  {| NOTION_TOKEN := Some (py "secret");
     PEOPLE_DATABASE_ID := Some (py "people-db");
     PROJECTS_DATABASE_ID := None;
     people_response := Some (map (person_page (py "0a-1b")) names);
     projects_response := None |}.

(** The empty string, as the name of a record. *)
Definition empty_name : str := [].

Definition entity_named (t : entity_type) (n : str) : Entity :=
  match t with
  | person => person_entity n
  | project => project_entity n
  end.

Definition manager (cache : option (list page)) : PeopleManager :=
  {| token := py "secret"; people_database_id := py "people-db"; _people_cache := cache |}.

Definition world (rows : list page) (limit : nat) (outcomes : list bool) : World :=
  {| database := rows; page_limit := limit; script := outcomes; created := 0 |}.

Definition offset (cursor : option nat) : nat :=
  match cursor with Some c => c | None => 0 end.

Definition john_smith : page := person_page (py "p-7") (py "John Smith").

(** Data extracted from a short meeting. *)
Definition sample_data : extracted_data :=
  {| attendees := [py "Sam"; py "Bob"];
     summary := py "Sam met Bob";
     key_decisions := [py "Ship it"];
     action_items := [{| task := py "Sam to call Bob"; assignee := py "Sam";
                         due_date := py "Friday" |}];
     next_steps := [] |}.

(** The characters of the class [[A-Za-z\s\-']]. *)
Definition is_name_char (c : ascii) : bool :=
  is_upper c || is_lower c || is_space c || Ascii.eqb c "-" || Ascii.eqb c "'".

(** The characters of the class [[a-f0-9]]. *)
Definition is_hex (c : ascii) : bool :=
  ((97 <=? code c) && (code c <=? 102)) || ((48 <=? code c) && (code c <=? 57)).


(** [r] only matches by consuming exactly [n] characters of [[a-f0-9]]. *)
Definition consumes_hex (n : nat) (r : regex) : Prop :=
  forall st st',
    In st' (rmatch no_flags r st) ->
    exists g, rest st = g ++ rest st' /\ length g = n /\
              Forall (fun c => is_hex c = true) g /\ pos st' = pos st + n.

(** The host part of the URLs [get_person_link] builds. *)
Definition notion_host : str := py "https://www.notion.so/".

(** A capitalised word, [[A-Z][a-z]+]. *)
Definition is_word (w : str) : bool :=
  match w with
  | c :: l => is_upper c && negb (length l =? 0) && forallb is_lower l
  | [] => false
  end.

(** What the group of the speaker pattern can hold: one capitalised word,
    or two with white space between them. *)
Definition speaker_name (n : str) : Prop :=
  is_word n = true \/
  exists w1 gap w2,
    n = w1 ++ gap ++ w2 /\ is_word w1 = true /\ gap <> [] /\
    Forall (fun c => is_space c = true) gap /\ is_word w2 = true.

(** The words the attendee pattern looks for, written as labels. *)
Definition list_labels : list str :=
  map py ["Attendees"; "Attendee"; "Participants"; "Participant"; "People"]%string.

(** A configured run whose Projects database holds one page per title,
    the title kept under the property [Title]. *)
Definition projects_env (titles : list str) : Env :=
  {| NOTION_TOKEN := Some (py "secret");
     PEOPLE_DATABASE_ID := None;
     PROJECTS_DATABASE_ID := Some (py "projects-db");
     people_response := None;
     projects_response :=
       Some (map (fun t => {| page_id := py "0c-2d";
                              properties := [(py "Title", {| title := [t] |})] |})
                 titles) |}.

(** * Properties *)

(** ** Slices *)

Lemma slice_from_zero (s : str) (j : nat) : slice s 0 j = firstn j s.
Proof. unfold slice. now rewrite Nat.sub_0_r. Qed.

Lemma slice_length_from (s : str) (i n : nat) :
  slice s i (i + n) = firstn n (skipn i s).
Proof. unfold slice. f_equal. lia. Qed.

(** A text is its part before a match, the match, and what follows. *)
Lemma split_three (s : str) (i n : nat) :
  firstn i s ++ slice s i (i + n) ++ skipn (i + n) s = s.
Proof.
  rewrite slice_length_from, Nat.add_comm, <- skipn_skipn.
  now rewrite (firstn_skipn n (skipn i s)), firstn_skipn.
Qed.

(** ** The literal search *)

Lemma prefix_ci_length (pat s : str) :
  prefix_ci pat s = true -> length pat <= length s.
Proof.
  revert s. induction pat as [|p pat IH]; intros [|c s] H; simpl in *;
    try lia; try discriminate.
  apply andb_true_iff in H as [_ H]. apply IH in H. lia.
Qed.

Lemma search_ci_sound (pat s : str) (i : nat) :
  search_ci pat s = Some i ->
  prefix_ci pat (skipn i s) = true /\ i + length pat <= length s.
Proof.
  revert i. induction s as [|c s IH]; intros i H; simpl in H.
  - destruct (prefix_ci pat []) eqn:E; [|discriminate].
    injection H as <-. split; [exact E|]. apply prefix_ci_length in E. simpl in *. lia.
  - destruct (prefix_ci pat (c :: s)) eqn:E.
    + injection H as <-. split; [exact E|]. apply prefix_ci_length in E. simpl in *. lia.
    + destruct (search_ci pat s) as [j|] eqn:Es; [|discriminate].
      injection H as <-. destruct (IH j eq_refl) as [H1 H2].
      split; [exact H1|simpl; lia].
Qed.

(** No match starts before the reported one. *)
Lemma search_ci_leftmost (pat s : str) (i j : nat) :
  search_ci pat s = Some i -> j < i -> prefix_ci pat (skipn j s) = false.
Proof.
  revert i j. induction s as [|c s IH]; intros i j H Hj; simpl in H.
  - destruct (prefix_ci pat []); [injection H as <-; lia|discriminate].
  - destruct (prefix_ci pat (c :: s)) eqn:E; [injection H as <-; lia|].
    destruct (search_ci pat s) as [k|] eqn:Es; [|discriminate].
    injection H as <-. destruct j as [|j]; [exact E|].
    simpl. apply (IH k); [reflexivity|lia].
Qed.

Lemma search_ci_none (pat s : str) (j : nat) :
  search_ci pat s = None -> prefix_ci pat (skipn j s) = false.
Proof.
  revert j. induction s as [|c s IH]; intros j H; simpl in H.
  - destruct (prefix_ci pat []) eqn:E; [discriminate|].
    destruct j; exact E.
  - destruct (prefix_ci pat (c :: s)) eqn:E; [discriminate|].
    destruct (search_ci pat s) eqn:Es; [discriminate|].
    destruct j as [|j]; [exact E|]. simpl. now apply IH.
Qed.

(** A match at [j] makes the search succeed at [j] or before. *)
Lemma search_ci_complete (pat s : str) (j : nat) :
  prefix_ci pat (skipn j s) = true ->
  exists i, search_ci pat s = Some i /\ i <= j.
Proof.
  intros H. destruct (search_ci pat s) as [i|] eqn:E.
  - exists i. split; [reflexivity|].
    destruct (le_lt_dec i j) as [Hle|Hlt]; [exact Hle|].
    rewrite (search_ci_leftmost _ _ _ _ E Hlt) in H. discriminate.
  - rewrite (search_ci_none _ _ j E) in H. discriminate.
Qed.

Lemma search_ci_inside (pat s : str) (i : nat) :
  search_ci pat s = Some i -> s <> [] -> i < length s.
Proof.
  intros H Hs. destruct pat as [|p pat].
  - destruct s as [|c s]; [contradiction|]. simpl in H. injection H as <-. simpl. lia.
  - apply search_ci_sound in H as [_ H]. cbn [length] in H. lia.
Qed.

Lemma char_eq_ci_refl (c : ascii) : char_eq_ci c c = true.
Proof. unfold char_eq_ci. apply Ascii.eqb_refl. Qed.

(** An occurrence: the same characters up to case. *)
Lemma prefix_ci_occurrence (pat occ post : str) :
  lower occ = lower pat -> prefix_ci pat (occ ++ post) = true.
Proof.
  revert occ. induction pat as [|p pat IH]; intros occ H.
  - reflexivity.
  - destruct occ as [|c occ]; [discriminate|].
    simpl in H. injection H as Hc Hrest. simpl.
    apply andb_true_iff. split.
    + unfold char_eq_ci. rewrite Hc. apply Ascii.eqb_refl.
    + now apply IH.
Qed.

(** ** The scan for the earliest match *)

Section Scan.
Context {A : Type}.
Variable text_of : A -> str.

Lemma scan_step_inv (remaining_text : str) (seen : list A) st (v : A) :
  scan_inv text_of remaining_text seen st ->
  scan_inv text_of remaining_text (seen ++ [v]) (scan_step text_of remaining_text st v).
Proof.
  intros Hinv. unfold scan_step.
  destruct (search_ci (text_of v) remaining_text) as [s|] eqn:Ev.
  - destruct (s <? snd st) eqn:Elt.
    + apply Nat.ltb_lt in Elt. unfold scan_inv. cbn [fst snd].
      split; [reflexivity|]. red. cbn [matched start stop matched_text].
      unfold scan_inv in Hinv. destruct st as [[m|] p]; cbn [fst snd] in *.
      * destruct Hinv as [-> (Hm & Hlt & Hstop & Htxt & l1 & l2 & -> & H1 & H2)].
        repeat split; try assumption; try lia.
        exists (l1 ++ matched m :: l2), []. repeat split.
        -- intros u s' Hu Hs'. apply in_app_or in Hu as [Hu|[<-|Hu]].
           ++ specialize (H1 _ _ Hu Hs'). lia.
           ++ rewrite Hm in Hs'. injection Hs' as <-. lia.
           ++ specialize (H2 _ _ Hu Hs'). lia.
        -- intros u s' [].
      * destruct Hinv as [-> Hall].
        repeat split; try assumption; try lia.
        exists seen, []. repeat split.
        -- intros u s' Hu Hs'. specialize (Hall _ _ Hu Hs'). lia.
        -- intros u s' [].
    + apply Nat.ltb_ge in Elt. unfold scan_inv in *.
      destruct st as [[m|] p]; cbn [fst snd] in *.
      * destruct Hinv as [-> (Hm & Hlt & Hstop & Htxt & l1 & l2 & -> & H1 & H2)].
        split; [reflexivity|]. repeat split; try assumption.
        exists l1, (l2 ++ [v]). repeat split.
        -- now rewrite <- app_assoc.
        -- exact H1.
        -- intros u s' Hu Hs'. apply in_app_or in Hu as [Hu|[<-|[]]].
           ++ now apply (H2 u).
           ++ rewrite Ev in Hs'. injection Hs' as <-. exact Elt.
      * destruct Hinv as [-> Hall]. split; [reflexivity|].
        intros u s' Hu Hs'. apply in_app_or in Hu as [Hu|[<-|[]]].
        -- now apply (Hall u).
        -- rewrite Ev in Hs'. injection Hs' as <-. exact Elt.
  - unfold scan_inv in *. destruct st as [[m|] p]; cbn [fst snd] in *.
    + destruct Hinv as [-> (Hm & Hlt & Hstop & Htxt & l1 & l2 & -> & H1 & H2)].
      split; [reflexivity|]. repeat split; try assumption.
      exists l1, (l2 ++ [v]). repeat split.
      * now rewrite <- app_assoc.
      * exact H1.
      * intros u s' Hu Hs'. apply in_app_or in Hu as [Hu|[<-|[]]].
        -- now apply (H2 u).
        -- rewrite Ev in Hs'. discriminate.
    + destruct Hinv as [-> Hall]. split; [reflexivity|].
      intros u s' Hu Hs'. apply in_app_or in Hu as [Hu|[<-|[]]].
      * now apply (Hall u).
      * rewrite Ev in Hs'. discriminate.
Qed.

Lemma scan_fold_inv (remaining_text : str) (todo seen : list A) st :
  scan_inv text_of remaining_text seen st ->
  scan_inv text_of remaining_text (seen ++ todo)
           (fold_left (scan_step text_of remaining_text) todo st).
Proof.
  revert seen st. induction todo as [|v todo IH]; intros seen st Hinv.
  - now rewrite app_nil_r.
  - cbn [fold_left].
    replace (seen ++ v :: todo) with ((seen ++ [v]) ++ todo)
      by now rewrite <- app_assoc.
    apply IH. now apply scan_step_inv.
Qed.

Lemma find_earliest_inv (candidates : list A) (remaining_text : str) :
  scan_inv text_of remaining_text candidates
           (fold_left (scan_step text_of remaining_text) candidates
                      (None, length remaining_text)).
Proof.
  apply (scan_fold_inv remaining_text candidates []).
  split; [reflexivity|]. intros u s [].
Qed.

Lemma find_earliest_some (candidates : list A) (remaining_text : str) (m : Match A) :
  find_earliest text_of candidates remaining_text = Some m ->
  selected text_of candidates remaining_text m.
Proof.
  unfold find_earliest. intros H.
  pose proof (find_earliest_inv candidates remaining_text) as Hinv.
  unfold scan_inv in Hinv. rewrite H in Hinv. apply Hinv.
Qed.

Lemma find_earliest_none (candidates : list A) (remaining_text : str) (u : A) :
  find_earliest text_of candidates remaining_text = None ->
  remaining_text <> [] -> In u candidates ->
  search_ci (text_of u) remaining_text = None.
Proof.
  unfold find_earliest. intros H Hne Hu.
  pose proof (find_earliest_inv candidates remaining_text) as Hinv.
  unfold scan_inv in Hinv. rewrite H in Hinv. destruct Hinv as [_ Hall].
  destruct (search_ci (text_of u) remaining_text) as [s|] eqn:E; [|reflexivity].
  pose proof (search_ci_inside _ _ _ E Hne). specialize (Hall _ _ Hu E). lia.
Qed.

Lemma selected_in (candidates : list A) (remaining_text : str) (m : Match A) :
  selected text_of candidates remaining_text m -> In (matched m) candidates.
Proof.
  intros (_ & _ & _ & _ & l1 & l2 & -> & _). apply in_elt.
Qed.

(** Two selections from the same candidates are the same match. *)
Lemma selected_unique (candidates : list A) (remaining_text : str) (m m' : Match A) :
  selected text_of candidates remaining_text m ->
  selected text_of candidates remaining_text m' ->
  start m = start m' /\ stop m = stop m' /\ matched_text m = matched_text m' /\
  exists l1 l2, candidates = l1 ++ matched m :: l2 /\
                candidates = l1 ++ matched m' :: l2.
Proof.
  intros (Hm & Hlt & Hstop & Htxt & l1 & l2 & E & H1 & H2)
         (Hm' & Hlt' & Hstop' & Htxt' & l1' & l2' & E' & H1' & H2').
  assert (Hin : In (matched m) candidates) by (rewrite E; apply in_elt).
  assert (Hin' : In (matched m') candidates) by (rewrite E'; apply in_elt).
  assert (Hstart : start m = start m').
  { rewrite E' in Hin. rewrite E in Hin'.
    apply in_app_or in Hin as [Hin|[Hin|Hin]];
      apply in_app_or in Hin' as [Hin'|[Hin'|Hin']];
      try (pose proof (H1 _ _ Hin' Hm')); try (pose proof (H2 _ _ Hin' Hm'));
      try (pose proof (H1' _ _ Hin Hm)); try (pose proof (H2' _ _ Hin Hm));
      try lia;
      try (rewrite Hin in Hm'; rewrite Hm' in Hm; now injection Hm);
      try (rewrite <- Hin' in Hm'; rewrite Hm' in Hm; now injection Hm). }
  assert (Hsplit : l1 = l1' /\ matched m = matched m' /\ l2 = l2').
  { clear Hin Hin'. rewrite E in E'. clear E.
    revert l1' E' H1'. induction l1 as [|x l1 IH]; intros [|y l1'] E' H1'.
    - injection E' as Ey E'. now repeat split.
    - injection E' as Ey E'. exfalso.
      specialize (H1' (matched m) (start m) (or_introl (eq_sym Ey)) Hm). lia.
    - injection E' as Ey E'. exfalso.
      specialize (H1 (matched m') (start m') (or_introl Ey) Hm'). lia.
    - injection E' as Ey E'.
      destruct (IH (fun u s Hu => H1 u s (or_intror Hu)) l1' E'
                   (fun u s Hu => H1' u s (or_intror Hu))) as (El & Hmm & Er).
      subst. now repeat split. }
  destruct Hsplit as (-> & Hmm & ->).
  repeat split.
  - exact Hstart.
  - rewrite Hstop, Hstop', Hstart, Hmm. reflexivity.
  - rewrite Htxt, Htxt', Hstop, Hstop', Hstart, Hmm. reflexivity.
  - exists l1', l2'. split; [exact E|exact E'].
Qed.
End Scan.

Section ScanComplete.
Context {A : Type}.
Variable text_of : A -> str.

Lemma match_eq (m m' : Match A) :
  matched m = matched m' -> start m = start m' -> stop m = stop m' ->
  matched_text m = matched_text m' -> m = m'.
Proof. destruct m, m'; cbn; intros -> -> -> ->; reflexivity. Qed.

(** The scan finds the selected match whenever there is one. *)
Lemma find_earliest_complete (candidates : list A) (remaining_text : str) (m : Match A) :
  selected text_of candidates remaining_text m ->
  find_earliest text_of candidates remaining_text = Some m.
Proof.
  intros Hsel.
  destruct (find_earliest text_of candidates remaining_text) as [m'|] eqn:E.
  - apply find_earliest_some in E.
    destruct (selected_unique _ _ _ _ _ E Hsel) as (Hs & Hst & Ht & l1 & l2 & E1 & E2).
    f_equal. apply match_eq; try assumption.
    rewrite E1 in E2. apply app_inv_head in E2. now injection E2.
  - exfalso.
    assert (Hne : remaining_text <> []).
    { destruct Hsel as (_ & Hlt & _). intros ->. simpl in Hlt. lia. }
    pose proof (find_earliest_none _ _ _ _ E Hne (selected_in _ _ _ _ Hsel)) as Hnone.
    destruct Hsel as (Hm & _). rewrite Hm in Hnone. discriminate.
Qed.
End ScanComplete.

(** ** The sort *)

Section SortFacts.
Context {A : Type} (key : A -> str).

Lemma insert_desc_perm (x : A) (l : list A) :
  Permutation (x :: l) (insert_desc key x l).
Proof.
  induction l as [|y l IH]; simpl.
  - apply Permutation_refl.
  - destruct (length (key x) <? length (key y)).
    + eapply perm_trans; [apply perm_swap|]. now apply perm_skip.
    + apply Permutation_refl.
Qed.

Lemma sort_desc_perm (l : list A) : Permutation l (sort_desc key l).
Proof.
  induction l as [|x l IH]; simpl.
  - apply perm_nil.
  - eapply perm_trans; [apply perm_skip, IH|]. apply insert_desc_perm.
Qed.

Lemma sort_desc_in (l : list A) (x : A) : In x (sort_desc key l) <-> In x l.
Proof.
  split; apply Permutation_in; [apply Permutation_sym|]; apply sort_desc_perm.
Qed.

Lemma insert_desc_sorted (x : A) (l : list A) :
  StronglySorted (longer_first key) l -> StronglySorted (longer_first key) (insert_desc key x l).
Proof.
  induction 1 as [|y l Hl IH Hy]; simpl.
  - constructor; constructor.
  - destruct (length (key x) <? length (key y)) eqn:E.
    + apply Nat.ltb_lt in E. constructor; [exact IH|].
      apply Forall_forall. intros z Hz.
      apply (Permutation_in _ (Permutation_sym (insert_desc_perm x l))) in Hz.
      destruct Hz as [<-|Hz].
      * unfold longer_first. lia.
      * rewrite Forall_forall in Hy. now apply Hy.
    + apply Nat.ltb_ge in E. constructor.
      * now constructor.
      * constructor; [exact E|].
        apply Forall_forall. intros z Hz. rewrite Forall_forall in Hy.
        specialize (Hy z Hz). unfold longer_first in *. lia.
Qed.

Lemma sort_desc_sorted (l : list A) : StronglySorted (longer_first key) (sort_desc key l).
Proof.
  induction l as [|x l IH]; simpl; [constructor|]. now apply insert_desc_sorted.
Qed.

(** In a sorted list, what stands before is at least as long. *)
Lemma sorted_split (l1 l2 : list A) (x u : A) :
  StronglySorted (longer_first key) (l1 ++ x :: l2) -> In u l2 ->
  length (key u) <= length (key x).
Proof.
  induction l1 as [|y l1 IH]; simpl; intros Hs Hu.
  - inversion Hs as [|? ? _ Hall]; subst. rewrite Forall_forall in Hall.
    now apply Hall.
  - inversion Hs; subst. now apply IH.
Qed.
End SortFacts.

(** ** The linking loop *)

Section LoopFacts.
Context {A : Type}.
Variable text_of : A -> str.
Variable link_of : A -> option str.

Lemma joined_app (p q : list rich_text) : joined (p ++ q) = joined p ++ joined q.
Proof. unfold joined. now rewrite map_app, concat_app. Qed.

Lemma link_loop_unfold (fuel : nat) (candidates : list A) (remaining_text : str)
      (parts : list rich_text) :
  remaining_text <> [] ->
  link_loop text_of link_of (S fuel) candidates remaining_text parts =
  match find_earliest text_of candidates remaining_text with
  | Some m =>
      link_loop text_of link_of fuel candidates (skipn (stop m) remaining_text)
        (parts
         ++ (if 0 <? start m then [plain (slice remaining_text 0 (start m))] else [])
         ++ [{| content := matched_text m; link := link_of (matched m) |}])
  | None => Some (parts ++ [plain remaining_text])
  end.
Proof. destruct remaining_text; [contradiction|reflexivity]. Qed.

(** One turn of the loop on a selected match. *)
Lemma link_loop_step (fuel : nat) (candidates : list A) (remaining_text : str)
      (parts : list rich_text) (m : Match A) :
  selected text_of candidates remaining_text m ->
  link_loop text_of link_of (S fuel) candidates remaining_text parts =
  link_loop text_of link_of fuel candidates (skipn (stop m) remaining_text)
    (parts
     ++ (if 0 <? start m then [plain (firstn (start m) remaining_text)] else [])
     ++ [{| content := matched_text m; link := link_of (matched m) |}]).
Proof.
  intros Hsel. pose proof Hsel as (_ & Hlt & _).
  destruct remaining_text as [|c rest0]; [simpl in Hlt; lia|].
  cbn [link_loop]. rewrite (find_earliest_complete _ _ _ _ Hsel).
  now rewrite slice_from_zero.
Qed.

(** Whatever the loop returns spells the parts it started from followed
    by the text it was given. *)
Lemma link_loop_joined (fuel : nat) (candidates : list A) :
  forall remaining_text parts out,
    link_loop text_of link_of fuel candidates remaining_text parts = Some out ->
    joined out = joined parts ++ remaining_text.
Proof.
  induction fuel as [|fuel IH]; intros remaining_text parts out H.
  - destruct remaining_text; [|discriminate].
    injection H as <-. now rewrite app_nil_r.
  - destruct remaining_text as [|c rest0].
    + injection H as <-. now rewrite app_nil_r.
    + remember (c :: rest0) as rem eqn:Erem.
      rewrite link_loop_unfold in H by (subst; discriminate).
      destruct (find_earliest text_of candidates rem) as [m|] eqn:E.
      * apply IH in H. rewrite H.
        apply find_earliest_some in E as (_ & _ & Hstop & Htxt & _).
        rewrite !joined_app, <- !app_assoc. f_equal.
        rewrite Htxt, Hstop, slice_from_zero.
        rewrite <- (split_three rem (start m) (length (text_of (matched m)))) at 4.
        destruct (0 <? start m) eqn:E0.
        -- unfold joined. simpl. now rewrite !app_nil_r.
        -- apply Nat.ltb_ge in E0. assert (start m = 0) as -> by lia.
           unfold joined. simpl. now rewrite !app_nil_r.
      * injection H as <-. rewrite joined_app. unfold joined. simpl.
        now rewrite app_nil_r.
Qed.

(** With no empty candidate every turn consumes text, and a fuel of the
    length of the text is enough. *)
Lemma link_loop_total (candidates : list A) :
  (forall u, In u candidates -> text_of u <> []) ->
  forall fuel remaining_text parts,
    length remaining_text <= fuel ->
    exists out, link_loop text_of link_of fuel candidates remaining_text parts = Some out.
Proof.
  intros Hne. induction fuel as [|fuel IH]; intros remaining_text parts Hlen.
  - destruct remaining_text; [|simpl in Hlen; lia]. now exists parts.
  - destruct remaining_text as [|c rest0]; [now exists parts|].
    remember (c :: rest0) as rem eqn:Erem.
    destruct (find_earliest text_of candidates rem) as [m|] eqn:E.
    + apply find_earliest_some in E.
      rewrite (link_loop_step _ _ _ _ _ E). apply IH.
      pose proof (selected_in _ _ _ _ E) as Hin. apply Hne in Hin.
      destruct E as (_ & Hlt & Hstop & _).
      rewrite length_skipn.
      destruct (text_of (matched m)); [contradiction|]. simpl in Hstop. lia.
    + rewrite link_loop_unfold, E by (subst; discriminate). eauto.
Qed.

(** With a candidate whose text is empty, a text that starts with no
    other candidate is never consumed. *)
Lemma link_loop_stuck (candidates : list A) (remaining_text : str) (m : Match A) :
  selected text_of candidates remaining_text m -> stop m = 0 ->
  forall fuel parts,
    link_loop text_of link_of fuel candidates remaining_text parts = None.
Proof.
  intros Hsel Hstop. induction fuel as [|fuel IH]; intros parts.
  - destruct Hsel as (_ & Hlt & _).
    destruct remaining_text; [simpl in Hlt; lia|reflexivity].
  - rewrite (link_loop_step _ _ _ _ _ Hsel), Hstop. apply IH.
Qed.
End LoopFacts.

(** ** The linkers and their loop *)

Lemma names_of_person_pages (id : str) (names : list str) :
  names_of person_name (map (person_page id) names) = names.
Proof. induction names as [|n names IH]; simpl; [reflexivity|now rewrite IH]. Qed.

Lemma people_env_names (names : list str) : get_all_people_names (people_env names) = names.
Proof. unfold get_all_people_names. simpl. apply names_of_person_pages. Qed.

Lemma people_links_run (ratio : str -> str -> Q) (env : Env) (fuel : nat) (s : str) :
  truthy (NOTION_TOKEN env) = true -> truthy (PEOPLE_DATABASE_ID env) = true ->
  get_all_people_names env <> [] ->
  create_rich_text_with_people_links ratio env fuel s =
  link_loop (fun n : str => n) (get_person_link ratio env) fuel
            (sort_desc (fun n : str => n) (get_all_people_names env)) s [].
Proof.
  intros Ht Hd Hn. unfold create_rich_text_with_people_links.
  rewrite Ht, Hd. simpl.
  destruct (get_all_people_names env); [contradiction|reflexivity].
Qed.

Lemma entity_links_run (ratio : str -> str -> Q) (env : Env) (fuel : nat) (s : str) :
  truthy (NOTION_TOKEN env) = true -> gather_entities env <> [] ->
  create_rich_text_with_entity_links ratio env fuel s =
  link_loop text (entity_link ratio env) fuel (all_variations (gather_entities env)) s [].
Proof.
  intros Ht Hn. unfold create_rich_text_with_entity_links.
  rewrite Ht. simpl.
  destruct (gather_entities env); [contradiction|reflexivity].
Qed.

Lemma joined_plain (s : str) : joined [plain s] = s.
Proof. unfold joined. simpl. apply app_nil_r. Qed.

(** Whatever either linker returns spells the input. *)
Lemma people_links_joined (ratio : str -> str -> Q) (env : Env) (fuel : nat) (s : str)
      (parts : list rich_text) :
  create_rich_text_with_people_links ratio env fuel s = Some parts -> joined parts = s.
Proof.
  unfold create_rich_text_with_people_links.
  destruct (negb (truthy (NOTION_TOKEN env)) || negb (truthy (PEOPLE_DATABASE_ID env))).
  - intros H. injection H as <-. apply joined_plain.
  - destruct (get_all_people_names env).
    + intros H. injection H as <-. apply joined_plain.
    + intros H. now apply link_loop_joined in H.
Qed.

Lemma entity_links_joined (ratio : str -> str -> Q) (env : Env) (fuel : nat) (s : str)
      (parts : list rich_text) :
  create_rich_text_with_entity_links ratio env fuel s = Some parts -> joined parts = s.
Proof.
  unfold create_rich_text_with_entity_links.
  destruct (negb (truthy (NOTION_TOKEN env))).
  - intros H. injection H as <-. apply joined_plain.
  - destruct (gather_entities env).
    + intros H. injection H as <-. apply joined_plain.
    + intros H. now apply link_loop_joined in H.
Qed.

(** The entities are built from the listed names only. *)
Lemma gather_entities_in (env : Env) (e : Entity) :
  In e (gather_entities env) ->
  (exists n, In n (get_all_people_names env) /\ e = person_entity n) \/
  (exists n, In n (get_all_project_names env) /\ e = project_entity n).
Proof.
  unfold gather_entities. intros H. apply in_app_or in H as [H|H].
  - left. destruct (truthy (PEOPLE_DATABASE_ID env)); [|destruct H].
    apply in_map_iff in H as (n & <- & Hn). eauto.
  - right. destruct (truthy (PROJECTS_DATABASE_ID env)); [|destruct H].
    apply in_map_iff in H as (n & <- & Hn). eauto.
Qed.

Lemma all_variations_in (entities : list Entity) (v : Variation) :
  In v (all_variations entities) <->
  In (entity v) entities /\ In (text v) (variations (entity v)).
Proof.
  unfold all_variations. rewrite sort_desc_in, in_flat_map. split.
  - intros (e & He & Hv). unfold variations_of in Hv.
    apply in_map_iff in Hv as (t & <- & Ht). simpl. now split.
  - intros [He Hv]. exists (entity v). split; [exact He|].
    unfold variations_of. apply in_map_iff. exists (text v). split; [|exact Hv].
    now destruct v.
Qed.

Lemma variation_nonempty (env : Env) (v : Variation) :
  (forall n, In n (get_all_people_names env) -> n <> []) ->
  (forall n, In n (get_all_project_names env) -> n <> []) ->
  In v (all_variations (gather_entities env)) -> text v <> [].
Proof.
  intros Hp Hq Hv. apply all_variations_in in Hv as [He Hv].
  apply gather_entities_in in He as [(n & Hn & E)|(n & Hn & E)]; rewrite E in Hv; simpl in Hv.
  - apply Hp in Hn. destruct Hv as [<-|[<-|[]]]; [exact Hn|].
    destruct n; [contradiction|discriminate].
  - apply Hq in Hn. destruct Hv as [<-|[<-|[<-|[]]]]; [exact Hn| |discriminate].
    destruct n; [contradiction|discriminate].
Qed.

(** X24.  Round trip when no name is empty: for every text and every
    directory whose names are all non-empty, both linkers return (a fuel
    of the length of the text is enough) and the contents of the returned
    spans, concatenated in order, are the input text; and whatever a linker
    returns, for any directory, concatenates to the input. *)
Theorem linker_round_trip (ratio : str -> str -> Q) (env : Env) (s : str) (fuel : nat)
        (Hpeople : forall n, In n (get_all_people_names env) -> n <> [])
        (Hprojects : forall n, In n (get_all_project_names env) -> n <> [])
        (Hfuel : length s <= fuel) :
  (exists parts, create_rich_text_with_people_links ratio env fuel s = Some parts /\
                 joined parts = s) /\
  (exists parts, create_rich_text_with_entity_links ratio env fuel s = Some parts /\
                 joined parts = s) /\
  (forall fuel' parts,
      create_rich_text_with_people_links ratio env fuel' s = Some parts \/
      create_rich_text_with_entity_links ratio env fuel' s = Some parts ->
      joined parts = s).
Proof.
  split; [|split].
  - assert (exists parts, create_rich_text_with_people_links ratio env fuel s = Some parts)
      as [parts H].
    { unfold create_rich_text_with_people_links.
      destruct (negb (truthy (NOTION_TOKEN env)) || negb (truthy (PEOPLE_DATABASE_ID env)));
        [eauto|].
      destruct (get_all_people_names env) as [|n names] eqn:E; [eauto|].
      apply link_loop_total; [|exact Hfuel].
      intros u Hu. apply sort_desc_in in Hu. now apply Hpeople. }
    exists parts. split; [exact H|]. now apply people_links_joined in H.
  - assert (exists parts, create_rich_text_with_entity_links ratio env fuel s = Some parts)
      as [parts H].
    { unfold create_rich_text_with_entity_links.
      destruct (negb (truthy (NOTION_TOKEN env))); [eauto|].
      destruct (gather_entities env) as [|e es] eqn:E; [eauto|].
      apply link_loop_total; [|exact Hfuel].
      intros u Hu. rewrite <- E in Hu. now apply (variation_nonempty env). }
    exists parts. split; [exact H|]. now apply entity_links_joined in H.
  - intros fuel' parts [H|H].
    + now apply people_links_joined in H.
    + now apply entity_links_joined in H.
Qed.

Lemma linker_round_trip_witness :
  (forall n, In n (get_all_people_names (people_env [py "Sam"; py "Sam Lee"])) -> n <> []) /\
  (forall n, In n (get_all_project_names (people_env [py "Sam"; py "Sam Lee"])) -> n <> []) /\
  length (py "Call Sam Lee") <= 12 /\
  exists parts,
    create_rich_text_with_people_links sequence_matcher_ratio
      (people_env [py "Sam"; py "Sam Lee"]) 12 (py "Call Sam Lee") = Some parts /\
    joined parts = py "Call Sam Lee".
Proof.
  assert (Hp : forall n, In n (get_all_people_names (people_env [py "Sam"; py "Sam Lee"]))
                         -> n <> []).
  { simpl. intros n [<-|[<-|[]]]; discriminate. }
  assert (Hq : forall n, In n (get_all_project_names (people_env [py "Sam"; py "Sam Lee"]))
                         -> n <> []).
  { simpl. intros n []. }
  assert (Hf : length (py "Call Sam Lee") <= 12) by (simpl; lia).
  repeat split; try assumption.
  exact (proj1 (linker_round_trip sequence_matcher_ratio
                  (people_env [py "Sam"; py "Sam Lee"]) (py "Call Sam Lee") 12 Hp Hq Hf)).
Defined.

(** C1.  The round trip is lost on a directory entry whose name is the
    empty string: the empty pattern matches at offset 0 with [end = 0],
    [remaining_text[0:]] is the text again, and the loop never gets past
    its first turn.  Whatever the number of turns allowed, neither linker
    returns spans for the text "a", so there is nothing to concatenate. *)
Theorem round_trip_no_result_for_empty_name :
  forall fuel,
    create_rich_text_with_people_links sequence_matcher_ratio
      (people_env [empty_name]) fuel (py "a") = None /\
    create_rich_text_with_entity_links sequence_matcher_ratio
      (people_env [empty_name]) fuel (py "a") = None.
Proof.
  intros fuel. split.
  - rewrite people_links_run; [|reflexivity|reflexivity|discriminate].
    apply (link_loop_stuck _ _ _ _
             {| matched := empty_name; start := 0; stop := 0; matched_text := [] |});
      [|reflexivity].
    apply find_earliest_some. reflexivity.
  - rewrite entity_links_run; [|reflexivity|discriminate].
    apply (link_loop_stuck _ _ _ _
             {| matched := {| text := empty_name; entity := person_entity empty_name |};
                start := 0; stop := 0; matched_text := [] |});
      [|reflexivity].
    apply find_earliest_some. reflexivity.
Qed.

(** C2.  Longest wins.  For the text "Call Sam Lee" and the directory
    {"Sam", "Sam Lee"} (listed in either order; as people for the people
    linker, as people or projects for the entity linker) the result is the
    plain span "Call " followed by one linked span "Sam Lee".  In general
    the match the scan selects from the length-sorted candidates starts at
    the smallest offset at which any candidate occurs; no candidate placed
    before it in the sorted order occurs at that offset, and every
    candidate that occurs at that offset is at most as long; and the scan
    selects a match as soon as one candidate occurs. *)
Theorem longest_wins :
  (forall ratio env,
      truthy (NOTION_TOKEN env) = true -> truthy (PEOPLE_DATABASE_ID env) = true ->
      get_all_people_names env = [py "Sam"; py "Sam Lee"] \/
      get_all_people_names env = [py "Sam Lee"; py "Sam"] ->
      create_rich_text_with_people_links ratio env 12 (py "Call Sam Lee") =
      Some [plain (py "Call ");
            {| content := py "Sam Lee"; link := get_person_link ratio env (py "Sam Lee") |}]) /\
  (forall ratio env t1 t2,
      truthy (NOTION_TOKEN env) = true ->
      gather_entities env = [entity_named t1 (py "Sam"); entity_named t2 (py "Sam Lee")] \/
      gather_entities env = [entity_named t2 (py "Sam Lee"); entity_named t1 (py "Sam")] ->
      create_rich_text_with_entity_links ratio env 12 (py "Call Sam Lee") =
      Some [plain (py "Call ");
            {| content := py "Sam Lee";
               link := entity_link ratio env
                         {| text := py "Sam Lee";
                            entity := entity_named t2 (py "Sam Lee") |} |}]) /\
  (forall (A : Type) (text_of : A -> str) (candidates : list A) (remaining_text : str)
          (m : Match A),
      find_earliest text_of (sort_desc text_of candidates) remaining_text = Some m ->
      search_ci (text_of (matched m)) remaining_text = Some (start m) /\
      matched_text m = slice remaining_text (start m) (start m + length (text_of (matched m))) /\
      (forall u s, In u candidates -> search_ci (text_of u) remaining_text = Some s ->
                   start m <= s /\
                   (s = start m -> length (text_of u) <= length (text_of (matched m)))) /\
      exists l1 l2,
        sort_desc text_of candidates = l1 ++ matched m :: l2 /\
        forall u, In u l1 -> search_ci (text_of u) remaining_text <> Some (start m)) /\
  (forall (A : Type) (text_of : A -> str) (candidates : list A) (remaining_text : str)
          (u : A) (s : nat),
      remaining_text <> [] -> In u candidates ->
      search_ci (text_of u) remaining_text = Some s ->
      exists m, find_earliest text_of (sort_desc text_of candidates) remaining_text = Some m).
Proof.
  split; [|split; [|split]].
  - intros ratio env Ht Hd Hn.
    rewrite people_links_run by (try assumption; destruct Hn as [-> | ->]; discriminate).
    destruct Hn as [-> | ->]; reflexivity.
  - intros ratio env t1 t2 Ht He.
    rewrite entity_links_run by (try assumption; destruct He as [-> | ->]; discriminate).
    destruct He as [-> | ->]; destruct t1, t2; reflexivity.
  - intros A text_of candidates remaining_text m H.
    apply find_earliest_some in H.
    destruct H as (Hm & Hlt & Hstop & Htxt & l1 & l2 & E & H1 & H2).
    split; [exact Hm|]. split; [now rewrite Htxt, Hstop|]. split.
    + intros u s Hu Hs. apply (sort_desc_in text_of) in Hu. rewrite E in Hu.
      apply in_app_or in Hu as [Hu|[<-|Hu]].
      * specialize (H1 _ _ Hu Hs). lia.
      * rewrite Hm in Hs. injection Hs as <-. split; lia.
      * specialize (H2 _ _ Hu Hs). split; [exact H2|]. intros _.
        apply (sorted_split text_of l1 l2); [|exact Hu].
        rewrite <- E. apply sort_desc_sorted.
    + exists l1, l2. split; [exact E|].
      intros u Hu Hs. specialize (H1 _ _ Hu Hs). lia.
  - intros A text_of candidates remaining_text u s Hne Hu Hs.
    destruct (find_earliest text_of (sort_desc text_of candidates) remaining_text)
      as [m|] eqn:E; [eauto|].
    apply (sort_desc_in text_of) in Hu.
    rewrite (find_earliest_none _ _ _ _ E Hne Hu) in Hs. discriminate.
Qed.

Lemma longest_wins_witness :
  truthy (NOTION_TOKEN (people_env [py "Sam"; py "Sam Lee"])) = true /\
  truthy (PEOPLE_DATABASE_ID (people_env [py "Sam"; py "Sam Lee"])) = true /\
  get_all_people_names (people_env [py "Sam"; py "Sam Lee"]) = [py "Sam"; py "Sam Lee"] /\
  create_rich_text_with_people_links sequence_matcher_ratio
    (people_env [py "Sam"; py "Sam Lee"]) 12 (py "Call Sam Lee") =
  Some [plain (py "Call ");
        {| content := py "Sam Lee"; link := Some (py "https://www.notion.so/0a1b") |}].
Proof.
  split; [reflexivity|]. split; [reflexivity|]. split; [reflexivity|].
  exact (proj1 longest_wins sequence_matcher_ratio (people_env [py "Sam"; py "Sam Lee"])
               eq_refl eq_refl (or_introl eq_refl)).
Defined.

(** C8 (as amended).  Empty input: [extract_person_names] of the empty
    text is empty; with no entity, either linker returns for the empty
    text one plain span whose content is empty (so the spans still spell
    the empty text); no call raises or runs out of fuel. *)
Theorem empty_input (ratio : str -> str -> Q) (env : Env) (fuel : nat)
        (Hentities : gather_entities env = [])
        (Hpeople : get_all_people_names env = []) :
  extract_person_names [] = [] /\
  create_rich_text_with_entity_links ratio env fuel [] = Some [plain []] /\
  create_rich_text_with_people_links ratio env fuel [] = Some [plain []] /\
  joined [plain []] = [].
Proof.
  split; [reflexivity|]. split; [|split; [|reflexivity]].
  - unfold create_rich_text_with_entity_links. rewrite Hentities.
    now destruct (negb (truthy (NOTION_TOKEN env))).
  - unfold create_rich_text_with_people_links. rewrite Hpeople.
    now destruct (negb (truthy (NOTION_TOKEN env)) || negb (truthy (PEOPLE_DATABASE_ID env))).
Qed.

Lemma empty_input_witness :
  gather_entities (people_env []) = [] /\
  get_all_people_names (people_env []) = [] /\
  create_rich_text_with_entity_links sequence_matcher_ratio (people_env []) 0 []
  = Some [plain []].
Proof.
  split; [reflexivity|]. split; [reflexivity|].
  exact (proj1 (proj2 (empty_input sequence_matcher_ratio (people_env []) 0
                                   eq_refl eq_refl))).
Defined.

(** C8, the claim as stated fails: for the empty text and no entity the
    linkers return a sequence of one span, not the empty sequence. *)
Lemma empty_text_gives_one_span :
  create_rich_text_with_entity_links sequence_matcher_ratio (people_env []) 0 []
    <> Some [] /\
  create_rich_text_with_people_links sequence_matcher_ratio (people_env []) 0 []
    <> Some [].
Proof. split; discriminate. Qed.

(** C9.  Extraction filter on the sample sentence. *)
Theorem extraction_filter :
  let found :=
    extract_person_names
      (py "Meeting with Gaia Team. Attendees: Aaron, Darren, Susanna") in
  In (py "Aaron") found /\ In (py "Darren") found /\ In (py "Susanna") found /\
  ~ In (py "Team") found /\ ~ In (py "Meeting") found.
Proof.
  assert (E : extract_person_names
                (py "Meeting with Gaia Team. Attendees: Aaron, Darren, Susanna")
              = [py "Aaron"; py "Darren"; py "Susanna"]) by (vm_compute; reflexivity).
  cbv zeta. rewrite E. simpl.
  repeat split; auto; intros [H|[H|[H|[]]]]; discriminate.
Qed.

(** ** The best fuzzy match *)

Lemma Qlt_bool_iff (x y : Q) : Qlt_bool x y = true <-> (x < y)%Q.
Proof.
  unfold Qlt_bool. rewrite negb_true_iff. split.
  - intros H. apply Qnot_le_lt. intros Hle. apply Qle_bool_iff in Hle. congruence.
  - intros H. destruct (Qle_bool y x) eqn:E; [|reflexivity].
    apply Qle_bool_iff in E. apply Qlt_not_le in H. contradiction.
Qed.

Section BestFacts.
Variable ratio : str -> str -> Q.
Variable name_of : page -> option str.

Lemma best_step_inv (n : str) (threshold : Q) (seen : list page) st (x : page) :
  best_inv ratio name_of n threshold seen st ->
  best_inv ratio name_of n threshold (seen ++ [x]) (best_step ratio name_of n threshold st x).
Proof.
  intros Hinv. unfold best_step.
  destruct (score_of ratio name_of n x) as [sx|] eqn:Ex.
  - destruct (Qlt_bool (snd st) sx && Qle_bool threshold sx) eqn:Ec.
    + apply andb_true_iff in Ec as [Hlt Hle].
      apply Qlt_bool_iff in Hlt. apply Qle_bool_iff in Hle.
      unfold best_inv in *. cbn [fst snd].
      destruct st as [[p|] s]; cbn [fst snd] in *.
      * destruct Hinv as ((l1 & l2 & -> & Hp & H1 & H2) & Hpos & Hth).
        split; [|split; [lra|exact Hle]].
        exists (l1 ++ p :: l2), []. repeat split.
        -- exact Ex.
        -- intros q sq Hq Hs. apply in_app_or in Hq as [Hq|[<-|Hq]].
           ++ specialize (H1 _ _ Hq Hs). lra.
           ++ rewrite Hp in Hs. injection Hs as <-. exact Hlt.
           ++ specialize (H2 _ _ Hq Hs). lra.
        -- intros q sq [].
      * destruct Hinv as [-> Hall].
        split; [|split; [exact Hlt|exact Hle]].
        exists seen, []. repeat split.
        -- exact Ex.
        -- intros q sq Hq Hs. specialize (Hall _ _ Hq Hs).
           apply Qnot_le_lt. intros Hge. apply Hall. split; lra.
        -- intros q sq [].
    + assert (Hno : ~ ((snd st < sx)%Q /\ (threshold <= sx)%Q)).
      { intros [Hlt Hle]. apply Qlt_bool_iff in Hlt. apply Qle_bool_iff in Hle.
        rewrite Hlt, Hle in Ec. discriminate. }
      unfold best_inv in *. destruct st as [[p|] s]; cbn [fst snd] in *.
      * destruct Hinv as ((l1 & l2 & -> & Hp & H1 & H2) & Hpos & Hth).
        split; [|split; assumption].
        exists l1, (l2 ++ [x]). repeat split.
        -- now rewrite <- app_assoc.
        -- exact Hp.
        -- exact H1.
        -- intros q sq Hq Hs. apply in_app_or in Hq as [Hq|[<-|[]]].
           ++ now apply (H2 q).
           ++ rewrite Ex in Hs. injection Hs as <-.
              apply Qnot_lt_le. intros Hlt. apply Hno. split; lra.
      * destruct Hinv as [-> Hall]. split; [reflexivity|].
        intros q sq Hq Hs. apply in_app_or in Hq as [Hq|[<-|[]]].
        -- now apply (Hall q).
        -- rewrite Ex in Hs. injection Hs as <-. exact Hno.
  - unfold best_inv in *. destruct st as [[p|] s]; cbn [fst snd] in *.
    + destruct Hinv as ((l1 & l2 & -> & Hp & H1 & H2) & Hpos & Hth).
      split; [|split; assumption].
      exists l1, (l2 ++ [x]). repeat split.
      * now rewrite <- app_assoc.
      * exact Hp.
      * exact H1.
      * intros q sq Hq Hs. apply in_app_or in Hq as [Hq|[<-|[]]].
        -- now apply (H2 q).
        -- rewrite Ex in Hs. discriminate.
    + destruct Hinv as [-> Hall]. split; [reflexivity|].
      intros q sq Hq Hs. apply in_app_or in Hq as [Hq|[<-|[]]].
      * now apply (Hall q).
      * rewrite Ex in Hs. discriminate.
Qed.

Lemma best_fold_inv (n : str) (threshold : Q) (todo seen : list page) st :
  best_inv ratio name_of n threshold seen st ->
  best_inv ratio name_of n threshold (seen ++ todo)
           (fold_left (best_step ratio name_of n threshold) todo st).
Proof.
  revert seen st. induction todo as [|x todo IH]; intros seen st Hinv.
  - now rewrite app_nil_r.
  - cbn [fold_left].
    replace (seen ++ x :: todo) with ((seen ++ [x]) ++ todo)
      by now rewrite <- app_assoc.
    apply IH. now apply best_step_inv.
Qed.

Lemma best_match_loop_inv (n : str) (threshold : Q) (people : list page) :
  best_inv ratio name_of n threshold people (best_match_loop ratio name_of n threshold people).
Proof.
  apply (best_fold_inv n threshold people []).
  split; [reflexivity|]. intros q sq [].
Qed.

Lemma first_best_in (n : str) (people : list page) (p : page) (s : Q) :
  first_best ratio name_of n people p s -> In p people.
Proof. intros (l1 & l2 & -> & _). apply in_elt. Qed.

Lemma first_best_max (n : str) (people : list page) (p : page) (s : Q) :
  first_best ratio name_of n people p s ->
  forall q sq, In q people -> score_of ratio name_of n q = Some sq -> (sq <= s)%Q.
Proof.
  intros (l1 & l2 & -> & Hp & H1 & H2) q sq Hq Hs.
  apply in_app_or in Hq as [Hq|[<-|Hq]].
  - specialize (H1 _ _ Hq Hs). lra.
  - rewrite Hp in Hs. injection Hs as <-. lra.
  - now apply (H2 q).
Qed.

(** There is at most one first record with the maximum score. *)
Lemma first_best_unique (n : str) (people : list page) (p p' : page) (s s' : Q) :
  first_best ratio name_of n people p s -> first_best ratio name_of n people p' s' -> p = p' /\ s = s'.
Proof.
  intros (l1 & l2 & E & Hp & H1 & H2) (l1' & l2' & E' & Hp' & H1' & H2').
  rewrite E in E'. clear E.
  revert l1' E' H1'. induction l1 as [|x l1 IH]; intros [|y l1'] E' H1'.
  - injection E' as <- _. rewrite Hp in Hp'. now injection Hp'.
  - injection E' as Ey E'. exfalso.
    specialize (H1' p s (or_introl (eq_sym Ey)) Hp).
    assert (Hin : In p' l2) by (rewrite E'; apply in_elt).
    specialize (H2 _ _ Hin Hp'). lra.
  - injection E' as Ey E'. exfalso.
    specialize (H1 p' s' (or_introl Ey) Hp').
    assert (Hin : In p l2') by (rewrite <- E'; apply in_elt).
    specialize (H2' _ _ Hin Hp). lra.
  - injection E' as Ey E'.
    apply (IH (fun q sq Hq => H1 q sq (or_intror Hq)) l1' E'
              (fun q sq Hq => H1' q sq (or_intror Hq))).
Qed.

(** What the loop returns: the first record with the maximum score when
    that score is positive and reaches the threshold, nothing otherwise. *)
Lemma best_match_some (n : str) (threshold : Q) (people : list page) (p : page) :
  fst (best_match_loop ratio name_of n threshold people) = Some p <->
  exists s, first_best ratio name_of n people p s /\ (threshold <= s)%Q /\ (0 < s)%Q.
Proof.
  pose proof (best_match_loop_inv n threshold people) as Hinv. unfold best_inv in Hinv.
  destruct (best_match_loop ratio name_of n threshold people) as [[b|] s] eqn:E;
    cbn [fst snd] in *.
  - destruct Hinv as (Hb & Hpos & Hth). split.
    + intros H. injection H as <-. exists s. now repeat split.
    + intros (s' & Hp & _). f_equal.
      now destruct (first_best_unique _ _ _ _ _ _ Hb Hp).
  - destruct Hinv as [_ Hall]. split; [discriminate|].
    intros (s' & Hp & Hth & Hpos). exfalso.
    pose proof (first_best_in _ _ _ _ Hp) as Hin.
    destruct Hp as (l1 & l2 & _ & Hs & _).
    apply (Hall _ _ Hin Hs). now split.
Qed.

Lemma best_match_none (n : str) (threshold : Q) (people : list page) :
  fst (best_match_loop ratio name_of n threshold people) = None <->
  forall q sq, In q people -> score_of ratio name_of n q = Some sq ->
               ~ ((threshold <= sq)%Q /\ (0 < sq)%Q).
Proof.
  pose proof (best_match_loop_inv n threshold people) as Hinv. unfold best_inv in Hinv.
  destruct (best_match_loop ratio name_of n threshold people) as [[b|] s] eqn:E;
    cbn [fst snd] in *.
  - destruct Hinv as (Hb & Hpos & Hth). split; [discriminate|].
    intros Hall. exfalso. pose proof (first_best_in _ _ _ _ Hb) as Hin.
    destruct Hb as (l1 & l2 & _ & Hs & _). apply (Hall _ _ Hin Hs). now split.
  - destruct Hinv as [_ Hall]. split; [|reflexivity].
    intros _ q sq Hq Hs [Hth Hpos]. apply (Hall _ _ Hq Hs). now split.
Qed.
End BestFacts.

(** ** The directory cache *)

Lemma nth_tl (i : nat) (l : list bool) : nth i (tl l) true = nth (S i) l true.
Proof. destruct l; [now destruct i|reflexivity]. Qed.

Lemma next_request_true (w : World) :
  nth 0 (script w) true = true ->
  exists w1, next_request w = (true, w1) /\ database w1 = database w /\
             page_limit w1 = page_limit w /\ script w1 = tl (script w).
Proof.
  unfold next_request. destruct (script w) as [|b later] eqn:E; simpl; intros H.
  - exists w. now rewrite E.
  - subst b. eexists. split; [reflexivity|]. now simpl.
Qed.

Lemma next_request_false (w : World) :
  nth 0 (script w) true = false ->
  exists w1, next_request w = (false, w1) /\ database w1 = database w.
Proof.
  unfold next_request. destruct (script w) as [|b later] eqn:E; simpl; intros H.
  - discriminate.
  - subst b. eexists. split; [reflexivity|]. now simpl.
Qed.

(** The load stops at the first request that raises, if it gets there. *)
Lemma fetch_pages_fails (k : nat) :
  forall fuel w cursor acc,
    k < fuel ->
    (forall i, i < k -> nth i (script w) true = true) ->
    nth k (script w) true = false ->
    k = 0 \/ offset cursor + k * S (page_limit w) < length (database w) ->
    exists w', fetch_pages fuel w cursor acc = Some (RequestException, w') /\
               database w' = database w.
Proof.
  induction k as [|k IH]; intros fuel w cursor acc Hfuel Hok Hfail Hreach;
    (destruct fuel as [|fuel]; [lia|]); cbn [fetch_pages]; unfold post_query.
  - destruct (next_request_false w Hfail) as (w1 & -> & Hdb). eauto.
  - destruct (next_request_true w (Hok 0 ltac:(lia))) as (w1 & -> & Hdb & Hlim & Hscr).
    destruct Hreach as [Hreach|Hreach]; [discriminate|].
    fold (offset cursor).
    assert (Hmore : (offset cursor + S (page_limit w) <? length (database w)) = true).
    { apply Nat.ltb_lt. simpl in Hreach. lia. }
    cbn [results has_more next_cursor]. rewrite Hmore.
    destruct (IH fuel w1 (Some (offset cursor + S (page_limit w)))
                 (acc ++ firstn (S (page_limit w)) (skipn (offset cursor) (database w))))
      as (w' & Hres & Hdb').
    + lia.
    + intros i Hi. rewrite Hscr, nth_tl. apply Hok. lia.
    + now rewrite Hscr, nth_tl.
    + right. rewrite Hdb, Hlim. cbn [offset]. simpl in Hreach. simpl. lia.
    + exists w'. split; [exact Hres|]. now rewrite Hdb'.
Qed.

(** With every request going through, the load returns all the rows. *)
Lemma fetch_pages_all :
  forall fuel w cursor acc,
    Forall (fun ok => ok = true) (script w) ->
    length (database w) - offset cursor < fuel ->
    exists w', fetch_pages fuel w cursor acc
               = Some (Ok (acc ++ skipn (offset cursor) (database w)), w') /\
               database w' = database w.
Proof.
  induction fuel as [|fuel IH]; intros w cursor acc Hup Hfuel; [lia|].
  cbn [fetch_pages]. unfold post_query.
  assert (H0 : nth 0 (script w) true = true).
  { destruct (script w) as [|b later]; [reflexivity|]. now inversion Hup. }
  destruct (next_request_true w H0) as (w1 & -> & Hdb & Hlim & Hscr).
  fold (offset cursor). cbn [results has_more next_cursor].
  destruct (offset cursor + S (page_limit w) <? length (database w)) eqn:Hmore.
  - apply Nat.ltb_lt in Hmore.
    destruct (IH w1 (Some (offset cursor + S (page_limit w)))
                 (acc ++ firstn (S (page_limit w)) (skipn (offset cursor) (database w))))
      as (w' & Hres & Hdb').
    + rewrite Hscr. destruct (script w); [constructor|now inversion Hup].
    + rewrite Hdb. cbn [offset]. lia.
    + exists w'. split; [|now rewrite Hdb'].
      rewrite Hres. cbn [offset]. rewrite Hdb, <- app_assoc.
      rewrite (Nat.add_comm (offset cursor)), <- skipn_skipn.
      now rewrite (firstn_skipn (S (page_limit w))).
  - apply Nat.ltb_ge in Hmore. exists w1. split; [|exact Hdb].
    rewrite firstn_all2 by (rewrite length_skipn; lia). reflexivity.
Qed.

(** Whatever the script, a load with enough fuel ends: with all the rows,
    or at a request that raised. *)
Lemma fetch_pages_ends :
  forall fuel w cursor acc,
    length (database w) - offset cursor < fuel ->
    exists w', database w' = database w /\
               (fetch_pages fuel w cursor acc
                = Some (Ok (acc ++ skipn (offset cursor) (database w)), w') \/
                fetch_pages fuel w cursor acc = Some (RequestException, w')).
Proof.
  induction fuel as [|fuel IH]; intros w cursor acc Hfuel; [lia|].
  cbn [fetch_pages]. unfold post_query.
  destruct (nth 0 (script w) true) eqn:E0.
  - destruct (next_request_true w E0) as (w1 & -> & Hdb & Hlim & Hscr).
    fold (offset cursor). cbn [results has_more next_cursor].
    destruct (offset cursor + S (page_limit w) <? length (database w)) eqn:Hmore.
    + apply Nat.ltb_lt in Hmore.
      destruct (IH w1 (Some (offset cursor + S (page_limit w)))
                   (acc ++ firstn (S (page_limit w)) (skipn (offset cursor) (database w))))
        as (w' & Hdb' & [Hres|Hres]).
      * rewrite Hdb. cbn [offset]. lia.
      * exists w'. split; [now rewrite Hdb'|]. left.
        rewrite Hres. cbn [offset]. rewrite Hdb, <- app_assoc.
        rewrite (Nat.add_comm (offset cursor)), <- skipn_skipn.
        now rewrite (firstn_skipn (S (page_limit w))).
      * exists w'. split; [now rewrite Hdb'|]. now right.
    + apply Nat.ltb_ge in Hmore. exists w1. split; [exact Hdb|]. left.
      rewrite firstn_all2 by (rewrite length_skipn; lia). reflexivity.
  - destruct (next_request_false w E0) as (w1 & -> & Hdb). eauto.
Qed.

(** The call always returns a list, and the cache it leaves is either the
    one it found or the complete list it returns. *)
Lemma get_all_people_cache (fuel : nat) (self : PeopleManager) (w : World) (force : bool)
      (out : outcome (list page)) (self' : PeopleManager) (w' : World) :
  get_all_people fuel self w force = Some (out, self', w') ->
  exists people, out = Returns people /\
                 (self' = self \/ self' = set_people_cache self (Some people)).
Proof.
  unfold get_all_people. intros H.
  destruct (_people_cache self) as [cache|] eqn:Ec; [destruct force|].
  2: { injection H as <- <- <-. eauto. }
  all: destruct (fetch_pages fuel w None []) as [[[all|] w1]|]; [| |discriminate];
    injection H as <- <- <-; eauto.
Qed.

(** C5 (as amended).  When a page request of the load raises (request
    number [k] of the script, all earlier ones going through, in a load
    that gets that far), [get_all_people] returns the empty list - it does
    not raise - and the manager, its cache included, is left as it was.
    More generally the call never raises and never leaves a partial list
    in the cache. *)
Theorem failed_load_keeps_cache (fuel : nat) (self : PeopleManager) (w : World)
        (force_refresh : bool) (k : nat)
        (Hload : _people_cache self = None \/ force_refresh = true)
        (Hbefore : forall i, i < k -> nth i (script w) true = true)
        (Hraises : nth k (script w) true = false)
        (Hreached : k = 0 \/ k * S (page_limit w) < length (database w))
        (Hfuel : k < fuel) :
  (exists w', get_all_people fuel self w force_refresh = Some (Returns [], self, w') /\
              database w' = database w) /\
  (forall fuel' force out self' w',
      get_all_people fuel' self w force = Some (out, self', w') ->
      exists people, out = Returns people /\
                     (_people_cache self' = _people_cache self \/
                      _people_cache self' = Some people)).
Proof.
  split.
  - destruct (fetch_pages_fails k fuel w None [] Hfuel Hbefore Hraises Hreached)
      as (w' & Hres & Hdb).
    exists w'. split; [|exact Hdb]. unfold get_all_people. rewrite Hres.
    destruct Hload as [-> | ->]; [reflexivity|].
    now destruct (_people_cache self).
  - intros fuel' force out self' w' H.
    apply get_all_people_cache in H as (people & -> & [-> | ->]); eauto.
Qed.

Lemma failed_load_keeps_cache_witness :
  let cached := [person_page (py "p-1") (py "Ann")] in
  let rows := [person_page (py "p-1") (py "Ann"); person_page (py "p-2") (py "Bob");
               person_page (py "p-3") (py "Cy")] in
  nth 0 (script (world rows 0 [true; false])) true = true /\
  nth 1 (script (world rows 0 [true; false])) true = false /\
  1 * S (page_limit (world rows 0 [true; false])) < length rows /\
  exists w', get_all_people 5 (manager (Some cached)) (world rows 0 [true; false]) true
             = Some (Returns [], manager (Some cached), w') /\
             database w' = rows.
Proof.
  intros cached rows.
  split; [reflexivity|]. split; [reflexivity|]. split; [simpl; lia|].
  refine (proj1 (failed_load_keeps_cache 5 (manager (Some cached))
                   (world rows 0 [true; false]) true 1 (or_intror eq_refl) _ eq_refl _ _)).
  - intros i Hi. assert (i = 0) as -> by lia. reflexivity.
  - right. simpl. lia.
  - lia.
Defined.

(** C5, the claim as stated fails: a load whose first request raises ends
    with the value [[]], not with an error. *)
Lemma failed_load_returns_empty_list :
  let rows := [person_page (py "p-1") (py "Ann")] in
  get_all_people 2 (manager None) (world rows 9 [false]) false
  = Some (Returns [], manager None, world rows 9 []) /\
  ~ (exists e self' w',
        get_all_people 2 (manager None) (world rows 9 [false]) false
        = Some (Raises e, self', w')).
Proof.
  intros rows. split; [reflexivity|].
  intros (e & self' & w' & H). discriminate.
Qed.

Lemma create_person_cases (self : PeopleManager) (w : World) (n : str)
      (extra : option (list (str * property))) :
  (exists p w', create_person self w n extra = (Some p, set_people_cache self None, w') /\
                database w' = database w ++ [p] /\ script w' = tl (script w)) \/
  (exists w', create_person self w n extra = (None, self, w') /\
              database w' = database w).
Proof.
  unfold create_person, post_pages.
  destruct (nth 0 (script w) true) eqn:E.
  - left. destruct (next_request_true w E) as (w1 & -> & Hdb & _ & Hscr).
    eexists. eexists. split; [reflexivity|]. simpl. now rewrite Hdb, Hscr.
  - right. destruct (next_request_false w E) as (w1 & -> & Hdb).
    eexists. split; [reflexivity|]. exact Hdb.
Qed.

(** C6 (as amended).  When [create_person] succeeds the cache is dropped,
    whatever it held, and the created person is a row of the database.
    The next [get_all_people], forced or not, never answers from the old
    cache: it queries the service again and ends either with the full
    current listing, which contains the created person and becomes the
    cache, or, when one of its requests raised, with the empty list and no
    cache; with every request going through it is the full listing.  When
    the creation fails the manager and its cache are left as they were. *)
Theorem creation_invalidates_cache (self : PeopleManager) (w : World) (n : str)
        (extra : option (list (str * property)))
        (p : page) (self' : PeopleManager) (w' : World) (fuel : nat) (force : bool)
        (Hcreated : create_person self w n extra = (Some p, self', w'))
        (Hfuel : length (database w') < fuel) :
  _people_cache self' = None /\
  In p (database w') /\
  (exists people self'' w'',
      get_all_people fuel self' w' force = Some (Returns people, self'', w'') /\
      (people = database w' /\ self'' = set_people_cache self' (Some people) \/
       people = [] /\ self'' = self') /\
      (Forall (fun ok => ok = true) (script w') ->
       people = database w' /\ In p people)) /\
  (forall self0 w0 n0 extra0 self1 w1,
      create_person self0 w0 n0 extra0 = (None, self1, w1) -> self1 = self0).
Proof.
  assert (Hcase : self' = set_people_cache self None /\ In p (database w')).
  { destruct (create_person_cases self w n extra) as [(q & w1 & E & Hdb & _)|(w1 & E & _)];
      rewrite E in Hcreated; [|discriminate].
    injection Hcreated as <- <- <-. split; [reflexivity|].
    rewrite Hdb. apply in_or_app. right. now left. }
  destruct Hcase as [Hself Hin].
  split; [now rewrite Hself|]. split; [exact Hin|]. split.
  - assert (Hget : get_all_people fuel self' w' force
                   = match fetch_pages fuel w' None [] with
                     | None => None
                     | Some (Ok all_people, w1) =>
                         Some (Returns all_people,
                               set_people_cache self' (Some all_people), w1)
                     | Some (RequestException, w1) => Some (Returns [], self', w1)
                     end).
    { unfold get_all_people. now rewrite Hself. }
    destruct (fetch_pages_ends fuel w' None []) as (w2 & Hdb2 & [Hres|Hres]).
    { simpl. lia. }
    + exists (database w'), (set_people_cache self' (Some (database w'))), w2.
      rewrite Hget, Hres. cbn [offset skipn app].
      split; [reflexivity|]. split; [now left|]. now intros _.
    + exists [], self', w2. rewrite Hget, Hres.
      split; [reflexivity|]. split; [now right|].
      intros Hup. exfalso.
      destruct (fetch_pages_all fuel w' None [] Hup) as (w3 & Hall & _).
      { simpl. lia. }
      rewrite Hall in Hres. discriminate.
  - intros self0 w0 n0 extra0 self1 w1 H.
    destruct (create_person_cases self0 w0 n0 extra0) as [(q & w2 & E & _)|(w2 & E & _)];
      rewrite E in H; [discriminate|].
    now injection H as <- _.
Qed.

Lemma creation_invalidates_cache_witness :
  let old := [person_page (py "p-1") (py "Ann")] in
  let new := {| page_id := fresh_id 0;
                properties := [(py "Name", {| title := [py "New Person"] |})] |} in
  let after := {| database := old ++ [new]; page_limit := 0;
                  script := []; created := 1 |} in
  create_person (manager (Some old)) (world old 0 []) (py "New Person") None
  = (Some new, manager None, after) /\
  length (database after) < 3 /\
  exists people self'' w'',
    get_all_people 3 (manager None) after false = Some (Returns people, self'', w'') /\
    (people = database after /\ self'' = set_people_cache (manager None) (Some people) \/
     people = [] /\ self'' = manager None) /\
    (Forall (fun ok => ok = true) (script after) ->
     people = database after /\ In new people).
Proof.
  intros old new after.
  assert (Hcreated : create_person (manager (Some old)) (world old 0 [])
                                   (py "New Person") None
                     = (Some new, manager None, after)) by reflexivity.
  assert (Hfuel : length (database after) < 3) by (simpl; lia).
  split; [exact Hcreated|]. split; [exact Hfuel|].
  exact (proj1 (proj2 (proj2 (creation_invalidates_cache
                                (manager (Some old)) (world old 0 []) (py "New Person")
                                None new (manager None) after 3 false
                                Hcreated Hfuel)))).
Defined.

(** C6, the claim as stated fails: the creation succeeds and drops the
    cache, but the request of the reload raises; [get_all_people] then
    returns the empty list, which does not include the created person. *)
Lemma failed_reload_misses_created_person :
  let old := [person_page (py "p-1") (py "Ann")] in
  exists p self' w',
    create_person (manager (Some old)) (world old 0 [true; false]) (py "New Person") None
    = (Some p, self', w') /\
    _people_cache self' = None /\
    forall fuel force people self'' w'',
      get_all_people fuel self' w' force = Some (Returns people, self'', w'') ->
      people = [] /\ ~ In p people.
Proof.
  intros old. eexists. eexists. eexists.
  split; [reflexivity|]. split; [reflexivity|].
  intros fuel force people self'' w'' H.
  destruct fuel as [|fuel]; [destruct force; discriminate|].
  assert (E : people = []) by (destruct force; vm_compute in H; congruence).
  subst people. split; [reflexivity|]. intros [].
Qed.

(** ** The resolver *)

Lemma find_matching_person_run (ratio : str -> str -> Q) (fuel : nat)
      (self : PeopleManager) (w : World) (n : str) (threshold : Q)
      (people : list page) (self' : PeopleManager) (w' : World) :
  get_all_people fuel self w false = Some (Returns people, self', w') ->
  find_matching_person ratio fuel self w n threshold
  = Some (Returns (fst (best_match_loop ratio person_name n threshold people)), self', w').
Proof. unfold find_matching_person. now intros ->. Qed.

(** C3 (as amended).  On the directory [people] that [get_all_people]
    returns, [find_matching_person] returns the record [p] exactly when [p]
    is the first record, in directory order, with the maximum score, that
    score reaches the threshold, and that score is positive; it returns
    nothing exactly when no record has a positive score that reaches the
    threshold. *)
Theorem resolver_best_match (ratio : str -> str -> Q) (fuel : nat)
        (self : PeopleManager) (w : World) (n : str) (threshold : Q)
        (people : list page) (self' : PeopleManager) (w' : World)
        (Hdir : get_all_people fuel self w false = Some (Returns people, self', w')) :
  exists r,
    find_matching_person ratio fuel self w n threshold = Some (Returns r, self', w') /\
    (forall p,
        r = Some p <->
        exists s, first_best ratio person_name n people p s /\
                  (threshold <= s)%Q /\ (0 < s)%Q) /\
    (r = None <->
     forall q sq, In q people -> score_of ratio person_name n q = Some sq ->
                  ~ ((threshold <= sq)%Q /\ (0 < sq)%Q)).
Proof.
  exists (fst (best_match_loop ratio person_name n threshold people)).
  split; [now apply find_matching_person_run|]. split.
  - intros p. apply best_match_some.
  - apply best_match_none.
Qed.

Lemma resolver_best_match_witness :
  get_all_people 2 (manager None) (world [john_smith] 99 []) false
  = Some (Returns [john_smith], manager (Some [john_smith]), world [john_smith] 99 []) /\
  exists r,
    find_matching_person sequence_matcher_ratio 2 (manager None)
      (world [john_smith] 99 []) (py "Jon Smith") (8 # 10)
    = Some (Returns r, manager (Some [john_smith]), world [john_smith] 99 []) /\
    (forall p,
        r = Some p <->
        exists s, first_best sequence_matcher_ratio person_name (py "Jon Smith")
                             [john_smith] p s /\
                  (8 # 10 <= s)%Q /\ (0 < s)%Q) /\
    (r = None <->
     forall q sq, In q [john_smith] ->
                  score_of sequence_matcher_ratio person_name (py "Jon Smith") q = Some sq ->
                  ~ ((8 # 10 <= sq)%Q /\ (0 < sq)%Q)).
Proof.
  split; [reflexivity|].
  exact (resolver_best_match sequence_matcher_ratio 2 (manager None)
           (world [john_smith] 99 []) (py "Jon Smith") (8 # 10)
           [john_smith] (manager (Some [john_smith])) (world [john_smith] 99 []) eq_refl).
Defined.

(** C3, the claim as stated fails: against the directory ["xyz"] the name
    "abc" has the maximum score 0, which reaches the threshold 0, and yet
    nothing is returned. *)
Lemma zero_score_is_not_a_match :
  let xyz := person_page (py "p-1") (py "xyz") in
  first_best sequence_matcher_ratio person_name (py "abc") [xyz] xyz (0 # 6) /\
  (0 <= 0 # 6)%Q /\
  find_matching_person sequence_matcher_ratio 2 (manager None) (world [xyz] 99 [])
    (py "abc") 0
  = Some (Returns None, manager (Some [xyz]), world [xyz] 99 []).
Proof.
  intros xyz. split; [|split].
  - exists [], []. repeat split.
    + intros q sq [].
    + intros q sq [].
  - discriminate.
  - reflexivity.
Qed.

(** C4.  Threshold monotonicity, on the directory [people] that
    [get_all_people] returns: a record matched at a threshold is the
    record matched at every lower threshold, and nothing is matched at a
    threshold above every score of the directory. *)
Theorem threshold_monotone (ratio : str -> str -> Q) (fuel : nat)
        (self : PeopleManager) (w : World) (n : str)
        (people : list page) (self' : PeopleManager) (w' : World)
        (Hdir : get_all_people fuel self w false = Some (Returns people, self', w')) :
  (forall t t' p,
      find_matching_person ratio fuel self w n t = Some (Returns (Some p), self', w') ->
      (t' <= t)%Q ->
      find_matching_person ratio fuel self w n t' = Some (Returns (Some p), self', w')) /\
  (forall t,
      (forall q sq, In q people -> score_of ratio person_name n q = Some sq -> (sq < t)%Q) ->
      find_matching_person ratio fuel self w n t = Some (Returns None, self', w')).
Proof.
  split.
  - intros t t' p H Hle.
    rewrite (find_matching_person_run _ _ _ _ _ _ _ _ _ Hdir) in H.
    rewrite (find_matching_person_run _ _ _ _ _ _ _ _ _ Hdir).
    assert (H' : fst (best_match_loop ratio person_name n t people) = Some p)
      by congruence.
    clear H. rename H' into H.
    apply best_match_some in H as (s & Hbest & Hth & Hpos).
    assert (E : fst (best_match_loop ratio person_name n t' people) = Some p).
    { apply best_match_some. exists s. repeat split; [exact Hbest|lra|exact Hpos]. }
    now rewrite E.
  - intros t Hbelow.
    rewrite (find_matching_person_run _ _ _ _ _ _ _ _ _ Hdir).
    assert (E : fst (best_match_loop ratio person_name n t people) = None).
    { apply best_match_none. intros q sq Hq Hs [Hth _].
      specialize (Hbelow _ _ Hq Hs). lra. }
    now rewrite E.
Qed.

Lemma threshold_monotone_witness :
  let self := manager None in
  let w := world [john_smith] 99 [] in
  let found := Some (Returns (Some john_smith), manager (Some [john_smith]), w) in
  get_all_people 2 self w false
  = Some (Returns [john_smith], manager (Some [john_smith]), w) /\
  find_matching_person sequence_matcher_ratio 2 self w (py "Jon Smith") (8 # 10) = found /\
  (5 # 10 <= 8 # 10)%Q /\
  find_matching_person sequence_matcher_ratio 2 self w (py "Jon Smith") (5 # 10) = found /\
  find_matching_person sequence_matcher_ratio 2 self w (py "Jon Smith") (99 # 100)
  = Some (Returns None, manager (Some [john_smith]), w).
Proof.
  intros self w found.
  assert (Hdir : get_all_people 2 self w false
                 = Some (Returns [john_smith], manager (Some [john_smith]), w))
    by reflexivity.
  assert (Hfound : find_matching_person sequence_matcher_ratio 2 self w
                     (py "Jon Smith") (8 # 10) = found) by reflexivity.
  assert (Hle : (5 # 10 <= 8 # 10)%Q) by (unfold Qle; simpl; lia).
  split; [exact Hdir|]. split; [exact Hfound|]. split; [exact Hle|]. split.
  - exact (proj1 (threshold_monotone sequence_matcher_ratio 2 self w (py "Jon Smith")
                    [john_smith] (manager (Some [john_smith])) w Hdir)
                 (8 # 10) (5 # 10) john_smith Hfound Hle).
  - apply (proj2 (threshold_monotone sequence_matcher_ratio 2 self w (py "Jon Smith")
                    [john_smith] (manager (Some [john_smith])) w Hdir)).
    intros q sq [<-|[]] H. vm_compute in H. injection H as <-.
    unfold Qlt. simpl. lia.
Defined.

(** * Further properties *)

(** Split the conjunctions of the goal, and nothing else. *)
Ltac conjs := repeat match goal with |- _ /\ _ => split end.

(** ** Requests and the database *)

Lemma next_request_rows (w : World) (ok : bool) (w1 : World) :
  next_request w = (ok, w1) ->
  database w1 = database w /\ created w1 = created w /\ page_limit w1 = page_limit w /\
  (Forall (fun b => b = true) (script w) -> ok = true /\ Forall (fun b => b = true) (script w1)).
Proof.
  unfold next_request. destruct (script w) as [|b later] eqn:E; intros H.
  - injection H as <- <-. rewrite E. repeat split; auto.
  - injection H as <- <-. simpl. repeat split; auto.
    + now inversion H.
    + now inversion H.
Qed.

(** A load only reads: the rows and the creation counter are unchanged. *)
Lemma fetch_pages_rows :
  forall fuel w cursor acc r w',
    fetch_pages fuel w cursor acc = Some (r, w') ->
    database w' = database w /\ created w' = created w /\
    (Forall (fun b => b = true) (script w) -> Forall (fun b => b = true) (script w')).
Proof.
  induction fuel as [|fuel IH]; intros w cursor acc r w' H; [discriminate|].
  cbn [fetch_pages] in H. unfold post_query in H.
  destruct (next_request w) as [ok w1] eqn:E.
  apply next_request_rows in E as (Hdb & Hcr & Hlim & Hup).
  destruct ok.
  - cbn [results has_more next_cursor] in H.
    destruct (_ <? _) in H.
    + apply IH in H as (Hdb' & Hcr' & Hup').
      repeat split; [congruence|congruence|]. intros Hall. apply Hup', Hup, Hall.
    + injection H as <- <-. repeat split; [exact Hdb|exact Hcr|]. intros Hall. apply Hup, Hall.
  - injection H as <- <-. repeat split; [exact Hdb|exact Hcr|].
    intros Hall. apply Hup in Hall as [Habs _]. discriminate.
Qed.

Lemma get_all_people_rows (fuel : nat) (self : PeopleManager) (w : World) (force : bool)
      out self' w' :
  get_all_people fuel self w force = Some (out, self', w') ->
  database w' = database w /\ created w' = created w /\
  (Forall (fun b => b = true) (script w) -> Forall (fun b => b = true) (script w')).
Proof.
  unfold get_all_people. intros H.
  destruct (_people_cache self) as [cache|]; [destruct force|].
  2: { injection H as <- <- <-. repeat split; auto. }
  all: destruct (fetch_pages fuel w None []) as [[[all|] w1]|] eqn:E; [| |discriminate];
    injection H as <- <- <-; now apply fetch_pages_rows in E.
Qed.

(** With fuel beyond the number of rows the call returns. *)
Lemma get_all_people_returns (fuel : nat) (self : PeopleManager) (w : World) (force : bool) :
  length (database w) < fuel ->
  exists people self' w',
    get_all_people fuel self w force = Some (Returns people, self', w').
Proof.
  intros Hfuel. unfold get_all_people.
  destruct (fetch_pages_ends fuel w None []) as (w1 & _ & [E|E]); [simpl; lia| |];
    destruct (_people_cache self) as [cache|]; [destruct force| | destruct force|];
    rewrite ?E; eauto.
Qed.

Lemma find_matching_person_rows (ratio : str -> str -> Q) (fuel : nat)
      (self : PeopleManager) (w : World) (n : str) (t : Q) out self' w' :
  find_matching_person ratio fuel self w n t = Some (out, self', w') ->
  database w' = database w /\ created w' = created w /\
  (Forall (fun b => b = true) (script w) -> Forall (fun b => b = true) (script w')) /\
  exists r, out = Returns r.
Proof.
  unfold find_matching_person. intros H.
  destruct (get_all_people fuel self w false) as [[[o s1] w1]|] eqn:E; [|discriminate].
  pose proof (get_all_people_rows _ _ _ _ _ _ _ E) as (Hdb & Hcr & Hup).
  apply get_all_people_cache in E as (people & -> & _).
  injection H as <- <- <-. repeat split; eauto.
Qed.

Lemma find_matching_person_returns (ratio : str -> str -> Q) (fuel : nat)
      (self : PeopleManager) (w : World) (n : str) (t : Q) :
  length (database w) < fuel ->
  exists r self' w', find_matching_person ratio fuel self w n t = Some (Returns r, self', w').
Proof.
  intros Hfuel. unfold find_matching_person.
  destruct (get_all_people_returns fuel self w false Hfuel) as (people & s1 & w1 & ->).
  eauto.
Qed.

(** The creation of a person called [n], without additional properties. *)
Lemma create_person_plain (self : PeopleManager) (w : World) (n : str) :
  (exists p w', create_person self w n None = (Some p, set_people_cache self None, w') /\
                database w' = database w ++ [p] /\ person_name p = Some n /\
                script w' = tl (script w) /\ nth 0 (script w) true = true) \/
  (exists w', create_person self w n None = (None, self, w') /\
              database w' = database w /\ nth 0 (script w) true = false).
Proof.
  unfold create_person, post_pages.
  destruct (nth 0 (script w) true) eqn:E.
  - left. destruct (next_request_true w E) as (w1 & -> & Hdb & _ & Hscr).
    eexists. eexists. split; [reflexivity|]. simpl. now rewrite Hdb, Hscr.
  - right. destruct (next_request_false w E) as (w1 & -> & Hdb).
    eexists. split; [reflexivity|]. now split.
Qed.

(** ** Resolving the people of a text *)

Lemma resolve_names_spec (ratio : str -> str -> Q) (fuel : nat) (create_missing : bool)
      (names : list str) :
  forall self w resolved unresolved out self' w',
    resolve_names ratio fuel create_missing names self w resolved unresolved
    = Some (out, self', w') ->
    exists new_resolved new_unresolved made,
      out = Returns (resolved ++ new_resolved, unresolved ++ new_unresolved) /\
      length new_resolved + length new_unresolved = length names /\
      incl new_unresolved names /\
      database w' = database w ++ made /\
      incl made new_resolved /\
      (forall p, In p made -> exists n, In n names /\ person_name p = Some n) /\
      (create_missing = false -> made = []) /\
      (create_missing = true -> Forall (fun b => b = true) (script w) ->
       new_unresolved = [] /\ Forall (fun b => b = true) (script w')).
Proof.
  induction names as [|n names IH]; intros self w resolved unresolved out self' w' H.
  - injection H as <- <- <-. exists [], [], [].
    rewrite !app_nil_r. conjs; auto; try (intros x []).
  - cbn [resolve_names] in H.
    destruct (find_matching_person ratio fuel self w n default_threshold)
      as [[[o s1] w1]|] eqn:Ef; [|discriminate].
    apply find_matching_person_rows in Ef as (Hdb1 & _ & Hup1 & r & ->).
    destruct r as [existing|].
    + apply IH in H as (nr & nu & made & -> & Hlen & Hincl & Hdb & Hmade & Hnames & Hcm & Hall).
      exists (existing :: nr), nu, made.
      rewrite <- !app_assoc. conjs.
      * reflexivity.
      * simpl. lia.
      * intros x Hx. right. now apply Hincl.
      * now rewrite Hdb, Hdb1.
      * intros x Hx. right. now apply Hmade.
      * intros p Hp. destruct (Hnames p Hp) as (m & Hm & Hpm). exists m. split; [now right|exact Hpm].
      * exact Hcm.
      * intros Hc Hs. apply Hall; [exact Hc|now apply Hup1].
    + destruct create_missing.
      * destruct (create_person_plain s1 w1 n)
          as [(p & w2 & Ec & Hdb2 & Hname & Hscr & H0)|(w2 & Ec & Hdb2 & H0)];
          rewrite Ec in H.
        -- apply IH in H as (nr & nu & made & -> & Hlen & Hincl & Hdb & Hmade & Hnames & Hcm & Hall).
           exists (p :: nr), nu, (p :: made).
           rewrite <- !app_assoc. conjs.
           ++ reflexivity.
           ++ simpl. lia.
           ++ intros x Hx. right. now apply Hincl.
           ++ rewrite Hdb, Hdb2, Hdb1, <- app_assoc. reflexivity.
           ++ intros x [<-|Hx]; [now left|right; now apply Hmade].
           ++ intros q [<-|Hq].
              ** exists n. split; [now left|exact Hname].
              ** destruct (Hnames q Hq) as (m & Hm & Hqm). exists m. split; [now right|exact Hqm].
           ++ discriminate.
           ++ intros _ Hs. apply Hall; [reflexivity|].
              rewrite Hscr. apply Hup1 in Hs. destruct (script w1); [constructor|now inversion Hs].
        -- apply IH in H as (nr & nu & made & -> & Hlen & Hincl & Hdb & Hmade & Hnames & Hcm & Hall).
           exists nr, (n :: nu), made.
           rewrite <- !app_assoc. conjs.
           ++ reflexivity.
           ++ simpl. lia.
           ++ intros x [<-|Hx]; [now left|right; now apply Hincl].
           ++ now rewrite Hdb, Hdb2, Hdb1.
           ++ exact Hmade.
           ++ intros q Hq. destruct (Hnames q Hq) as (m & Hm & Hqm).
              exists m. split; [now right|exact Hqm].
           ++ discriminate.
           ++ intros _ Hs. exfalso. apply Hup1 in Hs.
              destruct (script w1); [discriminate|]. inversion Hs; subst. discriminate.
      * apply IH in H as (nr & nu & made & -> & Hlen & Hincl & Hdb & Hmade & Hnames & Hcm & Hall).
        exists nr, (n :: nu), made.
        rewrite <- !app_assoc. conjs.
        -- reflexivity.
        -- simpl. lia.
        -- intros x [<-|Hx]; [now left|right; now apply Hincl].
        -- now rewrite Hdb, Hdb1.
        -- exact Hmade.
        -- intros q Hq. destruct (Hnames q Hq) as (m & Hm & Hqm).
           exists m. split; [now right|exact Hqm].
        -- exact Hcm.
        -- discriminate.
Qed.

Lemma resolve_names_returns (ratio : str -> str -> Q) (fuel : nat) (create_missing : bool)
      (names : list str) :
  forall self w resolved unresolved,
    length (database w) + length names < fuel ->
    exists r self' w',
      resolve_names ratio fuel create_missing names self w resolved unresolved
      = Some (Returns r, self', w').
Proof.
  induction names as [|n names IH]; intros self w resolved unresolved Hfuel.
  - simpl. eauto.
  - cbn [resolve_names].
    destruct (find_matching_person_returns ratio fuel self w n default_threshold)
      as (r & s1 & w1 & Ef); [simpl in Hfuel; lia|].
    rewrite Ef. apply find_matching_person_rows in Ef as (Hdb1 & _).
    simpl in Hfuel.
    destruct r as [existing|]; [apply IH; rewrite Hdb1; lia|].
    destruct create_missing; [|apply IH; rewrite Hdb1; lia].
    destruct (create_person_plain s1 w1 n)
      as [(p & w2 & Ec & Hdb2 & _)|(w2 & Ec & Hdb2 & _)]; rewrite Ec; apply IH.
    + rewrite Hdb2, length_app, Hdb1. simpl. lia.
    + rewrite Hdb2, Hdb1. lia.
Qed.

Lemma resolve_names_rows_bound (ratio : str -> str -> Q) (fuel : nat)
      (create_missing : bool) (names : list str) :
  forall self w resolved unresolved out self' w',
    resolve_names ratio fuel create_missing names self w resolved unresolved
    = Some (out, self', w') ->
    length (database w') <= length (database w) + length names.
Proof.
  induction names as [|n names IH]; intros self w resolved unresolved out self' w' H.
  - injection H as _ _ <-. lia.
  - cbn [resolve_names] in H.
    destruct (find_matching_person ratio fuel self w n default_threshold)
      as [[[o s1] w1]|] eqn:Ef; [|discriminate].
    apply find_matching_person_rows in Ef as (Hdb1 & _ & _ & r & ->).
    destruct r as [existing|].
    + apply IH in H. rewrite Hdb1 in H. simpl. lia.
    + destruct create_missing.
      * destruct (create_person_plain s1 w1 n)
          as [(p & w2 & Ec & Hdb2 & _)|(w2 & Ec & Hdb2 & _)];
          rewrite Ec in H; apply IH in H;
          rewrite Hdb2 in H; try rewrite length_app in H; rewrite Hdb1 in H;
          simpl in *; lia.
      * apply IH in H. rewrite Hdb1 in H. simpl. lia.
Qed.



(** X2.  [resolve_people_in_text] only ever appends rows to the People
    database: every appended page is one of the resolved people it
    returns and is named by one of the names it was given; with
    [create_missing=False] nothing is appended at all. *)
Theorem resolve_appends_only_resolved (ratio : str -> str -> Q) (fuel : nat)
        (create_missing : bool) (names : list str)
        (self : PeopleManager) (w : World)
        (resolved : list page) (unresolved : list str)
        (self' : PeopleManager) (w' : World)
        (Hrun : resolve_names ratio fuel create_missing names self w [] []
                = Some (Returns (resolved, unresolved), self', w')) :
  exists made,
    database w' = database w ++ made /\
    incl made resolved /\
    (forall p, In p made -> exists n, In n names /\ person_name p = Some n) /\
    length made <= length names /\
    (create_missing = false -> made = [] /\ database w' = database w).
Proof.
  pose proof (resolve_names_spec _ _ _ _ _ _ _ _ _ _ _ Hrun)
    as (nr & nu & made & Hout & Hlen & _ & Hdb & Hmade & Hnames & Hcm & _).
  exists made. conjs.
  - exact Hdb.
  - injection Hout as -> _. exact Hmade.
  - exact Hnames.
  - pose proof (resolve_names_rows_bound _ _ _ _ _ _ _ _ _ _ _ Hrun) as Hdup.
    rewrite Hdb, length_app in Hdup. lia.
  - intros Hc. specialize (Hcm Hc). subst made. split; [reflexivity|].
    now rewrite Hdb, app_nil_r.
Qed.

Lemma resolve_appends_only_resolved_witness :
  let ann := person_page (py "p-1") (py "Ann") in
  let bob := {| page_id := fresh_id 0;
                properties := [(py "Name", {| title := [py "Bob"] |})] |} in
  let after := {| database := [ann; bob]; page_limit := 9; script := []; created := 1 |} in
  resolve_names sequence_matcher_ratio 5 true [py "Ann"; py "Bob"]
                (manager None) (world [ann] 9 []) [] []
  = Some (Returns ([ann; bob], []), manager None, after) /\
  exists made,
    database after = database (world [ann] 9 []) ++ made /\
    incl made [ann; bob] /\
    (forall p, In p made -> exists n, In n [py "Ann"; py "Bob"] /\ person_name p = Some n) /\
    length made <= length [py "Ann"; py "Bob"] /\
    (true = false -> made = [] /\ database after = database (world [ann] 9 [])).
Proof.
  intros ann bob after.
  assert (Hrun : resolve_names sequence_matcher_ratio 5 true [py "Ann"; py "Bob"]
                               (manager None) (world [ann] 9 []) [] []
                 = Some (Returns ([ann; bob], []), manager None, after))
    by (vm_compute; reflexivity).
  split; [exact Hrun|].
  exact (resolve_appends_only_resolved sequence_matcher_ratio 5 true [py "Ann"; py "Bob"]
           (manager None) (world [ann] 9 []) [ann; bob] [] (manager None) after Hrun).
Defined.

(** X3.  With [create_missing=True] and a service whose requests all go
    through, no name is left unresolved: every name is matched or created,
    and the call returns as many people as it was given names. *)
Theorem resolve_leaves_none_unresolved (ratio : str -> str -> Q) (fuel : nat)
        (names : list str) (self : PeopleManager) (w : World)
        (Hup : Forall (fun ok => ok = true) (script w))
        (Hfuel : length (database w) + length names < fuel) :
  exists resolved self' w',
    resolve_names ratio fuel true names self w [] []
    = Some (Returns (resolved, []), self', w') /\
    length resolved = length names.
Proof.
  destruct (resolve_names_returns ratio fuel true names self w [] [] Hfuel)
    as (r & self' & w' & E).
  pose proof (resolve_names_spec _ _ _ _ _ _ _ _ _ _ _ E)
    as (nr & nu & made & Hout & Hlen & _ & _ & _ & _ & _ & Hall).
  destruct (Hall eq_refl Hup) as [-> _].
  injection Hout as ->. exists nr, self', w'. split; [exact E|].
  simpl in Hlen. lia.
Qed.

Lemma resolve_leaves_none_unresolved_witness :
  let ann := person_page (py "p-1") (py "Ann") in
  Forall (fun ok => ok = true) (script (world [ann] 9 [true; true; true])) /\
  length (database (world [ann] 9 [true; true; true])) + length [py "Ann"; py "Bob"] < 5 /\
  exists resolved self' w',
    resolve_names sequence_matcher_ratio 5 true [py "Ann"; py "Bob"]
                  (manager None) (world [ann] 9 [true; true; true]) [] []
    = Some (Returns (resolved, []), self', w') /\
    length resolved = length [py "Ann"; py "Bob"].
Proof.
  intros ann.
  assert (Hup : Forall (fun ok => ok = true) (script (world [ann] 9 [true; true; true])))
    by (repeat constructor).
  assert (Hfuel : length (database (world [ann] 9 [true; true; true]))
                  + length [py "Ann"; py "Bob"] < 5) by (simpl; lia).
  split; [exact Hup|]. split; [exact Hfuel|].
  exact (resolve_leaves_none_unresolved sequence_matcher_ratio 5 [py "Ann"; py "Bob"]
           (manager None) (world [ann] 9 [true; true; true]) Hup Hfuel).
Defined.

(** ** The cache of the directory *)

(** X4.  A non-empty listing returned by [get_all_people] is the cache
    from then on: every later unforced call returns the same list without
    any request, whatever the state of the service (rows added there by
    someone else are not seen). *)
Theorem listing_is_served_from_cache (fuel : nat) (self : PeopleManager) (w : World)
        (force : bool) (people : list page) (self' : PeopleManager) (w' : World)
        (Hfirst : get_all_people fuel self w force = Some (Returns people, self', w'))
        (Hsome : people <> []) :
  forall fuel2 w2,
    get_all_people fuel2 self' w2 false = Some (Returns people, self', w2).
Proof.
  assert (Hcache : _people_cache self' = Some people).
  { unfold get_all_people in Hfirst.
    destruct (_people_cache self) as [cache|] eqn:Ec; [destruct force|].
    2: { injection Hfirst as <- <- <-. exact Ec. }
    all: destruct (fetch_pages fuel w None []) as [[[all|] w1]|]; [| |discriminate];
      injection Hfirst as <- <- <-; try reflexivity; contradiction. }
  intros fuel2 w2. unfold get_all_people. now rewrite Hcache.
Qed.

Lemma listing_is_served_from_cache_witness :
  let ann := person_page (py "p-1") (py "Ann") in
  let bob := person_page (py "p-2") (py "Bob") in
  get_all_people 3 (manager None) (world [ann] 9 []) false
  = Some (Returns [ann], manager (Some [ann]), world [ann] 9 []) /\
  [ann] <> [] /\
  get_all_people 0 (manager (Some [ann])) (world [ann; bob] 9 [false]) false
  = Some (Returns [ann], manager (Some [ann]), world [ann; bob] 9 [false]).
Proof.
  intros ann bob.
  assert (Hfirst : get_all_people 3 (manager None) (world [ann] 9 []) false
                   = Some (Returns [ann], manager (Some [ann]), world [ann] 9 []))
    by reflexivity.
  assert (Hsome : [ann] <> []) by discriminate.
  split; [exact Hfirst|]. split; [exact Hsome|].
  exact (listing_is_served_from_cache 3 (manager None) (world [ann] 9 []) false [ann]
           (manager (Some [ann])) (world [ann] 9 []) Hfirst Hsome
           0 (world [ann; bob] 9 [false])).
Defined.

(** ** The links of people and projects *)

Lemma names_of_in (name_of : page -> option str) (results : list page) (n : str) :
  In n (names_of name_of results) <-> exists p, In p results /\ name_of p = Some n.
Proof.
  induction results as [|p results IH]; simpl.
  - split; [intros []|intros (p & [] & _)].
  - destruct (name_of p) as [m|] eqn:E.
    + simpl. rewrite IH. split.
      * intros [<-|(q & Hq & Hn)]; [exists p; auto|exists q; auto].
      * intros (q & [<-|Hq] & Hn); [left; congruence|right; eauto].
    + rewrite IH. split.
      * intros (q & Hq & Hn). eauto.
      * intros (q & [<-|Hq] & Hn); [congruence|eauto].
Qed.

(** X5.  A link returned by [get_person_link] is the URL of a page of the
    query result: the first page with the best similarity to the name,
    that similarity being at least 0.8; the URL is the page id with its
    dashes removed behind the Notion host. *)
Theorem person_link_is_best_page (ratio : str -> str -> Q) (env : Env) (n url : str)
        (Hlink : get_person_link ratio env n = Some url) :
  exists results p s,
    people_response env = Some results /\
    first_best ratio person_name n results p s /\
    (link_threshold <= s)%Q /\
    url = py "https://www.notion.so/" ++ remove_char "-" (page_id p) /\
    (forall q sq, In q results -> score_of ratio person_name n q = Some sq -> (sq <= s)%Q).
Proof.
  unfold get_person_link in Hlink.
  destruct (negb (truthy (NOTION_TOKEN env)) || negb (truthy (PEOPLE_DATABASE_ID env)));
    [discriminate|].
  destruct (people_response env) as [results|]; [|discriminate].
  destruct (fst (best_match_loop ratio person_name n link_threshold results))
    as [p|] eqn:E; [|discriminate].
  injection Hlink as <-.
  apply best_match_some in E as (s & Hbest & Hth & _).
  exists results, p, s. conjs; auto.
  exact (first_best_max ratio person_name n results p s Hbest).
Qed.

Lemma person_link_is_best_page_witness :
  get_person_link sequence_matcher_ratio (people_env [py "John Smith"]) (py "Jon Smith")
  = Some (py "https://www.notion.so/0a1b") /\
  exists results p s,
    people_response (people_env [py "John Smith"]) = Some results /\
    first_best sequence_matcher_ratio person_name (py "Jon Smith") results p s /\
    (link_threshold <= s)%Q /\
    py "https://www.notion.so/0a1b" = py "https://www.notion.so/" ++ remove_char "-" (page_id p) /\
    (forall q sq, In q results ->
                  score_of sequence_matcher_ratio person_name (py "Jon Smith") q = Some sq ->
                  (sq <= s)%Q).
Proof.
  assert (Hlink : get_person_link sequence_matcher_ratio (people_env [py "John Smith"])
                                  (py "Jon Smith")
                  = Some (py "https://www.notion.so/0a1b")) by reflexivity.
  split; [exact Hlink|].
  exact (person_link_is_best_page sequence_matcher_ratio (people_env [py "John Smith"])
           (py "Jon Smith") (py "https://www.notion.so/0a1b") Hlink).
Defined.

(** X6.  Every name that [get_all_people_names] lists gets a link from
    [get_person_link] (the same query answer being read), as soon as the
    metric scores the name against itself at 0.8 or more. *)
Theorem listed_name_has_link (ratio : str -> str -> Q) (env : Env) (n : str)
        (Hlisted : In n (get_all_people_names env))
        (Hself : (link_threshold <= ratio (lower n) (lower n))%Q) :
  exists url, get_person_link ratio env n = Some url.
Proof.
  unfold get_all_people_names in Hlisted. unfold get_person_link.
  destruct (negb (truthy (NOTION_TOKEN env)) || negb (truthy (PEOPLE_DATABASE_ID env)));
    [destruct Hlisted|].
  destruct (people_response env) as [results|]; [|destruct Hlisted].
  apply names_of_in in Hlisted as (p & Hp & Hname).
  destruct (fst (best_match_loop ratio person_name n link_threshold results))
    as [q|] eqn:E; [simpl; eauto|].
  exfalso. rewrite best_match_none in E.
  apply (E p (ratio (lower n) (lower n)) Hp).
  - unfold score_of. now rewrite Hname.
  - split; [exact Hself|]. unfold link_threshold in Hself.
    apply Qlt_le_trans with (8 # 10)%Q; [reflexivity|exact Hself].
Qed.

Lemma listed_name_has_link_witness :
  In (py "Sam Lee") (get_all_people_names (people_env [py "Sam"; py "Sam Lee"])) /\
  (link_threshold <= sequence_matcher_ratio (lower (py "Sam Lee")) (lower (py "Sam Lee")))%Q /\
  exists url,
    get_person_link sequence_matcher_ratio (people_env [py "Sam"; py "Sam Lee"]) (py "Sam Lee")
    = Some url.
Proof.
  assert (Hlisted : In (py "Sam Lee")
                       (get_all_people_names (people_env [py "Sam"; py "Sam Lee"])))
    by (right; left; reflexivity).
  assert (Hself : (link_threshold
                   <= sequence_matcher_ratio (lower (py "Sam Lee")) (lower (py "Sam Lee")))%Q)
    by (vm_compute; discriminate).
  split; [exact Hlisted|]. split; [exact Hself|].
  exact (listed_name_has_link sequence_matcher_ratio (people_env [py "Sam"; py "Sam Lee"])
           (py "Sam Lee") Hlisted Hself).
Defined.

(** ** What the linkers emit *)

Lemma prefix_ci_lower (pat s : str) :
  prefix_ci pat s = true -> lower (firstn (length pat) s) = lower pat.
Proof.
  revert s. induction pat as [|p pat IH]; intros [|c s] H; simpl in *;
    try reflexivity; try discriminate.
  apply andb_true_iff in H as [Hc H]. unfold char_eq_ci in Hc.
  apply Ascii.eqb_eq in Hc. rewrite (IH _ H). now rewrite Hc.
Qed.

Lemma lower_length (a b : str) : lower a = lower b -> length a = length b.
Proof.
  intros H. apply (f_equal (@length ascii)) in H. unfold lower in H.
  now rewrite !length_map in H.
Qed.

Section EmittedParts.
Context {A : Type}.
Variable text_of : A -> str.
Variable link_of : A -> option str.

(** Every part the loop adds is a non-empty plain part or the copy, up to
    case, of a candidate, with that candidate's link. *)
Lemma link_loop_parts (candidates : list A) :
  forall fuel remaining_text parts out,
    link_loop text_of link_of fuel candidates remaining_text parts = Some out ->
    exists added,
      out = parts ++ added /\
      Forall (fun part =>
                (link part = None /\ content part <> []) \/
                (exists v, In v candidates /\
                           lower (content part) = lower (text_of v) /\
                           link part = link_of v)) added.
Proof.
  induction fuel as [|fuel IH]; intros remaining_text parts out H.
  - destruct remaining_text; [|discriminate]. injection H as <-.
    exists []. now rewrite app_nil_r.
  - destruct remaining_text as [|c rest0].
    + injection H as <-. exists []. now rewrite app_nil_r.
    + remember (c :: rest0) as rem eqn:Erem.
      rewrite link_loop_unfold in H by (subst; discriminate).
      destruct (find_earliest text_of candidates rem) as [m|] eqn:E.
      * apply IH in H as (added & -> & Hall).
        apply find_earliest_some in E.
        pose proof (selected_in _ _ _ _ E) as Hin.
        destruct E as (Hm & Hlt & Hstop & Htxt & _).
        eexists. rewrite <- !app_assoc. split; [reflexivity|].
        apply Forall_app. split; [|constructor; [|exact Hall]].
        -- destruct (0 <? start m) eqn:E0; [|constructor].
           apply Nat.ltb_lt in E0. constructor; [|constructor].
           left. split; [reflexivity|]. cbn [plain content].
           rewrite slice_from_zero. intros Habs.
           apply (f_equal (@length ascii)) in Habs.
           rewrite length_firstn in Habs. simpl in Habs. lia.
        -- right. exists (matched m). split; [exact Hin|]. split; [|reflexivity].
           cbn [content]. rewrite Htxt, Hstop, slice_length_from.
           apply prefix_ci_lower. now apply search_ci_sound in Hm.
      * injection H as <-. exists [plain rem]. split; [reflexivity|].
        constructor; [|constructor]. left. split; [reflexivity|].
        subst rem. discriminate.
Qed.

(** When no candidate occurs the text is passed on as one plain part. *)
Lemma link_loop_no_match (candidates : list A) (fuel : nat) (remaining_text : str)
      (parts : list rich_text) :
  remaining_text <> [] ->
  (forall v, In v candidates -> search_ci (text_of v) remaining_text = None) ->
  link_loop text_of link_of (S fuel) candidates remaining_text parts
  = Some (parts ++ [plain remaining_text]).
Proof.
  intros Hne Hnone. rewrite link_loop_unfold by exact Hne.
  destruct (find_earliest text_of candidates remaining_text) as [m|] eqn:E; [|reflexivity].
  apply find_earliest_some in E. pose proof (selected_in _ _ _ _ E) as Hin.
  destruct E as (Hm & _). rewrite (Hnone _ Hin) in Hm. discriminate.
Qed.
End EmittedParts.

(** ** The first occurrence the scan reaches *)

Section FirstOccurrence.
Context {A : Type}.
Variable text_of : A -> str.
Variable link_of : A -> option str.

(** The parts already emitted are only carried along. *)
Lemma link_loop_acc (candidates : list A) :
  forall fuel remaining_text parts,
    link_loop text_of link_of fuel candidates remaining_text parts
    = option_map (app parts)
                 (link_loop text_of link_of fuel candidates remaining_text []).
Proof.
  induction fuel as [|fuel IH]; intros remaining_text parts.
  - destruct remaining_text; simpl; [now rewrite app_nil_r|reflexivity].
  - destruct remaining_text as [|c rest0]; [simpl; now rewrite app_nil_r|].
    rewrite !link_loop_unfold by discriminate.
    destruct (find_earliest text_of candidates (c :: rest0)) as [m|]; [|reflexivity].
    rewrite (IH _ (parts ++ _)), (IH _ ([] ++ _)).
    destruct (link_loop text_of link_of fuel candidates (skipn (stop m) (c :: rest0)) []);
      simpl; [|reflexivity].
    now rewrite <- app_assoc.
Qed.

(** A result does not depend on the turns left over. *)
Lemma link_loop_fuel (candidates : list A) :
  forall fuel fuel' remaining_text parts out,
    link_loop text_of link_of fuel candidates remaining_text parts = Some out ->
    fuel <= fuel' ->
    link_loop text_of link_of fuel' candidates remaining_text parts = Some out.
Proof.
  induction fuel as [|fuel IH]; intros fuel' remaining_text parts out H Hle.
  - destruct remaining_text; [|discriminate]. destruct fuel'; exact H.
  - destruct remaining_text as [|c rest0]; [destruct fuel'; exact H|].
    destruct fuel' as [|fuel']; [lia|].
    rewrite link_loop_unfold in H by discriminate.
    rewrite link_loop_unfold by discriminate.
    destruct (find_earliest text_of candidates (c :: rest0)) as [m|]; [|exact H].
    apply (IH fuel'); [exact H|lia].
Qed.

(** An occurrence [occ] of the candidate [v] that stands between [pre] and
    [post], such that no candidate occurs further left and no longer
    candidate occurs at its offset, is the first linked part of the
    result: [pre] comes before it as plain text, and [post] is linked on
    its own after it. *)
Lemma first_occurrence_is_emitted (raw : list A) (v : A) (pre occ post : str)
      (fuel : nat) :
  (forall u, In u raw -> text_of u <> []) ->
  In v raw -> lower occ = lower (text_of v) ->
  (forall u s, In u raw -> search_ci (text_of u) (pre ++ occ ++ post) = Some s ->
               length pre <= s) ->
  (forall u, In u raw -> search_ci (text_of u) (pre ++ occ ++ post) = Some (length pre) ->
             length (text_of u) <= length (text_of v)) ->
  length (pre ++ occ ++ post) <= fuel ->
  exists v' rest,
    In v' raw /\ lower (text_of v') = lower occ /\
    link_loop text_of link_of fuel (sort_desc text_of raw) post [] = Some rest /\
    link_loop text_of link_of fuel (sort_desc text_of raw) (pre ++ occ ++ post) []
    = Some ((match pre with [] => [] | _ :: _ => [plain pre] end)
              ++ {| content := occ; link := link_of v' |} :: rest).
Proof.
  intros Hne Hv Hcase Hleft Hlong Hfuel.
  assert (Hlen : length occ = length (text_of v)) by now apply lower_length.
  assert (Hocc : 0 < length occ).
  { rewrite Hlen. specialize (Hne v Hv). destruct (text_of v); [contradiction|simpl; lia]. }
  assert (Hat : search_ci (text_of v) (pre ++ occ ++ post) = Some (length pre)).
  { destruct (search_ci_complete (text_of v) (pre ++ occ ++ post) (length pre))
      as (i & Hi & Hle).
    - rewrite skipn_app, skipn_all, Nat.sub_diag. simpl. now apply prefix_ci_occurrence.
    - rewrite Hi. f_equal. specialize (Hleft v i Hv Hi). lia. }
  assert (Htext : pre ++ occ ++ post <> []).
  { intros Habs. apply (f_equal (@length ascii)) in Habs.
    rewrite !length_app in Habs. simpl in Habs. lia. }
  assert (Hskip : forall k, skipn (length pre + k) (pre ++ occ ++ post)
                            = skipn k (occ ++ post)).
  { intros k. rewrite skipn_app, skipn_all2 by lia.
    now replace (length pre + k - length pre) with k by lia. }
  destruct (find_earliest text_of (sort_desc text_of raw) (pre ++ occ ++ post))
    as [m|] eqn:E.
  2: { rewrite (find_earliest_none _ _ _ _ E Htext
                  (proj2 (sort_desc_in text_of raw v) Hv)) in Hat. discriminate. }
  apply find_earliest_some in E.
  pose proof (selected_in _ _ _ _ E) as Hin. apply sort_desc_in in Hin.
  pose proof E as (Hm & Hlt & Hstop & Htxt & l1 & l2 & Esplit & H1 & H2).
  assert (Hpos : start m = length pre /\
                 length (text_of v) <= length (text_of (matched m))).
  { pose proof (Hleft _ _ Hin Hm) as Hge.
    assert (Hv' : In v (l1 ++ matched m :: l2))
      by (rewrite <- Esplit; now apply sort_desc_in).
    apply in_app_or in Hv' as [Hv'|[Hv'|Hv']].
    - specialize (H1 _ _ Hv' Hat). lia.
    - rewrite <- Hv' in Hat. rewrite Hm in Hat. rewrite Hv'.
      split; [congruence|lia].
    - specialize (H2 _ _ Hv' Hat). split; [lia|].
      apply (sorted_split text_of l1 l2); [|exact Hv'].
      rewrite <- Esplit. apply sort_desc_sorted. }
  destruct Hpos as [Hstart Hlonger].
  assert (Hsame : length (text_of (matched m)) = length occ).
  { rewrite Hstart in Hm. specialize (Hlong _ Hin Hm). lia. }
  assert (Hfirstn : firstn (length occ) (occ ++ post) = occ).
  { rewrite firstn_app, firstn_all, Nat.sub_diag. simpl. apply app_nil_r. }
  assert (Hmt : matched_text m = occ).
  { rewrite Htxt, Hstop, slice_length_from, Hstart, Hsame.
    replace (length pre) with (length pre + 0) at 1 by lia.
    rewrite Hskip. exact Hfirstn. }
  assert (Hlow : lower (text_of (matched m)) = lower occ).
  { apply search_ci_sound in Hm as [Hm _]. apply prefix_ci_lower in Hm.
    rewrite Hstart, Hsame in Hm.
    replace (length pre) with (length pre + 0) in Hm by lia.
    rewrite Hskip in Hm. cbn [skipn] in Hm. rewrite Hfirstn in Hm. now symmetry. }
  assert (Hrest : skipn (stop m) (pre ++ occ ++ post) = post).
  { rewrite Hstop, Hstart, Hsame, Hskip, skipn_app, skipn_all, Nat.sub_diag. reflexivity. }
  destruct fuel as [|fuel]; [rewrite !length_app in Hfuel; lia|].
  assert (Hne' : forall u, In u (sort_desc text_of raw) -> text_of u <> []).
  { intros u Hu. apply Hne. now apply sort_desc_in in Hu. }
  assert (Hpost : length post <= fuel) by (rewrite !length_app in Hfuel; lia).
  destruct (link_loop_total text_of link_of (sort_desc text_of raw) Hne' fuel post [] Hpost)
    as (rest & Hloop).
  exists (matched m), rest. split; [exact Hin|]. split; [exact Hlow|]. split.
  - apply (link_loop_fuel _ fuel); [exact Hloop|lia].
  - rewrite (link_loop_step _ _ _ _ _ _ m E), link_loop_acc, Hrest, Hloop, Hmt, Hstart.
    cbn [option_map app]. f_equal. rewrite <- app_assoc. cbn [app].
    destruct pre as [|c pre]; [reflexivity|].
    replace (0 <? length (c :: pre)) with true by reflexivity.
    rewrite firstn_app, firstn_all, Nat.sub_diag. cbn [firstn]. now rewrite app_nil_r.
Qed.
End FirstOccurrence.

(** The link of a name depends on the name up to case only. *)
Lemma best_match_loop_lower (ratio : str -> str -> Q) (name_of : page -> option str)
      (a b : str) (threshold : Q) (people : list page) :
  lower a = lower b ->
  best_match_loop ratio name_of a threshold people
  = best_match_loop ratio name_of b threshold people.
Proof.
  intros H. unfold best_match_loop. generalize (@None page, 0%Q).
  induction people as [|p people IH]; intros st; [reflexivity|].
  cbn [fold_left]. rewrite IH. f_equal. unfold best_step, score_of. now rewrite H.
Qed.

Lemma get_person_link_lower (ratio : str -> str -> Q) (env : Env) (a b : str) :
  lower a = lower b -> get_person_link ratio env a = get_person_link ratio env b.
Proof.
  intros H. unfold get_person_link.
  destruct (negb (truthy (NOTION_TOKEN env)) || negb (truthy (PEOPLE_DATABASE_ID env)));
    [reflexivity|].
  destruct (people_response env) as [results|]; [|reflexivity].
  now rewrite (best_match_loop_lower ratio person_name a b link_threshold results H).
Qed.

(** What a linker returns does not depend on the turns left over. *)
Lemma linkers_fuel (ratio : str -> str -> Q) (env : Env) (fuel fuel' : nat) (s : str)
      (parts : list rich_text) :
  fuel <= fuel' ->
  (create_rich_text_with_people_links ratio env fuel s = Some parts ->
   create_rich_text_with_people_links ratio env fuel' s = Some parts) /\
  (create_rich_text_with_entity_links ratio env fuel s = Some parts ->
   create_rich_text_with_entity_links ratio env fuel' s = Some parts).
Proof.
  intros Hle. split.
  - unfold create_rich_text_with_people_links.
    destruct (negb (truthy (NOTION_TOKEN env)) || negb (truthy (PEOPLE_DATABASE_ID env)));
      [auto|].
    destruct (get_all_people_names env); [auto|].
    intros H. now apply (link_loop_fuel _ _ _ fuel).
  - unfold create_rich_text_with_entity_links.
    destruct (negb (truthy (NOTION_TOKEN env))); [auto|].
    destruct (gather_entities env); [auto|].
    intros H. now apply (link_loop_fuel _ _ _ fuel).
Qed.

(** C10 (as amended).  No word boundary is checked.  Let no listed name be
    empty, and let an occurrence [occ] of a variation (the same characters
    up to case) stand anywhere in the text, between any [pre] and any
    [post], letters included.  When no variation occurs further left in
    the text and no longer variation occurs at the offset of [occ], the
    linker returns [pre] as plain text if it is not empty, then a span
    whose content is exactly [occ], as written in the text, linked as a
    variation that spells [occ], and after it the spans the linker returns
    for [post].  For the people linker the link is the one of the name. *)
Theorem embedded_occurrence_is_linked
        (ratio : str -> str -> Q) (env : Env) (fuel : nat) (pre occ post : str)
        (Htoken : truthy (NOTION_TOKEN env) = true)
        (Hpeople : forall n, In n (get_all_people_names env) -> n <> [])
        (Hprojects : forall n, In n (get_all_project_names env) -> n <> [])
        (Hfuel : length (pre ++ occ ++ post) <= fuel) :
  (forall n,
      truthy (PEOPLE_DATABASE_ID env) = true ->
      In n (get_all_people_names env) ->
      lower occ = lower n ->
      (forall u s, In u (get_all_people_names env) ->
                   search_ci u (pre ++ occ ++ post) = Some s -> length pre <= s) ->
      (forall u, In u (get_all_people_names env) ->
                 search_ci u (pre ++ occ ++ post) = Some (length pre) ->
                 length u <= length n) ->
      exists rest,
        create_rich_text_with_people_links ratio env fuel post = Some rest /\
        create_rich_text_with_people_links ratio env fuel (pre ++ occ ++ post)
        = Some ((match pre with [] => [] | _ :: _ => [plain pre] end)
                  ++ {| content := occ; link := get_person_link ratio env n |} :: rest)) /\
  (forall v,
      In v (all_variations (gather_entities env)) ->
      lower occ = lower (text v) ->
      (forall u s, In u (all_variations (gather_entities env)) ->
                   search_ci (text u) (pre ++ occ ++ post) = Some s -> length pre <= s) ->
      (forall u, In u (all_variations (gather_entities env)) ->
                 search_ci (text u) (pre ++ occ ++ post) = Some (length pre) ->
                 length (text u) <= length (text v)) ->
      exists v' rest,
        In v' (all_variations (gather_entities env)) /\
        lower (text v') = lower occ /\
        create_rich_text_with_entity_links ratio env fuel post = Some rest /\
        create_rich_text_with_entity_links ratio env fuel (pre ++ occ ++ post)
        = Some ((match pre with [] => [] | _ :: _ => [plain pre] end)
                  ++ {| content := occ; link := entity_link ratio env v' |} :: rest)).
Proof.
  split.
  - intros n Hdb Hn Hcase Hleft Hlong.
    assert (Hnames : get_all_people_names env <> []).
    { intros Habs. rewrite Habs in Hn. destruct Hn. }
    destruct (first_occurrence_is_emitted (fun u : str => u) (get_person_link ratio env)
                (get_all_people_names env) n pre occ post fuel
                Hpeople Hn Hcase Hleft Hlong Hfuel)
      as (n' & rest & Hn' & Hlow & Hpost & Hrun).
    exists rest. rewrite !people_links_run by assumption.
    split; [exact Hpost|]. rewrite Hrun.
    now rewrite (get_person_link_lower ratio env n' n) by congruence.
  - intros v Hv Hcase Hleft Hlong.
    assert (Hentities : gather_entities env <> []).
    { intros Habs. rewrite Habs in Hv. destruct Hv. }
    unfold all_variations in Hv, Hleft, Hlong.
    destruct (first_occurrence_is_emitted text (entity_link ratio env)
                (flat_map variations_of (gather_entities env)) v pre occ post fuel)
      as (v' & rest & Hv' & Hlow & Hpost & Hrun).
    + intros u Hu. apply (variation_nonempty env u Hpeople Hprojects).
      unfold all_variations. now apply sort_desc_in.
    + now apply sort_desc_in in Hv.
    + exact Hcase.
    + intros u s Hu. apply Hleft. now apply sort_desc_in.
    + intros u Hu. apply Hlong. now apply sort_desc_in.
    + exact Hfuel.
    + exists v', rest. rewrite !entity_links_run by assumption.
      unfold all_variations. split; [now apply sort_desc_in|].
      split; [exact Hlow|]. split; [exact Hpost|exact Hrun].
Qed.

Lemma embedded_occurrence_is_linked_witness :
  search_ci (py "Sam") (py "UnSAMpled") = Some 2 /\
  create_rich_text_with_people_links sequence_matcher_ratio
    (people_env [py "Sam"]) 9 (py "UnSAMpled") =
  Some [plain (py "Un");
        {| content := py "SAM"; link := Some (py "https://www.notion.so/0a1b") |};
        plain (py "pled")].
Proof.
  split; [reflexivity|].
  assert (Hp : forall n, In n (get_all_people_names (people_env [py "Sam"])) -> n <> []).
  { simpl. intros n [<-|[]]. discriminate. }
  assert (Hq : forall n, In n (get_all_project_names (people_env [py "Sam"])) -> n <> []).
  { simpl. intros n []. }
  assert (Hfuel : length (py "Un" ++ py "SAM" ++ py "pled") <= 9) by (simpl; lia).
  assert (Hleft : forall u s, In u (get_all_people_names (people_env [py "Sam"])) ->
                              search_ci u (py "Un" ++ py "SAM" ++ py "pled") = Some s ->
                              length (py "Un") <= s).
  { simpl. intros u s [<-|[]] Hs. vm_compute in Hs. injection Hs as <-. lia. }
  assert (Hlong : forall u, In u (get_all_people_names (people_env [py "Sam"])) ->
                            search_ci u (py "Un" ++ py "SAM" ++ py "pled")
                            = Some (length (py "Un")) ->
                            length u <= length (py "Sam")).
  { simpl. intros u [<-|[]] _. simpl. lia. }
  destruct (proj1 (embedded_occurrence_is_linked sequence_matcher_ratio
                     (people_env [py "Sam"]) 9 (py "Un") (py "SAM") (py "pled")
                     eq_refl Hp Hq Hfuel)
                  (py "Sam") eq_refl (or_introl eq_refl) eq_refl Hleft Hlong)
    as (rest & Hrest & Hrun).
  assert (E : rest = [plain (py "pled")])
    by (vm_compute in Hrest; injection Hrest as <-; reflexivity).
  rewrite E in Hrun. exact Hrun.
Defined.

(** C10, the claim as stated fails: with "Sam" and "Samantha" both listed,
    "Sam" occurs inside the text "Samantha" at offset 0, but the longer
    name is matched there and no span "Sam" is returned by either
    linker. *)
Lemma covered_occurrence_is_not_linked :
  search_ci (py "Sam") (py "Samantha") = Some 0 /\
  create_rich_text_with_people_links sequence_matcher_ratio
    (people_env [py "Sam"; py "Samantha"]) 8 (py "Samantha")
  = Some [{| content := py "Samantha"; link := Some (py "https://www.notion.so/0a1b") |}] /\
  create_rich_text_with_entity_links sequence_matcher_ratio
    (people_env [py "Sam"; py "Samantha"]) 8 (py "Samantha")
  = Some [{| content := py "Samantha"; link := Some (py "https://www.notion.so/0a1b") |}] /\
  forall fuel parts,
    create_rich_text_with_people_links sequence_matcher_ratio
      (people_env [py "Sam"; py "Samantha"]) fuel (py "Samantha") = Some parts \/
    create_rich_text_with_entity_links sequence_matcher_ratio
      (people_env [py "Sam"; py "Samantha"]) fuel (py "Samantha") = Some parts ->
    ~ exists part, In part parts /\ content part = py "Sam".
Proof.
  assert (Hpeople : create_rich_text_with_people_links sequence_matcher_ratio
                      (people_env [py "Sam"; py "Samantha"]) 8 (py "Samantha")
                    = Some [{| content := py "Samantha";
                               link := Some (py "https://www.notion.so/0a1b") |}])
    by reflexivity.
  assert (Hentity : create_rich_text_with_entity_links sequence_matcher_ratio
                      (people_env [py "Sam"; py "Samantha"]) 8 (py "Samantha")
                    = Some [{| content := py "Samantha";
                               link := Some (py "https://www.notion.so/0a1b") |}])
    by reflexivity.
  split; [reflexivity|]. split; [exact Hpeople|]. split; [exact Hentity|].
  intros fuel parts H (part & Hin & Hc).
  assert (E : parts = [{| content := py "Samantha";
                          link := Some (py "https://www.notion.so/0a1b") |}]).
  { destruct H as [H|H].
    - apply (proj1 (linkers_fuel _ _ fuel (Nat.max fuel 8) _ _ (Nat.le_max_l fuel 8))) in H.
      apply (proj1 (linkers_fuel _ _ 8 (Nat.max fuel 8) _ _ (Nat.le_max_r fuel 8)))
        in Hpeople.
      congruence.
    - apply (proj2 (linkers_fuel _ _ fuel (Nat.max fuel 8) _ _ (Nat.le_max_l fuel 8))) in H.
      apply (proj2 (linkers_fuel _ _ 8 (Nat.max fuel 8) _ _ (Nat.le_max_r fuel 8)))
        in Hentity.
      congruence. }
  subst parts. destruct Hin as [<-|[]]. discriminate.
Qed.

(** The same inside a word, with letters on both sides and another case:
    "sam" in "Unsampled". *)
Lemma occurrence_inside_unsampled :
  create_rich_text_with_people_links sequence_matcher_ratio
    (people_env [py "Sam"]) 9 (py "Unsampled") =
  Some [plain (py "Un");
        {| content := py "sam"; link := Some (py "https://www.notion.so/0a1b") |};
        plain (py "pled")].
Proof. reflexivity. Qed.

(** C7 (as amended).  In [create_rich_text_with_entity_links] a person
    entity has the two variations [name] and ["<name> project"], a project
    entity the three variations [name], ["<name> project"] and
    ["the <name> project"]; every entity comes from a listed name, none
    from the text.  [create_rich_text_with_people_links] matches people on
    their names only: its loop runs on the listed names, sorted, and
    nothing else, so every linked span it returns is, up to case, a listed
    name with the link of that name. *)
Theorem entity_variations (env : Env) (e : Entity) (He : In e (gather_entities env)) :
  (type e = person ->
   In (name e) (get_all_people_names env) /\
   variations e = [name e; name e ++ py " project"]) /\
  (type e = project ->
   In (name e) (get_all_project_names env) /\
   variations e = [name e; name e ++ py " project"; py "the " ++ name e ++ py " project"]) /\
  (forall ratio fuel s,
      truthy (NOTION_TOKEN env) = true -> truthy (PEOPLE_DATABASE_ID env) = true ->
      get_all_people_names env <> [] ->
      create_rich_text_with_people_links ratio env fuel s
      = link_loop (fun n : str => n) (get_person_link ratio env) fuel
                  (sort_desc (fun n : str => n) (get_all_people_names env)) s []) /\
  (forall n, In n (sort_desc (fun n : str => n) (get_all_people_names env)) <->
             In n (get_all_people_names env)) /\
  (forall ratio fuel s parts part,
      create_rich_text_with_people_links ratio env fuel s = Some parts ->
      In part parts -> link part <> None ->
      exists n, In n (get_all_people_names env) /\
                lower (content part) = lower n /\
                link part = get_person_link ratio env n).
Proof.
  split; [|split; [|split; [|split]]].
  - intros Ht. apply gather_entities_in in He as [(n & Hn & ->)|(n & Hn & ->)].
    + now split.
    + discriminate.
  - intros Ht. apply gather_entities_in in He as [(n & Hn & ->)|(n & Hn & ->)].
    + discriminate.
    + now split.
  - intros ratio fuel s Ht Hd Hn. now apply people_links_run.
  - intros n. apply sort_desc_in.
  - intros ratio fuel s parts part H Hin Hlinked.
    unfold create_rich_text_with_people_links in H.
    destruct (negb (truthy (NOTION_TOKEN env)) || negb (truthy (PEOPLE_DATABASE_ID env))).
    { injection H as <-. destruct Hin as [<-|[]]. now contradiction Hlinked. }
    destruct (get_all_people_names env) as [|n0 names] eqn:En.
    { injection H as <-. destruct Hin as [<-|[]]. now contradiction Hlinked. }
    apply link_loop_parts in H as (added & -> & Hall). simpl in Hin.
    rewrite Forall_forall in Hall.
    destruct (Hall _ Hin) as [[Hnone _]|(v & Hv & Hlow & Hlink)]; [contradiction|].
    exists v. apply sort_desc_in in Hv. now conjs.
Qed.

Lemma entity_variations_witness :
  In (person_entity (py "Sam")) (gather_entities (people_env [py "Sam"])) /\
  variations (person_entity (py "Sam")) = [py "Sam"; py "Sam project"] /\
  create_rich_text_with_people_links sequence_matcher_ratio
    (people_env [py "Sam"]) 17 (py "About Sam project")
  = Some [plain (py "About ");
          {| content := py "Sam"; link := Some (py "https://www.notion.so/0a1b") |};
          plain (py " project")].
Proof.
  assert (He : In (person_entity (py "Sam")) (gather_entities (people_env [py "Sam"])))
    by (left; reflexivity).
  split; [exact He|]. split.
  - exact (proj2 (proj1 (entity_variations (people_env [py "Sam"])
                                           (person_entity (py "Sam")) He) eq_refl)).
  - refine (eq_trans
              (proj1 (proj2 (proj2 (entity_variations (people_env [py "Sam"])
                                                      (person_entity (py "Sam")) He)))
                     sequence_matcher_ratio 17 (py "About Sam project")
                     eq_refl eq_refl _)
              eq_refl).
    discriminate.
Defined.

(** C7, the claim as stated fails: the entity linker gives the person "Sam"
    the extra surface form "Sam project", and links the whole of
    "Sam project" to that person. *)
Lemma person_has_project_variation :
  ~ (forall e, In e (gather_entities (people_env [py "Sam"])) ->
               type e = person -> variations e = [name e]) /\
  create_rich_text_with_entity_links sequence_matcher_ratio
    (people_env [py "Sam"]) 19 (py "About Sam project")
  = Some [plain (py "About ");
          {| content := py "Sam project"; link := Some (py "https://www.notion.so/0a1b") |}].
Proof.
  split; [|reflexivity].
  intros H. specialize (H (person_entity (py "Sam")) (or_introl eq_refl) eq_refl).
  discriminate.
Qed.

(** Where a returned part stands in the text: the parts before it, the
    part and the parts after it spell the text. *)
Lemma part_stands_in_text (parts : list rich_text) (part : rich_text) (s : str) :
  joined parts = s -> In part parts ->
  exists before after,
    parts = before ++ part :: after /\
    s = joined before ++ content part ++ joined after.
Proof.
  intros Hs Hin. apply in_split in Hin as (before & after & ->).
  exists before, after. split; [reflexivity|].
  rewrite <- Hs, joined_app. reflexivity.
Qed.

(** X7.  Case is preserved and nothing else is linked: every part with a
    link that [create_rich_text_with_people_links] returns is, up to case,
    a listed person name, copied from the text as written there (the
    parts before it, its content and the parts after it spell the text),
    and its link is the one [get_person_link] gives for that name;
    likewise every linked part of [create_rich_text_with_entity_links] is
    a variation of one of its entities, copied from the text, with that
    entity's link. *)
Theorem linked_parts_are_directory_names (ratio : str -> str -> Q) (env : Env)
        (fuel : nat) (s : str) (parts : list rich_text) (part : rich_text)
        (Hin : In part parts) (Hlinked : link part <> None) :
  (create_rich_text_with_people_links ratio env fuel s = Some parts ->
   (exists n, In n (get_all_people_names env) /\
              lower (content part) = lower n /\
              link part = get_person_link ratio env n) /\
   (exists before after,
       parts = before ++ part :: after /\
       s = joined before ++ content part ++ joined after)) /\
  (create_rich_text_with_entity_links ratio env fuel s = Some parts ->
   (exists e v, In e (gather_entities env) /\ In v (variations e) /\
                lower (content part) = lower v /\
                link part = entity_link ratio env {| text := v; entity := e |}) /\
   (exists before after,
       parts = before ++ part :: after /\
       s = joined before ++ content part ++ joined after)).
Proof.
  split; intros H.
  - split; [|exact (part_stands_in_text parts part s
                      (people_links_joined ratio env fuel s parts H) Hin)].
    unfold create_rich_text_with_people_links in H.
    destruct (negb (truthy (NOTION_TOKEN env)) || negb (truthy (PEOPLE_DATABASE_ID env))).
    { injection H as <-. destruct Hin as [<-|[]]. now contradiction Hlinked. }
    destruct (get_all_people_names env) as [|n0 names] eqn:En.
    { injection H as <-. destruct Hin as [<-|[]]. now contradiction Hlinked. }
    apply link_loop_parts in H as (added & -> & Hall). simpl in Hin.
    rewrite Forall_forall in Hall.
    destruct (Hall _ Hin) as [[Hnone _]|(v & Hv & Hlow & Hlink)]; [contradiction|].
    exists v. apply sort_desc_in in Hv. now conjs.
  - split; [|exact (part_stands_in_text parts part s
                      (entity_links_joined ratio env fuel s parts H) Hin)].
    unfold create_rich_text_with_entity_links in H.
    destruct (negb (truthy (NOTION_TOKEN env))).
    { injection H as <-. destruct Hin as [<-|[]]. now contradiction Hlinked. }
    destruct (gather_entities env) as [|e0 es] eqn:Ee.
    { injection H as <-. destruct Hin as [<-|[]]. now contradiction Hlinked. }
    apply link_loop_parts in H as (added & -> & Hall). simpl in Hin.
    rewrite Forall_forall in Hall.
    destruct (Hall _ Hin) as [[Hnone _]|(v & Hv & Hlow & Hlink)]; [contradiction|].
    apply all_variations_in in Hv as [He Hv].
    exists (entity v), (text v). conjs; auto.
Qed.

Lemma linked_parts_are_directory_names_witness :
  let part := {| content := py "SAM LEE"; link := Some (py "https://www.notion.so/0a1b") |} in
  let parts := [plain (py "Talked to "); part; plain (py " yesterday")] in
  In part parts /\ link part <> None /\
  create_rich_text_with_people_links sequence_matcher_ratio (people_env [py "sam lee"])
    27 (py "Talked to SAM LEE yesterday") = Some parts /\
  (exists n, In n (get_all_people_names (people_env [py "sam lee"])) /\
             lower (content part) = lower n /\
             link part = get_person_link sequence_matcher_ratio (people_env [py "sam lee"]) n) /\
  (exists before after,
      parts = before ++ part :: after /\
      py "Talked to SAM LEE yesterday" = joined before ++ content part ++ joined after).
Proof.
  intros part parts.
  assert (Hin : In part parts) by (right; left; reflexivity).
  assert (Hlinked : link part <> None) by discriminate.
  assert (Hrun : create_rich_text_with_people_links sequence_matcher_ratio
                   (people_env [py "sam lee"]) 27 (py "Talked to SAM LEE yesterday")
                 = Some parts) by reflexivity.
  split; [exact Hin|]. split; [exact Hlinked|]. split; [exact Hrun|].
  exact (proj1 (linked_parts_are_directory_names sequence_matcher_ratio
                  (people_env [py "sam lee"]) 27 (py "Talked to SAM LEE yesterday")
                  parts part Hin Hlinked) Hrun).
Defined.

(** X8.  No empty span: for a non-empty text and names that are all
    non-empty, no part returned by either linker has an empty content. *)
Theorem no_empty_part (ratio : str -> str -> Q) (env : Env) (fuel : nat) (s : str)
        (parts : list rich_text)
        (Hpeople : forall n, In n (get_all_people_names env) -> n <> [])
        (Hprojects : forall n, In n (get_all_project_names env) -> n <> [])
        (Htext : s <> [])
        (Hrun : create_rich_text_with_people_links ratio env fuel s = Some parts \/
                create_rich_text_with_entity_links ratio env fuel s = Some parts) :
  forall part, In part parts -> content part <> [].
Proof.
  intros part Hin.
  assert (Hcopy : forall v : str, v <> [] -> lower (content part) = lower v ->
                                  content part <> []).
  { intros v Hv Hlow Habs. apply lower_length in Hlow. rewrite Habs in Hlow.
    destruct v; [contradiction|discriminate]. }
  destruct Hrun as [H|H].
  - unfold create_rich_text_with_people_links in H.
    destruct (negb (truthy (NOTION_TOKEN env)) || negb (truthy (PEOPLE_DATABASE_ID env))).
    { injection H as <-. destruct Hin as [<-|[]]. exact Htext. }
    destruct (get_all_people_names env) as [|n0 names] eqn:En.
    { injection H as <-. destruct Hin as [<-|[]]. exact Htext. }
    apply link_loop_parts in H as (added & -> & Hall). simpl in Hin.
    rewrite Forall_forall in Hall.
    destruct (Hall _ Hin) as [[_ Hne]|(v & Hv & Hlow & _)]; [exact Hne|].
    apply sort_desc_in in Hv. exact (Hcopy v (Hpeople v Hv) Hlow).
  - unfold create_rich_text_with_entity_links in H.
    destruct (negb (truthy (NOTION_TOKEN env))).
    { injection H as <-. destruct Hin as [<-|[]]. exact Htext. }
    destruct (gather_entities env) as [|e0 es] eqn:Ee.
    { injection H as <-. destruct Hin as [<-|[]]. exact Htext. }
    apply link_loop_parts in H as (added & -> & Hall). simpl in Hin.
    rewrite Forall_forall in Hall.
    destruct (Hall _ Hin) as [[_ Hne]|(v & Hv & Hlow & _)]; [exact Hne|].
    rewrite <- Ee in Hv.
    exact (Hcopy (text v) (variation_nonempty env v Hpeople Hprojects Hv) Hlow).
Qed.

Lemma no_empty_part_witness :
  let env := people_env [py "Sam"] in
  let parts := [{| content := py "Sam"; link := Some (py "https://www.notion.so/0a1b") |};
                plain (py "antha")] in
  (forall n, In n (get_all_people_names env) -> n <> []) /\
  (forall n, In n (get_all_project_names env) -> n <> []) /\
  py "Samantha" <> [] /\
  create_rich_text_with_people_links sequence_matcher_ratio env 8 (py "Samantha") = Some parts /\
  forall part, In part parts -> content part <> [].
Proof.
  intros env parts.
  assert (Hp : forall n, In n (get_all_people_names env) -> n <> []).
  { simpl. intros n [<-|[]]. discriminate. }
  assert (Hq : forall n, In n (get_all_project_names env) -> n <> []).
  { simpl. intros n []. }
  assert (Ht : py "Samantha" <> []) by discriminate.
  assert (Hrun : create_rich_text_with_people_links sequence_matcher_ratio env 8
                   (py "Samantha") = Some parts) by reflexivity.
  split; [exact Hp|]. split; [exact Hq|]. split; [exact Ht|]. split; [exact Hrun|].
  exact (no_empty_part sequence_matcher_ratio env 8 (py "Samantha") parts
                       Hp Hq Ht (or_introl Hrun)).
Defined.

(** X9.  Nothing to link: a non-empty text in which no listed name occurs
    (for the entity linker, no variation of an entity) comes back as one
    plain part holding the whole text. *)
Theorem text_without_mention_is_plain (ratio : str -> str -> Q) (env : Env)
        (fuel : nat) (s : str) (Htext : s <> []) :
  ((forall n, In n (get_all_people_names env) -> search_ci n s = None) ->
   create_rich_text_with_people_links ratio env (S fuel) s = Some [plain s]) /\
  ((forall e v, In e (gather_entities env) -> In v (variations e) -> search_ci v s = None) ->
   create_rich_text_with_entity_links ratio env (S fuel) s = Some [plain s]).
Proof.
  split; intros Hnone.
  - unfold create_rich_text_with_people_links.
    destruct (negb (truthy (NOTION_TOKEN env)) || negb (truthy (PEOPLE_DATABASE_ID env)));
      [reflexivity|].
    destruct (get_all_people_names env) as [|n0 names] eqn:En; [reflexivity|].
    rewrite link_loop_no_match; [reflexivity|exact Htext|].
    intros v Hv. apply sort_desc_in in Hv. now apply Hnone.
  - unfold create_rich_text_with_entity_links.
    destruct (negb (truthy (NOTION_TOKEN env))); [reflexivity|].
    destruct (gather_entities env) as [|e0 es] eqn:Ee; [reflexivity|].
    cbv zeta. rewrite link_loop_no_match; [reflexivity|exact Htext|].
    intros v Hv. apply all_variations_in in Hv as [He Hv]. now apply (Hnone (entity v)).
Qed.

Lemma text_without_mention_is_plain_witness :
  py "Budget review" <> [] /\
  (forall n, In n (get_all_people_names (people_env [py "Sam"])) ->
             search_ci n (py "Budget review") = None) /\
  create_rich_text_with_people_links sequence_matcher_ratio (people_env [py "Sam"]) 1
    (py "Budget review") = Some [plain (py "Budget review")].
Proof.
  assert (Ht : py "Budget review" <> []) by discriminate.
  assert (Hn : forall n, In n (get_all_people_names (people_env [py "Sam"])) ->
                         search_ci n (py "Budget review") = None).
  { simpl. intros n [<-|[]]. reflexivity. }
  split; [exact Ht|]. split; [exact Hn|].
  exact (proj1 (text_without_mention_is_plain sequence_matcher_ratio
                  (people_env [py "Sam"]) 0 (py "Budget review") Ht) Hn).
Defined.

(** ** Chunks *)

Lemma firstn_add {A : Type} (a b : nat) (l : list A) :
  firstn (a + b) l = firstn a l ++ firstn b (skipn a l).
Proof.
  revert l. induction a as [|a IH]; intros l; [reflexivity|].
  destruct l as [|x l]; simpl.
  - now rewrite firstn_nil.
  - now rewrite IH.
Qed.

Lemma list_slice_step {A : Type} (l : list A) (i n : nat) :
  list_slice l i (i + n) = firstn n (skipn i l).
Proof. unfold list_slice. f_equal. lia. Qed.

(** The first [m] chunks make up the first [m * size] elements. *)
Lemma concat_slices {A : Type} (size : nat) (l : list A) (m : nat) :
  concat (map (fun i => list_slice l i (i + size)) (map (fun k => k * size) (seq 0 m)))
  = firstn (m * size) l.
Proof.
  induction m as [|m IH]; [reflexivity|].
  rewrite seq_S, !map_app, concat_app, IH. simpl.
  rewrite app_nil_r, list_slice_step.
  replace (size + m * size) with (m * size + size) by lia.
  now rewrite firstn_add.
Qed.

Lemma chunk_count_covers (len size : nat) :
  0 < size -> len <= (len + size - 1) / size * size.
Proof.
  intros Hs. pose proof (Nat.mul_succ_div_gt (len + size - 1) size ltac:(lia)). nia.
Qed.

Lemma chunk_count_tight (len size k : nat) :
  0 < size -> k < (len + size - 1) / size -> k * size < len.
Proof.
  intros Hs Hk. pose proof (Nat.Div0.mul_div_le (len + size - 1) size). nia.
Qed.

Lemma chunks_concat {A : Type} (size : nat) (l : list A) :
  0 < size -> concat (chunks size l) = l.
Proof.
  intros Hs. unfold chunks, range_step. rewrite concat_slices.
  apply firstn_all2. now apply chunk_count_covers.
Qed.

Lemma chunks_bounds {A : Type} (size : nat) (l : list A) :
  0 < size -> Forall (fun c => 0 < length c <= size) (chunks size l).
Proof.
  intros Hs. unfold chunks, range_step. rewrite map_map.
  apply Forall_forall. intros c Hc. apply in_map_iff in Hc as (k & <- & Hk).
  apply in_seq in Hk. rewrite list_slice_step, length_firstn, length_skipn.
  pose proof (chunk_count_tight (length l) size k Hs ltac:(lia)). lia.
Qed.

Lemma all_some_map {A B : Type} (f : A -> option B) (l : list A) (out : list B) :
  all_some (map f l) = Some out -> Forall2 (fun x y => f x = Some y) l out.
Proof.
  revert out. induction l as [|x l IH]; intros out H; simpl in H.
  - injection H as <-. constructor.
  - destruct (f x) as [y|] eqn:E; [|discriminate].
    destruct (all_some (map f l)) as [ys|]; [|discriminate].
    injection H as <-. constructor; [exact E|now apply IH].
Qed.

Lemma all_some_total {A B : Type} (f : A -> option B) (l : list A) :
  (forall x, In x l -> exists y, f x = Some y) -> exists out, all_some (map f l) = Some out.
Proof.
  induction l as [|x l IH]; intros H; simpl; [eauto|].
  destruct (H x (or_introl eq_refl)) as (y & ->).
  destruct IH as (ys & ->); [intros z Hz; apply H; now right|]. eauto.
Qed.

(** ** The blocks of a page *)

Lemma entity_links_returns (ratio : str -> str -> Q) (env : Env) (fuel : nat) (s : str) :
  (forall n, In n (get_all_people_names env) -> n <> []) ->
  (forall n, In n (get_all_project_names env) -> n <> []) ->
  length s <= fuel ->
  exists parts, create_rich_text_with_entity_links ratio env fuel s = Some parts.
Proof.
  intros Hp Hq Hfuel. unfold create_rich_text_with_entity_links.
  destruct (negb (truthy (NOTION_TOKEN env))); [eauto|].
  destruct (gather_entities env) as [|e es] eqn:E; [eauto|].
  apply link_loop_total; [|exact Hfuel].
  intros u Hu. rewrite <- E in Hu. now apply (variation_nonempty env).
Qed.

Lemma people_links_returns (ratio : str -> str -> Q) (env : Env) (fuel : nat) (s : str) :
  (forall n, In n (get_all_people_names env) -> n <> []) ->
  length s <= fuel ->
  exists parts, create_rich_text_with_people_links ratio env fuel s = Some parts.
Proof.
  intros Hp Hfuel. unfold create_rich_text_with_people_links.
  destruct (negb (truthy (NOTION_TOKEN env)) || negb (truthy (PEOPLE_DATABASE_ID env)));
    [eauto|].
  destruct (get_all_people_names env) as [|n names] eqn:E; [eauto|].
  apply link_loop_total; [|exact Hfuel].
  intros u Hu. apply sort_desc_in in Hu. now apply Hp.
Qed.

(** X10.  The summary is cut into pieces of at most 2000 characters, one
    paragraph each, under a "Summary" heading; whatever gets linked, the
    paragraphs read in order spell the summary exactly, and none is
    empty.  With names that are all non-empty a fuel of 2000 is enough
    whatever the length of the summary. *)
Theorem summary_paragraphs_spell_summary (ratio : str -> str -> Q) (env : Env)
        (fuel : nat) (text_ : str)
        (Hpeople : forall n, In n (get_all_people_names env) -> n <> [])
        (Hprojects : forall n, In n (get_all_project_names env) -> n <> [])
        (Htext : text_ <> [])
        (Hfuel : 2000 <= fuel) :
  exists paragraphs,
    summary_blocks ratio env fuel text_
    = Some (text_block heading_2 (py "Summary") :: paragraphs) /\
    concat (map (fun b => joined (rich_text_of b)) paragraphs) = text_ /\
    Forall (fun b => block_type_of b = paragraph /\
                     0 < length (joined (rich_text_of b)) <= 2000) paragraphs.
Proof.
  pose proof (chunks_bounds 2000 text_ ltac:(lia)) as Hbounds.
  rewrite Forall_forall in Hbounds.
  destruct (all_some_total
              (fun chunk =>
                 option_map (fun parts => {| block_type_of := paragraph;
                                             rich_text_of := parts |})
                            (create_rich_text_with_entity_links ratio env fuel chunk))
              (chunks 2000 text_)) as (paragraphs & Hps).
  { intros chunk Hc. specialize (Hbounds chunk Hc).
    destruct (entity_links_returns ratio env fuel chunk Hpeople Hprojects) as (parts & ->);
      [lia|]. simpl. eauto. }
  exists paragraphs. split.
  - unfold summary_blocks, summary_paragraphs. rewrite Hps.
    destruct text_; [contradiction|reflexivity].
  - apply all_some_map in Hps.
    assert (Hview : map (fun b => joined (rich_text_of b)) paragraphs = chunks 2000 text_
                    /\ Forall (fun b => block_type_of b = paragraph) paragraphs).
    { clear Hbounds. induction Hps as [|chunk b chunks0 bs Hb _ IH]; [now split|].
      destruct (create_rich_text_with_entity_links ratio env fuel chunk) as [parts|] eqn:E;
        [|discriminate].
      injection Hb as <-. apply entity_links_joined in E.
      destruct IH as [IH1 IH2]. split.
      - simpl. now rewrite E, IH1.
      - constructor; [reflexivity|exact IH2]. }
    destruct Hview as [Hview Hkind]. split.
    + rewrite Hview. apply chunks_concat. lia.
    + apply Forall_forall. intros b Hb. split.
      * rewrite Forall_forall in Hkind. now apply Hkind.
      * apply Hbounds. rewrite <- Hview.
        now apply (in_map (fun b0 => joined (rich_text_of b0))).
Qed.

Lemma summary_paragraphs_spell_summary_witness :
  let env := people_env [py "Sam"] in
  (forall n, In n (get_all_people_names env) -> n <> []) /\
  (forall n, In n (get_all_project_names env) -> n <> []) /\
  py "Sam met Bob" <> [] /\
  2000 <= 2000 /\
  exists paragraphs,
    summary_blocks sequence_matcher_ratio env 2000 (py "Sam met Bob")
    = Some (text_block heading_2 (py "Summary") :: paragraphs) /\
    concat (map (fun b => joined (rich_text_of b)) paragraphs) = py "Sam met Bob" /\
    Forall (fun b => block_type_of b = paragraph /\
                     0 < length (joined (rich_text_of b)) <= 2000) paragraphs.
Proof.
  intros env.
  assert (Hp : forall n, In n (get_all_people_names env) -> n <> []).
  { simpl. intros n [<-|[]]. discriminate. }
  assert (Hq : forall n, In n (get_all_project_names env) -> n <> []).
  { simpl. intros n []. }
  assert (Ht : py "Sam met Bob" <> []) by discriminate.
  assert (Hf : 2000 <= 2000) by lia.
  split; [exact Hp|]. split; [exact Hq|]. split; [exact Ht|]. split; [exact Hf|].
  exact (summary_paragraphs_spell_summary sequence_matcher_ratio env 2000
           (py "Sam met Bob") Hp Hq Ht Hf).
Defined.

Lemma joined_cons (part : rich_text) (parts : list rich_text) :
  joined (part :: parts) = content part ++ joined parts.
Proof. reflexivity. Qed.

Lemma attendee_parts_joined (ratio : str -> str -> Q) (env : Env) (who : list str) (i : nat) :
  joined (attendee_parts ratio env i who)
  = match who with
    | [] => []
    | _ => (if 0 <? i then py ", " else []) ++ join (py ", ") who
    end.
Proof.
  revert i. induction who as [|a who IH]; intros i; [reflexivity|].
  cbn [attendee_parts]. rewrite !joined_app, IH.
  destruct who as [|b who].
  - destruct (0 <? i); unfold joined; simpl; now rewrite ?app_nil_r.
  - replace (0 <? S i) with true by reflexivity.
    destruct (0 <? i); unfold joined;
      cbn [map concat content plain attendee_part join app];
      now rewrite ?app_nil_r.
Qed.

Lemma attendee_blocks_text (ratio : str -> str -> Q) (env : Env) (who : list str) :
  map block_text (attendee_blocks ratio env who)
  = match who with
    | [] => []
    | _ => [(paragraph, py "**Attendees:** " ++ join (py ", ") who)]
    end.
Proof.
  destruct who as [|a who]; [reflexivity|].
  unfold attendee_blocks, block_text. cbn [map block_type_of rich_text_of].
  rewrite joined_cons, attendee_parts_joined. reflexivity.
Qed.

Lemma summary_blocks_text (ratio : str -> str -> Q) (env : Env) (fuel : nat) (text_ : str)
      (bs : list block) :
  summary_blocks ratio env fuel text_ = Some bs ->
  map block_text bs
  = match text_ with
    | [] => []
    | _ => (heading_2, py "Summary") :: map (pair paragraph) (chunks 2000 text_)
    end.
Proof.
  unfold summary_blocks. destruct text_ as [|c t].
  - intros H. now injection H as <-.
  - remember (c :: t) as text_ eqn:Et. unfold summary_paragraphs.
    destruct (all_some _) as [ps|] eqn:E; [|discriminate].
    intros H. injection H as <-. cbn [map]. f_equal.
    apply all_some_map in E.
    induction E as [|chunk b chunks0 ps0 Hb _ IH]; [reflexivity|].
    destruct (create_rich_text_with_entity_links ratio env fuel chunk) as [parts|] eqn:El;
      [|discriminate].
    injection Hb as <-. apply entity_links_joined in El.
    cbn [map]. rewrite IH. unfold block_text at 1. cbn [block_type_of rich_text_of].
    now rewrite El.
Qed.

Lemma action_item_parts_joined (ratio : str -> str -> Q) (env : Env) (fuel : nat)
      (item : action_item) (parts : list rich_text) :
  action_item_rich_text ratio env fuel item = Some parts ->
  joined parts = task item ++ action_item_suffix item.
Proof.
  unfold action_item_rich_text, action_item_suffix.
  destruct (create_rich_text_with_people_links ratio env fuel (task item))
    as [task_parts|] eqn:Et; [|discriminate].
  apply people_links_joined in Et.
  destruct (assignee item) as [|a who] eqn:Ea.
  - intros H. injection H as <-. rewrite !joined_app, Et. cbn [joined map concat app].
    destruct (due_date item); [reflexivity|]. unfold joined. simpl. now rewrite app_nil_r.
  - destruct (create_rich_text_with_people_links ratio env fuel (a :: who))
      as [who_parts|] eqn:Ew; [|discriminate].
    apply people_links_joined in Ew. cbn [option_map].
    intros H. injection H as <-.
    change ([plain (py " (Assigned to: ")] ++ who_parts ++ [plain (py ")")])
      with (plain (py " (Assigned to: ") :: who_parts ++ [plain (py ")")]).
    rewrite joined_app, joined_cons, !joined_app, Et, Ew, joined_plain. f_equal.
    cbn [content plain].
    destruct (due_date item); [reflexivity|]. now rewrite joined_plain.
Qed.

Lemma action_blocks_text (ratio : str -> str -> Q) (env : Env) (fuel : nat)
      (items : list action_item) (bs : list block) :
  action_blocks ratio env fuel items = Some bs ->
  map block_text bs
  = match items with
    | [] => []
    | _ => (heading_2, py "Action Items")
           :: map (fun item => (bulleted_list_item, task item ++ action_item_suffix item)) items
    end.
Proof.
  unfold action_blocks. destruct items as [|i0 items0].
  - intros H. now injection H as <-.
  - remember (i0 :: items0) as items eqn:Ei.
    destruct (all_some _) as [ps|] eqn:E; [|discriminate].
    intros H. injection H as <-. cbn [map]. f_equal.
    apply all_some_map in E. clear Ei.
    induction E as [|item b items1 ps0 Hb _ IH]; [reflexivity|].
    destruct (action_item_rich_text ratio env fuel item) as [parts|] eqn:El; [|discriminate].
    injection Hb as <-. apply action_item_parts_joined in El.
    cbn [map]. rewrite IH. unfold block_text at 1. cbn [block_type_of rich_text_of].
    now rewrite El.
Qed.

(** X11.  Linking never changes what the page says: the blocks built from
    the same data against two directories (and metrics, and fuels) have
    the same types and the same texts, block by block; only the links and
    the cutting of a text into parts can differ. *)
Theorem page_text_does_not_depend_on_directory
        (ratio ratio' : str -> str -> Q) (env env' : Env) (fuel fuel' : nat)
        (data : extracted_data) (bs bs' : list block)
        (Hbuilt : build_blocks ratio env fuel data = Some bs)
        (Hbuilt' : build_blocks ratio' env' fuel' data = Some bs') :
  map block_text bs = map block_text bs'.
Proof.
  unfold build_blocks in *.
  destruct (summary_blocks ratio env fuel (summary data)) as [sp|] eqn:Es; [|discriminate].
  destruct (action_blocks ratio env fuel (action_items data)) as [ap|] eqn:Ea; [|discriminate].
  destruct (summary_blocks ratio' env' fuel' (summary data)) as [sp'|] eqn:Es';
    [|discriminate].
  destruct (action_blocks ratio' env' fuel' (action_items data)) as [ap'|] eqn:Ea';
    [|discriminate].
  injection Hbuilt as <-. injection Hbuilt' as <-.
  cbn [map]. do 2 f_equal.
  rewrite !map_app, !attendee_blocks_text.
  rewrite (summary_blocks_text _ _ _ _ _ Es), (summary_blocks_text _ _ _ _ _ Es').
  rewrite (action_blocks_text _ _ _ _ _ Ea), (action_blocks_text _ _ _ _ _ Ea').
  reflexivity.
Qed.

Lemma page_text_does_not_depend_on_directory_witness :
  exists bs bs',
    build_blocks sequence_matcher_ratio (people_env [py "Sam"]) 20 sample_data = Some bs /\
    build_blocks sequence_matcher_ratio (people_env []) 0 sample_data = Some bs' /\
    bs <> bs' /\
    map block_text bs = map block_text bs'.
Proof.
  destruct (build_blocks sequence_matcher_ratio (people_env [py "Sam"]) 20 sample_data)
    as [bs|] eqn:E; [|vm_compute in E; discriminate].
  destruct (build_blocks sequence_matcher_ratio (people_env []) 0 sample_data)
    as [bs'|] eqn:E'; [|vm_compute in E'; discriminate].
  exists bs, bs'. split; [reflexivity|]. split; [reflexivity|]. split.
  - vm_compute in E, E'. injection E as <-. injection E' as <-. discriminate.
  - exact (page_text_does_not_depend_on_directory _ _ _ _ _ _ _ _ _ E E').
Defined.

(** X12.  The bulleted items under "Action Items" carry the text that
    [_format_action_items] of transcript_processor.py gives for the same
    items: each item's parts spell its line without the bullet, so the
    lines rebuilt with bullets and joined by newlines are that formatter's
    output. *)
Theorem action_blocks_match_formatter (ratio : str -> str -> Q) (env : Env) (fuel : nat)
        (items : list action_item) (bs : list block)
        (Hbuilt : action_blocks ratio env fuel items = Some bs)
        (Hsome : items <> []) :
  exists bullets,
    bs = text_block heading_2 (py "Action Items") :: bullets /\
    Forall (fun b => block_type_of b = bulleted_list_item) bullets /\
    join nl (map (fun b => bullet ++ py " " ++ joined (rich_text_of b)) bullets)
    = _format_action_items items.
Proof.
  pose proof (action_blocks_text _ _ _ _ _ Hbuilt) as Htext.
  unfold action_blocks in Hbuilt. destruct items as [|i0 items0]; [contradiction|].
  remember (i0 :: items0) as items eqn:Ei.
  destruct (all_some _) as [ps|] eqn:E; [|discriminate].
  injection Hbuilt as <-. exists ps. split; [reflexivity|].
  cbn [map] in Htext. injection Htext as Htext.
  assert (Hitems : _format_action_items items = join nl (map action_item_text items))
    by (subst items; reflexivity).
  rewrite Hitems. clear Hitems Ei E Hsome.
  revert ps Htext. induction items as [|item items IH]; intros [|b ps] Htext;
    try discriminate.
  - split; [constructor|reflexivity].
  - cbn [map] in Htext. injection Htext as Hkind Hb Hrest.
    destruct (IH ps Hrest) as [IHk IHj]. split; [now constructor|].
    cbn [map]. unfold action_item_text at 1. rewrite <- Hb.
    destruct items as [|item2 items]; destruct ps as [|b2 ps]; try discriminate.
    + reflexivity.
    + cbn [map join] in *. now rewrite IHj.
Qed.

Lemma action_blocks_match_formatter_witness :
  exists bs,
    action_blocks sequence_matcher_ratio (people_env [py "Sam"]) 20
                  (action_items sample_data) = Some bs /\
    action_items sample_data <> [] /\
    exists bullets,
      bs = text_block heading_2 (py "Action Items") :: bullets /\
      Forall (fun b => block_type_of b = bulleted_list_item) bullets /\
      join nl (map (fun b => bullet ++ py " " ++ joined (rich_text_of b)) bullets)
      = _format_action_items (action_items sample_data).
Proof.
  destruct (action_blocks sequence_matcher_ratio (people_env [py "Sam"]) 20
                          (action_items sample_data)) as [bs|] eqn:E;
    [|vm_compute in E; discriminate].
  assert (Hsome : action_items sample_data <> []) by discriminate.
  exists bs. split; [reflexivity|]. split; [exact Hsome|].
  exact (action_blocks_match_formatter _ _ _ _ _ E Hsome).
Defined.

(** ** Sending the blocks *)






(** ** The matcher *)

Lemma eat_inv (ok : ascii -> bool) (st st' : mstate) :
  In st' (eat ok st) ->
  exists c, rest st = c :: rest st' /\ ok c = true /\
            pos st' = S (pos st) /\ group1 st' = group1 st /\ before st' = Some c.
Proof.
  unfold eat, advance. destruct (rest st) as [|c t]; [intros []|].
  destruct (ok c) eqn:E; [|intros []].
  intros [<-|[]]. exists c. simpl. auto.
Qed.

Lemma star_consumes (step : mstate -> list mstate) :
  (forall st st', In st' (step st) -> exists c, rest st = c ++ rest st') ->
  forall fuel st st', In st' (star step fuel st) -> exists c, rest st = c ++ rest st'.
Proof.
  intros Hstep. induction fuel as [|fuel IH]; intros st st' H.
  - destruct H as [<-|[]]. now exists [].
  - cbn [star] in H. apply in_app_or in H as [H|[<-|[]]]; [|now exists []].
    apply in_flat_map in H as (st1 & H1 & H).
    destruct (pos st <? pos st1); [|destruct H].
    destruct (Hstep _ _ H1) as (c1 & E1). destruct (IH _ _ H) as (c2 & E2).
    exists (c1 ++ c2). now rewrite E1, E2, app_assoc.
Qed.

(** A match consumes a prefix of what is left of the input. *)
Lemma rmatch_consumes (fl : flags) (r : regex) :
  forall st st', In st' (rmatch fl r st) -> exists c, rest st = c ++ rest st'.
Proof.
  induction r as [x|neg items| | | |r1 IH1 r2 IH2|r1 IH1 r2 IH2|r1 IH1|r1 IH1|r1 IH1|r1 IH1];
    intros st st' H; cbn [rmatch] in H.
  - apply eat_inv in H as (c & E & _). exists [c]. now rewrite E.
  - apply eat_inv in H as (c & E & _). exists [c]. now rewrite E.
  - apply eat_inv in H as (c & E & _). exists [c]. now rewrite E.
  - destruct (at_bol fl st); [|destruct H]. destruct H as [<-|[]]. now exists [].
  - destruct (at_eol fl st); [|destruct H]. destruct H as [<-|[]]. now exists [].
  - apply in_flat_map in H as (st1 & H1 & H2).
    destruct (IH1 _ _ H1) as (c1 & E1). destruct (IH2 _ _ H2) as (c2 & E2).
    exists (c1 ++ c2). now rewrite E1, E2, app_assoc.
  - apply in_app_or in H as [H|H]; [now apply IH1|now apply IH2].
  - apply in_app_or in H as [H|[<-|[]]]; [now apply IH1|now exists []].
  - now apply (star_consumes _ IH1) in H.
  - apply in_flat_map in H as (st1 & H1 & H2).
    destruct (IH1 _ _ H1) as (c1 & E1).
    destruct (star_consumes _ IH1 _ _ _ H2) as (c2 & E2).
    exists (c1 ++ c2). now rewrite E1, E2, app_assoc.
  - apply in_map_iff in H as (st1 & <- & H1). simpl. now apply IH1.
Qed.

Lemma star_eat_consumes (ok : ascii -> bool) :
  forall fuel st st',
    In st' (star (eat ok) fuel st) ->
    exists c, rest st = c ++ rest st' /\ Forall (fun x => ok x = true) c.
Proof.
  induction fuel as [|fuel IH]; intros st st' H.
  - destruct H as [<-|[]]. now exists [].
  - cbn [star] in H. apply in_app_or in H as [H|[<-|[]]]; [|now exists []].
    apply in_flat_map in H as (st1 & H1 & H).
    destruct (pos st <? pos st1); [|destruct H].
    apply eat_inv in H1 as (c & E & Hc & _). destruct (IH _ _ H) as (c2 & E2 & Hall).
    exists (c :: c2). split; [now rewrite E, E2|now constructor].
Qed.

Lemma star_eat_reaches_end (ok : ascii -> bool) :
  forall fuel st,
    Forall (fun x => ok x = true) (rest st) -> length (rest st) <= fuel ->
    exists st', In st' (star (eat ok) fuel st) /\ rest st' = [].
Proof.
  induction fuel as [|fuel IH]; intros st Hall Hlen.
  - exists st. split; [now left|]. destruct (rest st); [reflexivity|simpl in Hlen; lia].
  - destruct (rest st) as [|c t] eqn:E.
    + exists st. split; [|exact E]. cbn [star]. apply in_or_app. right. now left.
    + inversion Hall as [|? ? Hc Ht]; subst.
      set (st1 := {| before := Some c; rest := t; pos := S (pos st); group1 := group1 st |}).
      destruct (IH st1 Ht) as (st' & Hin & Hend); [simpl in *; lia|].
      exists st'. split; [|exact Hend]. cbn [star]. apply in_or_app. left.
      apply in_flat_map. exists st1. split.
      * unfold eat, advance. rewrite E, Hc. now left.
      * replace (pos st <? pos st1) with true; [exact Hin|].
        symmetry. apply Nat.ltb_lt. simpl. lia.
Qed.

Lemma hd_error_some_iff {A : Type} (l : list A) :
  (exists x, hd_error l = Some x) <-> l <> [].
Proof.
  destruct l as [|a l]; simpl.
  - split; [intros (x & H); discriminate|intros H; contradiction].
  - split; [intros _; discriminate|intros _; eauto].
Qed.

Lemma name_class_is_name_char (c : ascii) :
  xorb false
       (in_items no_flags [Range "A" "Z"; Range "a" "z"; SpaceItem; One "-"; One "'"] c)
  = is_name_char c.
Proof.
  destruct c as [[] [] [] [] [] [] [] []]; vm_compute; reflexivity.
Qed.

(** [re.match(r"^[A-Za-z\s\-']+$", n)] succeeds exactly on the non-empty
    strings made of name characters. *)
Lemma name_chars_pattern_matches (n : str) :
  (exists m, re_match no_flags name_chars_pattern n = Some m) <->
  n <> [] /\ Forall (fun c => is_name_char c = true) n.
Proof.
  unfold re_match. rewrite hd_error_some_iff. unfold name_chars_pattern.
  set (ok := fun c => xorb false
                (in_items no_flags
                   [Range "A" "Z"; Range "a" "z"; SpaceItem; One "-"; One "'"] c)).
  assert (Hok : forall c, ok c = is_name_char c) by (intros c; apply name_class_is_name_char).
  split.
  - intros Hne.
    destruct (rmatch no_flags _ (start_of n)) as [|m l] eqn:E; [contradiction|].
    assert (Hm : In m (rmatch no_flags
                         (Cat Bol (Cat (Plus (Cls false
                            [Range "A" "Z"; Range "a" "z"; SpaceItem; One "-"; One "'"])) Eol))
                         (start_of n))) by (rewrite E; now left).
    cbn [rmatch] in Hm. apply in_flat_map in Hm as (st0 & H0 & Hm).
    cbn [at_bol start_of before] in H0. destruct H0 as [<-|[]].
    apply in_flat_map in Hm as (st2 & H2 & Hm).
    apply in_flat_map in H2 as (st1 & H1 & H2).
    apply eat_inv in H1 as (c & E1 & Hc & _).
    apply star_eat_consumes in H2 as (cs & E2 & Hcs).
    cbn [start_of rest] in E1.
    destruct (at_eol no_flags st2) eqn:Eol; [|destruct Hm].
    unfold at_eol in Eol. cbn [MULTILINE no_flags orb] in Eol.
    assert (Hall : Forall (fun x => ok x = true) n).
    { rewrite E1, E2. constructor; [exact Hc|]. apply Forall_app. split; [exact Hcs|].
      destruct (rest st2) as [|x t]; [constructor|].
      apply andb_true_iff in Eol as [Ex Et]. destruct t; [|discriminate].
      apply Ascii.eqb_eq in Ex. subst x. constructor; [reflexivity|constructor]. }
    split; [rewrite E1; discriminate|].
    eapply Forall_impl; [|exact Hall]. intros a Ha. now rewrite <- Hok.
  - intros [Hne Hall]. destruct n as [|c t]; [contradiction|].
    inversion Hall as [|? ? Hc Ht]; subst.
    set (st1 := {| before := Some c; rest := t; pos := 1; group1 := None |}).
    destruct (star_eat_reaches_end ok (length (rest st1)) st1) as (st2 & Hin & Hend).
    { simpl. eapply Forall_impl; [|exact Ht]. intros a Ha. now rewrite Hok. }
    { lia. }
    intros Habs.
    assert (Hm : In st2 (rmatch no_flags
                           (Cat Bol (Cat (Plus (Cls false
                              [Range "A" "Z"; Range "a" "z"; SpaceItem; One "-"; One "'"])) Eol))
                           (start_of (c :: t)))).
    { cbn [rmatch]. apply in_flat_map. exists (start_of (c :: t)). split; [now left|].
      apply in_flat_map. exists st2. split.
      - apply in_flat_map. exists st1. split; [|exact Hin].
        unfold eat, advance. cbn [start_of rest]. fold (ok c). rewrite Hok, Hc. now left.
      - unfold at_eol. rewrite Hend. now left. }
    rewrite Habs in Hm. destruct Hm.
Qed.

(** ** The name filter and the extractor *)

Lemma str_eqb_eq (a b : str) : str_eqb a b = true <-> a = b.
Proof. unfold str_eqb. destruct (list_eq_dec ascii_dec a b); split; congruence. Qed.

Lemma existsb_str_in (n : str) (l : list str) : existsb (str_eqb n) l = true <-> In n l.
Proof.
  rewrite existsb_exists. split.
  - intros (x & Hx & E). apply str_eqb_eq in E. now subst.
  - intros H. exists n. split; [exact H|]. now apply str_eqb_eq.
Qed.

(** X14.  What [_is_likely_person_name] accepts: exactly the strings of 2
    to 50 characters that start with an upper-case letter, are not one of
    the listed non-names, and are made only of letters, white space,
    hyphens and apostrophes. *)
Theorem likely_person_name_iff (n : str) :
  _is_likely_person_name n = true <->
  2 <= length n <= 50 /\
  (exists c t, n = c :: t /\ is_upper c = true) /\
  ~ In n non_names /\
  Forall (fun c => is_name_char c = true) n.
Proof.
  unfold _is_likely_person_name.
  destruct ((length n <? 2) || (50 <? length n)) eqn:Elen.
  { split; [discriminate|]. intros ([H2 H50] & _). exfalso.
    apply orb_true_iff in Elen as [E|E]; apply Nat.ltb_lt in E; lia. }
  apply orb_false_iff in Elen as [E2 E50].
  apply Nat.ltb_ge in E2. apply Nat.ltb_ge in E50.
  destruct n as [|c t]; [simpl in E2; lia|].
  destruct (is_upper c) eqn:Eup; cbn [negb].
  2: { split; [discriminate|]. intros (_ & (c' & t' & E & Hc) & _).
       injection E as -> ->. congruence. }
  destruct (existsb (str_eqb (c :: t)) non_names) eqn:Estop.
  { split; [discriminate|]. intros (_ & _ & Hnot & _). exfalso.
    apply Hnot. now apply existsb_str_in. }
  assert (Hnot : ~ In (c :: t) non_names).
  { intros Hin. apply existsb_str_in in Hin. congruence. }
  destruct (re_match no_flags name_chars_pattern (c :: t)) as [m|] eqn:Em.
  - split; [|reflexivity]. intros _.
    destruct (proj1 (name_chars_pattern_matches (c :: t)) (ex_intro _ m Em)) as [_ Hall].
    conjs; eauto.
  - split; [discriminate|]. intros (_ & _ & _ & Hall). exfalso.
    destruct (proj2 (name_chars_pattern_matches (c :: t))) as (m & Hm);
      [split; [discriminate|exact Hall]|]. congruence.
Qed.

Lemma set_add_in (x y : str) (s : list str) : In y (set_add x s) <-> y = x \/ In y s.
Proof.
  unfold set_add. destruct (existsb (str_eqb x) s) eqn:E.
  - apply existsb_str_in in E. split; [now right|intros [->|H]; assumption].
  - rewrite in_app_iff. simpl. split; [intros [H|[<-|[]]]; auto|intros [->|H]; auto].
Qed.

Lemma set_add_nodup (x : str) (s : list str) : NoDup s -> NoDup (set_add x s).
Proof.
  intros Hs. unfold set_add. destruct (existsb (str_eqb x) s) eqn:E; [exact Hs|].
  assert (Hnot : ~ In x s) by (intros H; apply existsb_str_in in H; congruence).
  apply NoDup_rev in Hs. rewrite <- (rev_involutive (s ++ [x])), rev_app_distr.
  apply NoDup_rev. simpl. constructor; [now rewrite <- in_rev|exact Hs].
Qed.

Lemma fold_left_keeps {A : Type} (P : list str -> Prop) (f : list str -> A -> list str)
      (l : list A) (acc : list str) :
  (forall acc0 x, P acc0 -> P (f acc0 x)) -> P acc -> P (fold_left f l acc).
Proof.
  intros Hf. revert acc. induction l as [|x l IH]; intros acc Hacc; [exact Hacc|].
  simpl. apply IH. now apply Hf.
Qed.

(** X15.  The candidates returned by [extract_person_names] are distinct,
    and each of them passes [_is_likely_person_name]: no listed non-name
    (weekday, month, "Team", "Meeting", ...) is ever returned, whatever the
    text. *)
Theorem extracted_names_are_likely_names (s : str) :
  NoDup (extract_person_names s) /\
  forall n, In n (extract_person_names s) ->
            _is_likely_person_name n = true /\ ~ In n non_names.
Proof.
  set (P := fun names : list str =>
              NoDup names /\ forall n, In n names -> _is_likely_person_name n = true).
  assert (Hadd : forall names n, P names -> _is_likely_person_name n = true ->
                                 P (set_add n names)).
  { intros names n [Hd Hall] Hn. split; [now apply set_add_nodup|].
    intros y Hy. apply set_add_in in Hy as [->|Hy]; [exact Hn|now apply Hall]. }
  assert (HP : P (extract_person_names s)).
  { unfold extract_person_names.
    apply fold_left_keeps.
    - intros acc pattern Hacc. unfold add_pattern. apply fold_left_keeps; [|exact Hacc].
      intros acc1 m Hacc1. unfold add_match. apply fold_left_keeps; [|exact Hacc1].
      intros acc2 n0 Hacc2. unfold add_listed.
      destruct (_is_likely_person_name (strip n0)) eqn:E; [|exact Hacc2].
      destruct (word_count (strip n0) false <=? 3); [|exact Hacc2].
      now apply Hadd.
    - apply fold_left_keeps; [|split; [constructor|intros n []]].
      intros acc line Hacc. unfold add_speaker.
      destruct (re_match no_flags speaker_pattern (strip line)) as [m|]; [|exact Hacc].
      destruct (_is_likely_person_name (strip (group_1 m))) eqn:E; [|exact Hacc].
      now apply Hadd. }
  destruct HP as [Hd Hall]. split; [exact Hd|].
  intros n Hn. specialize (Hall n Hn). split; [exact Hall|].
  now apply likely_person_name_iff in Hall.
Qed.

Lemma likely_person_name_iff_witness :
  _is_likely_person_name (py "Mary-Ann O'Neil") = true /\
  2 <= length (py "Mary-Ann O'Neil") <= 50.
Proof.
  assert (H : _is_likely_person_name (py "Mary-Ann O'Neil") = true) by reflexivity.
  split; [exact H|].
  exact (proj1 (proj1 (likely_person_name_iff (py "Mary-Ann O'Neil")) H)).
Defined.

Lemma extracted_names_are_likely_names_witness :
  let s := py "Meeting with Gaia Team. Attendees: Aaron, Darren, Susanna" in
  In (py "Aaron") (extract_person_names s) /\
  _is_likely_person_name (py "Aaron") = true /\ ~ In (py "Aaron") non_names.
Proof.
  intros s.
  assert (Hin : In (py "Aaron") (extract_person_names s)) by (vm_compute; auto).
  split; [exact Hin|].
  exact (proj2 (extracted_names_are_likely_names s) (py "Aaron") Hin).
Defined.

Lemma colon_matches_colon (fl : flags) (c : ascii) :
  chr_matches fl ":" c = true -> c = ":"%char.
Proof.
  destruct fl as [[] m]; destruct c as [[] [] [] [] [] [] [] []];
    vm_compute; intros H; try reflexivity; discriminate.
Qed.

Lemma chr_colon_needs_colon (fl : flags) (st st' : mstate) :
  In st' (rmatch fl (Chr ":") st) -> In ":"%char (rest st).
Proof.
  cbn [rmatch]. intros H. apply eat_inv in H as (c & E & Hc & _).
  apply colon_matches_colon in Hc. subst c. rewrite E. now left.
Qed.

(** Both patterns of the extractor need a colon in what they match. *)
Lemma extractor_patterns_need_colon (fl : flags) (pattern : regex) (st st' : mstate) :
  pattern = speaker_pattern \/ pattern = attendees_pattern ->
  In st' (rmatch fl pattern st) -> In ":"%char (rest st).
Proof.
  intros [-> | ->] H.
  - unfold speaker_pattern in H. cbn [rmatch] in H.
    apply in_flat_map in H as (st0 & H0 & H).
    destruct (at_bol fl st); [|destruct H0]. destruct H0 as [<-|[]].
    apply in_flat_map in H as (st1 & H1 & H).
    apply in_flat_map in H as (st2 & H2 & _).
    apply in_map_iff in H1 as (st1' & <- & H1). cbn [rest] in H2.
    apply (rmatch_consumes fl (Cat upper_then_lowers
                                   (Opt (Cat (Plus Space) upper_then_lowers)))) in H1
      as (c & E).
    rewrite E. apply in_or_app. right.
    apply (chr_colon_needs_colon fl
             {| before := before st1'; rest := rest st1'; pos := pos st1';
                group1 := Some (firstn (pos st1' - pos st) (rest st)) |} st2).
    cbn [rmatch]. exact H2.
  - unfold attendees_pattern in H.
    change (rmatch fl (Cat ?a (Cat (Chr ":") ?b)) st)
      with (flat_map (fun s1 => flat_map (rmatch fl b) (rmatch fl (Chr ":") s1))
                     (rmatch fl a st)) in H.
    apply in_flat_map in H as (st1 & H1 & H).
    apply in_flat_map in H as (st2 & H2 & _).
    apply rmatch_consumes in H1 as (c & E). rewrite E. apply in_or_app. right.
    now apply (chr_colon_needs_colon fl st1 st2).
Qed.

Lemma finditer_from_no_colon (fl : flags) (pattern : regex) :
  pattern = speaker_pattern \/ pattern = attendees_pattern ->
  forall fuel st, ~ In ":"%char (rest st) -> finditer_from fuel fl pattern st = [].
Proof.
  intros Hp. induction fuel as [|fuel IH]; intros st Hno; [reflexivity|].
  cbn [finditer_from].
  destruct (rmatch fl pattern _) as [|m l] eqn:E.
  - unfold advance. destruct (rest st) as [|c t] eqn:Er; [reflexivity|].
    simpl. rewrite app_nil_r. apply IH. simpl. intros H. apply Hno. now right.
  - exfalso. apply Hno.
    apply (extractor_patterns_need_colon fl pattern
             {| before := before st; rest := rest st; pos := pos st; group1 := None |} m Hp).
    rewrite E. now left.
Qed.

Lemma lstrip_incl (s : str) (c : ascii) : In c (lstrip s) -> In c s.
Proof.
  induction s as [|x s IH]; simpl; [auto|].
  destruct (is_space x); [intros H; right; now apply IH|auto].
Qed.

Lemma strip_incl (s : str) (c : ascii) : In c (strip s) -> In c s.
Proof.
  unfold strip. intros H. apply in_rev in H. apply lstrip_incl in H.
  apply in_rev in H. now apply lstrip_incl in H.
Qed.

Lemma split_char_incl (sep : ascii) (s cur line : str) (c : ascii) :
  In line (split_char sep s cur) -> In c line -> In c cur \/ In c s.
Proof.
  revert cur. induction s as [|x s IH]; intros cur Hl Hc; simpl in Hl.
  - destruct Hl as [<-|[]]. now left.
  - destruct (Ascii.eqb x sep).
    + destruct Hl as [<-|Hl]; [now left|].
      destruct (IH [] Hl Hc) as [[]|H]. right. now right.
    + destruct (IH _ Hl Hc) as [H|H].
      * apply in_app_or in H as [H|[<-|[]]]; [now left|right; now left].
      * right. now right.
Qed.

(** X16.  Only labelled text yields candidates: from a text that contains
    no colon [extract_person_names] returns nothing, so names that appear
    in running prose only are never extracted. *)
Theorem no_colon_no_candidate (s : str) (Hno : ~ In ":"%char s) :
  extract_person_names s = [].
Proof.
  unfold extract_person_names.
  assert (Hspeakers : fold_left add_speaker (split_char newline s []) [] = []).
  { assert (Hlines : forall line, In line (split_char newline s []) -> ~ In ":"%char line).
    { intros line Hl Hc. destruct (split_char_incl _ _ _ _ _ Hl Hc) as [[]|H]. auto. }
    revert Hlines. generalize (split_char newline s []).
    induction l as [|line l IH]; intros Hlines; [reflexivity|].
    simpl. unfold add_speaker at 2.
    assert (Hm : re_match no_flags speaker_pattern (strip line) = None).
    { unfold re_match.
      destruct (rmatch no_flags speaker_pattern (start_of (strip line))) as [|m ms] eqn:E;
        [reflexivity|]. exfalso.
      apply (Hlines line (or_introl eq_refl)). apply strip_incl.
      apply (extractor_patterns_need_colon no_flags speaker_pattern
               (start_of (strip line)) m (or_introl eq_refl)).
      rewrite E. now left. }
    rewrite Hm. apply IH. intros x Hx. apply Hlines. now right. }
  rewrite Hspeakers. unfold patterns_but_last. cbn [fold_left]. unfold add_pattern, finditer.
  rewrite !finditer_from_no_colon; auto.
Qed.

Lemma no_colon_no_candidate_witness :
  ~ In ":"%char (py "Call with John Smith and Jane Doe about the project") /\
  extract_person_names (py "Call with John Smith and Jane Doe about the project") = [].
Proof.
  assert (Hno : ~ In ":"%char (py "Call with John Smith and Jane Doe about the project")).
  { intros H. vm_compute in H. repeat (destruct H as [H|H]; [discriminate|]). exact H. }
  split; [exact Hno|].
  exact (no_colon_no_candidate _ Hno).
Defined.

(** ** The page id of a URL *)

Lemma hex_class_is_hex (c : ascii) :
  xorb false (in_items no_flags hex_item c) = is_hex c.
Proof. destruct c as [[] [] [] [] [] [] [] []]; vm_compute; reflexivity. Qed.

Lemma hex_is_no_dash (c : ascii) : is_hex c = true -> negb (Ascii.eqb c "-") = true.
Proof. destruct c as [[] [] [] [] [] [] [] []]; vm_compute; intros H; congruence. Qed.

Lemma remove_dash_hex (g : str) :
  Forall (fun c => is_hex c = true) g -> remove_char "-" g = g.
Proof.
  induction 1 as [|c g Hc _ IH]; [reflexivity|].
  unfold remove_char in *. simpl. now rewrite (hex_is_no_dash c Hc), IH.
Qed.

Lemma empty_class_eats_nothing (st : mstate) :
  eat (fun c => xorb false (in_items no_flags [] c)) st = [].
Proof. unfold eat. now destruct (rest st). Qed.

Lemma times_consumes_hex (n : nat) : consumes_hex n (times n hex).
Proof.
  induction n as [|n IH]; intros st st' H; cbn [times rmatch] in H.
  - rewrite empty_class_eats_nothing in H. destruct H as [<-|[]].
    exists []. conjs; auto.
  - apply in_flat_map in H as (st1 & H1 & H).
    apply eat_inv in H1 as (c & E & Hc & Hpos & _).
    destruct (IH _ _ H) as (g & Eg & Hlen & Hall & Hp).
    exists (c :: g). rewrite hex_class_is_hex in Hc. conjs.
    + now rewrite E, Eg.
    + simpl. now rewrite Hlen.
    + now constructor.
    + rewrite Hp, Hpos. lia.
Qed.

Lemma cat_consumes_hex (a b : nat) (r1 r2 : regex) :
  consumes_hex a r1 -> consumes_hex b r2 -> consumes_hex (a + b) (Cat r1 r2).
Proof.
  intros H1 H2 st st' H. cbn [rmatch] in H.
  apply in_flat_map in H as (st1 & Hs1 & Hs2).
  destruct (H1 _ _ Hs1) as (g1 & E1 & L1 & F1 & P1).
  destruct (H2 _ _ Hs2) as (g2 & E2 & L2 & F2 & P2).
  exists (g1 ++ g2). conjs.
  - now rewrite E1, E2, app_assoc.
  - rewrite length_app. lia.
  - now apply Forall_app.
  - lia.
Qed.

(** A group around [n] hexadecimal characters captures them. *)
Lemma group_captures_hex (n : nat) (r : regex) (st st' : mstate) :
  consumes_hex n r -> In st' (rmatch no_flags (Group r) st) ->
  exists g, rest st = g ++ rest st' /\ length g = n /\
            Forall (fun c => is_hex c = true) g /\ group1 st' = Some g.
Proof.
  intros Hr H. cbn [rmatch] in H. apply in_map_iff in H as (st1 & <- & H1).
  destruct (Hr _ _ H1) as (g & E & L & F & P).
  exists g. cbn [rest group1]. conjs; auto.
  f_equal. rewrite P, E. replace (pos st + n - pos st) with (length g) by lia.
  rewrite firstn_app, firstn_all, Nat.sub_diag. simpl. now rewrite app_nil_r.
Qed.

Lemma query_or_end_keeps_group (st st' : mstate) :
  In st' (rmatch no_flags query_or_end st) ->
  group1 st' = group1 st /\ exists c, rest st = c ++ rest st'.
Proof.
  intros H. split; [|now apply rmatch_consumes in H].
  unfold query_or_end in H. cbn [rmatch] in H. apply in_app_or in H as [H|H].
  - now apply eat_inv in H as (c & _ & _ & _ & Hg & _).
  - destruct (at_eol no_flags st); [|destruct H]. now destruct H as [<-|[]].
Qed.

(** What a match of one of the three URL patterns has captured. *)
Lemma page_id_pattern_capture (pattern : regex) (st m : mstate) :
  In pattern page_id_patterns -> In m (rmatch no_flags pattern st) ->
  exists pre g post,
    rest st = pre ++ g ++ post /\ pre <> [] /\ length g = 32 /\
    Forall (fun c => is_hex c = true) g /\ group1 m = Some g.
Proof.
  intros Hp H. destruct Hp as [<-|[<-|[<-|[]]]].
  - unfold p_parameter_pattern in H. cbn [rmatch lit py list_ascii_of_string] in H.
    apply in_flat_map in H as (s1 & H1 & H). apply eat_inv in H1 as (c1 & E1 & _).
    apply in_flat_map in H as (s2 & H2 & H).
    apply in_flat_map in H2 as (s3 & H3 & H2).
    apply eat_inv in H3 as (c3 & E3 & _). apply eat_inv in H2 as (c2 & E2 & _).
    change (In m (rmatch no_flags (Group (times 32 hex)) s2)) in H.
    destruct (group_captures_hex 32 _ _ _ (times_consumes_hex 32) H) as (g & E & L & F & G).
    exists [c1; c3; c2], g, (rest m). conjs; auto; [|discriminate].
    now rewrite E1, E3, E2, E.
  - unfold trailing_id_pattern in H. cbn [rmatch] in H.
    apply in_flat_map in H as (s1 & H1 & H). apply eat_inv in H1 as (c1 & E1 & _).
    apply in_flat_map in H as (s2 & H2 & H).
    change (In s2 (rmatch no_flags (Group (times 32 hex)) s1)) in H2.
    destruct (group_captures_hex 32 _ _ _ (times_consumes_hex 32) H2) as (g & E & L & F & G).
    change (In m (rmatch no_flags query_or_end s2)) in H.
    apply query_or_end_keeps_group in H as (Hg & c & Ec).
    exists [c1], g, (rest s2). conjs; auto; [|discriminate|congruence].
    now rewrite E1, E.
  - unfold dashed_id_pattern in H.
    change (In m (flat_map (fun s1 =>
                    flat_map (rmatch no_flags query_or_end)
                      (rmatch no_flags
                         (Group (Cat (times 8 hex)
                                   (Cat (times 4 hex)
                                      (Cat (times 4 hex) (Cat (times 4 hex) (times 12 hex))))))
                         s1))
                  (rmatch no_flags (Chr "-") st))) in H.
    apply in_flat_map in H as (s1 & H1 & H). cbn [rmatch] in H1.
    apply eat_inv in H1 as (c1 & E1 & _).
    apply in_flat_map in H as (s2 & H2 & H).
    assert (Hc : consumes_hex 32
                   (Cat (times 8 hex)
                      (Cat (times 4 hex)
                         (Cat (times 4 hex) (Cat (times 4 hex) (times 12 hex)))))).
    { apply (cat_consumes_hex 8 24); [apply times_consumes_hex|].
      apply (cat_consumes_hex 4 20); [apply times_consumes_hex|].
      apply (cat_consumes_hex 4 16); [apply times_consumes_hex|].
      apply (cat_consumes_hex 4 12); apply times_consumes_hex. }
    destruct (group_captures_hex 32 _ _ _ Hc H2) as (g & E & L & F & G).
    apply query_or_end_keeps_group in H as (Hg & c & Ec).
    exists [c1], g, (rest s2). conjs; auto; [|discriminate|congruence].
    now rewrite E1, E.
Qed.

(** A search result is a match at some position of the text. *)
Lemma search_at_some (fl : flags) (r : regex) (m : mstate) :
  forall s prev p,
    search_at fl r prev s p = Some m ->
    exists pre suf prev',
      s = pre ++ suf /\
      In m (rmatch fl r {| before := prev'; rest := suf; pos := p + length pre;
                           group1 := None |}).
Proof.
  induction s as [|c s IH]; intros prev p H; cbn [search_at] in H.
  - destruct (rmatch fl r _) as [|m0 l] eqn:E; [discriminate|]. injection H as ->.
    exists [], [], prev. split; [reflexivity|]. simpl. rewrite Nat.add_0_r, E. now left.
  - destruct (rmatch fl r _) as [|m0 l] eqn:E.
    + apply IH in H as (pre & suf & prev' & -> & Hm).
      exists (c :: pre), suf, prev'. split; [reflexivity|].
      simpl. now replace (p + S (length pre)) with (S p + length pre) by lia.
    + injection H as ->. exists [], (c :: s), prev. split; [reflexivity|].
      simpl. rewrite Nat.add_0_r, E. now left.
Qed.

Lemma first_page_id_some (patterns : list regex) (url id : str) :
  first_page_id patterns url = Some id ->
  exists pattern m, In pattern patterns /\
                    re_search no_flags pattern url = Some m /\
                    id = format_page_id (group_1 m).
Proof.
  induction patterns as [|r patterns IH]; intros H; [discriminate|].
  cbn [first_page_id] in H.
  destruct (re_search no_flags r url) as [m|] eqn:E.
  - injection H as <-. exists r, m. conjs; auto. now left.
  - destruct (IH H) as (r' & m & Hin & Hs & Hid). exists r', m. conjs; auto. now right.
Qed.

(** X17.  A page id returned by [extract_page_id_from_url] is built from
    32 characters of [0-9a-f] that stand together in the URL, after at
    least one other character: it is those characters with dashes after
    the 8th, 12th, 16th and 20th, 36 characters in all.  So a URL of fewer
    than 33 characters has no page id. *)
Theorem page_id_shape (url id : str)
        (Hfound : extract_page_id_from_url url = Some id) :
  exists pre g post,
    url = pre ++ g ++ post /\ pre <> [] /\
    length g = 32 /\ Forall (fun c => is_hex c = true) g /\
    id = firstn 8 g ++ dash ++ slice g 8 12 ++ dash ++ slice g 12 16 ++ dash
         ++ slice g 16 20 ++ dash ++ skipn 20 g /\
    length id = 36 /\ 33 <= length url.
Proof.
  unfold extract_page_id_from_url in Hfound.
  apply first_page_id_some in Hfound as (pattern & m & Hin & Hs & ->).
  unfold re_search in Hs. apply search_at_some in Hs as (pre0 & suf & prev' & -> & Hm).
  destruct (page_id_pattern_capture _ _ _ Hin Hm) as (pre & g & post & E & Hpre & L & F & G).
  cbn [rest] in E. subst suf.
  exists (pre0 ++ pre), g, post.
  unfold group_1. rewrite G. unfold format_page_id. rewrite (remove_dash_hex g F).
  rewrite slice_from_zero. conjs; auto.
  - now rewrite app_assoc.
  - destruct pre0; [exact Hpre|discriminate].
  - unfold slice, dash. rewrite !length_app, !length_firstn, !length_skipn, L. reflexivity.
  - rewrite !length_app, L. destruct pre; [contradiction|]. simpl. lia.
Qed.

Lemma page_id_shape_witness :
  let url := py "https://www.notion.so/Page-Title-2028b92ddc2f811ca933e7be5a1e00ee?pvs=4" in
  extract_page_id_from_url url = Some (py "2028b92d-dc2f-811c-a933-e7be5a1e00ee") /\
  exists pre g post,
    url = pre ++ g ++ post /\ pre <> [] /\
    length g = 32 /\ Forall (fun c => is_hex c = true) g /\
    py "2028b92d-dc2f-811c-a933-e7be5a1e00ee"
    = firstn 8 g ++ dash ++ slice g 8 12 ++ dash ++ slice g 12 16 ++ dash
      ++ slice g 16 20 ++ dash ++ skipn 20 g /\
    length (py "2028b92d-dc2f-811c-a933-e7be5a1e00ee") = 36 /\ 33 <= length url.
Proof.
  intros url.
  assert (Hfound : extract_page_id_from_url url
                   = Some (py "2028b92d-dc2f-811c-a933-e7be5a1e00ee"))
    by (vm_compute; reflexivity).
  split; [exact Hfound|].
  exact (page_id_shape url (py "2028b92d-dc2f-811c-a933-e7be5a1e00ee") Hfound).
Defined.

Lemma times_hex_run (n : nat) :
  forall (g tail : str) (st : mstate),
    rest st = g ++ tail -> length g = n ->
    Forall (fun c => is_hex c = true) g ->
    exists st', rmatch no_flags (times n hex) st = [st'] /\
                rest st' = tail /\ pos st' = pos st + n.
Proof.
  induction n as [|n IH]; intros g tail st E L F.
  - destruct g; [|discriminate]. cbn [times rmatch].
    rewrite empty_class_eats_nothing. exists st. simpl. conjs; auto.
  - destruct g as [|c g]; [discriminate|].
    inversion F as [|? ? Hc Hg]; subst.
    cbn [times].
    change (rmatch no_flags (Cat hex (times n hex)) st)
      with (flat_map (rmatch no_flags (times n hex))
              (eat (fun c => xorb false (in_items no_flags hex_item c)) st)).
    unfold eat, advance. rewrite E. cbn [app]. rewrite hex_class_is_hex, Hc.
    cbn [flat_map]. rewrite app_nil_r.
    destruct (IH g tail {| before := Some c; rest := g ++ tail; pos := S (pos st);
                           group1 := group1 st |} eq_refl)
      as (st' & R & Hr & Hp); [now injection L|exact Hg|].
    exists st'. conjs; auto. cbn [pos] in Hp. lia.
Qed.

Lemma search_at_skip (fl : flags) (r : regex) (prev : option ascii)
      (c : ascii) (s : str) (p : nat) :
  rmatch fl r {| before := prev; rest := c :: s; pos := p; group1 := None |} = [] ->
  search_at fl r prev (c :: s) p = search_at fl r (Some c) s (S p).
Proof. intros H. cbn [search_at]. now rewrite H. Qed.

(** Without a [?] or [&] the [p=] pattern finds nothing. *)
Lemma p_parameter_needs_mark (url : str) :
  (forall c, In c url -> in_items no_flags [One "?"; One "&"] c = false) ->
  re_search no_flags p_parameter_pattern url = None.
Proof.
  intros Hno. destruct (re_search no_flags p_parameter_pattern url) as [m|] eqn:E;
    [|reflexivity].
  unfold re_search in E. apply search_at_some in E as (pre & suf & prev' & -> & Hm).
  unfold p_parameter_pattern in Hm. cbn [rmatch] in Hm.
  apply in_flat_map in Hm as (s1 & H1 & _).
  apply eat_inv in H1 as (c & Ec & Hc & _). cbn [rest] in Ec.
  rewrite (Hno c) in Hc; [discriminate|].
  apply in_or_app. right. rewrite Ec. now left.
Qed.

Lemma hex_is_no_mark (c : ascii) :
  is_hex c = true -> in_items no_flags [One "?"; One "&"] c = false.
Proof. destruct c as [[] [] [] [] [] [] [] []]; vm_compute; intros H; congruence. Qed.

(** A slash followed by 32 hexadecimal characters that end the text. *)
Lemma trailing_id_at_end (prev : option ascii) (p : nat) (g : str) :
  length g = 32 -> Forall (fun c => is_hex c = true) g ->
  exists m l,
    rmatch no_flags trailing_id_pattern
           {| before := prev; rest := "/"%char :: g; pos := p; group1 := None |} = m :: l /\
    group1 m = Some g.
Proof.
  intros L F. unfold trailing_id_pattern.
  change (rmatch no_flags (Cat (Chr "/") (Cat (Group (times 32 hex)) query_or_end))
                 {| before := prev; rest := "/"%char :: g; pos := p; group1 := None |})
    with (flat_map (rmatch no_flags query_or_end)
            (map (fun st' => {| before := before st'; rest := rest st'; pos := pos st';
                                group1 := Some (firstn (pos st' - S p) g) |})
                 (rmatch no_flags (times 32 hex)
                         {| before := Some "/"%char; rest := g; pos := S p;
                            group1 := None |})) ++ []).
  destruct (times_hex_run 32 g [] {| before := Some "/"%char; rest := g; pos := S p;
                                     group1 := None |})
    as (st' & R & Hr & Hp); [cbn [rest]; now rewrite app_nil_r|exact L|exact F|].
  rewrite R. cbn [map flat_map pos] in *. rewrite !app_nil_r.
  unfold query_or_end. cbn [rmatch]. unfold eat, at_eol. cbn [rest]. rewrite Hr.
  cbn [app]. eexists. eexists. split; [reflexivity|]. cbn [group1].
  f_equal. replace (pos st' - S p) with (length g) by lia. apply firstn_all.
Qed.

Lemma Forall_firstn_keeps {A : Type} (P : A -> Prop) (l : list A) :
  Forall P l -> forall n, Forall P (firstn n l).
Proof. induction 1; intros [|n]; simpl; constructor; auto. Qed.

Lemma Forall_skipn_keeps {A : Type} (P : A -> Prop) (l : list A) :
  Forall P l -> forall n, Forall P (skipn n l).
Proof. induction 1; intros [|n]; simpl; auto. Qed.

Lemma id_pieces (g : str) :
  firstn 8 g ++ slice g 8 12 ++ slice g 12 16 ++ slice g 16 20 ++ skipn 20 g = g.
Proof.
  unfold slice. cbn [Nat.sub].
  replace (skipn 20 g) with (skipn 4 (skipn 16 g)) by now rewrite skipn_skipn.
  rewrite firstn_skipn.
  replace (skipn 16 g) with (skipn 4 (skipn 12 g)) by now rewrite skipn_skipn.
  rewrite firstn_skipn.
  replace (skipn 12 g) with (skipn 4 (skipn 8 g)) by now rewrite skipn_skipn.
  rewrite firstn_skipn. apply firstn_skipn.
Qed.

(** Removing the dashes of a formatted id gives the 32 characters back. *)
Lemma unformat_page_id (g : str) :
  Forall (fun c => is_hex c = true) g -> remove_char "-" (format_page_id g) = g.
Proof.
  intros F. unfold format_page_id. rewrite (remove_dash_hex g F), slice_from_zero.
  unfold remove_char. rewrite !filter_app.
  change (filter (fun x => negb (Ascii.eqb x "-")) dash) with (@nil ascii).
  cbn [app].
  fold (remove_char "-" (firstn 8 g)) (remove_char "-" (slice g 8 12))
       (remove_char "-" (slice g 12 16)) (remove_char "-" (slice g 16 20))
       (remove_char "-" (skipn 20 g)).
  unfold slice.
  rewrite !remove_dash_hex
    by (repeat first [apply Forall_firstn_keeps | apply Forall_skipn_keeps]; exact F).
  apply id_pieces.
Qed.

(** X18.  The link of a page leads back to the page: when the id of a page
    is a formatted id (32 characters of [0-9a-f] with the four dashes), the
    URL that [get_person_link] and [get_project_link] build for the page is
    one from which [extract_page_id_from_url] reads that id again. *)
Theorem link_leads_back_to_page (g : str) (p : page)
        (Hlen : length g = 32)
        (Hhex : Forall (fun c => is_hex c = true) g)
        (Hid : page_id p = format_page_id g) :
  extract_page_id_from_url (notion_url p) = Some (page_id p).
Proof.
  unfold notion_url. rewrite Hid, (unformat_page_id g Hhex).
  unfold extract_page_id_from_url, page_id_patterns. cbn [first_page_id].
  rewrite p_parameter_needs_mark.
  - unfold re_search. cbn [py list_ascii_of_string app].
    do 21 (rewrite search_at_skip by reflexivity).
    cbn [search_at].
    destruct (trailing_id_at_end (Some "o"%char) 21 g Hlen Hhex) as (m & l & R & G).
    rewrite R. unfold group_1. now rewrite G.
  - intros c Hc. apply in_app_or in Hc as [Hc|Hc].
    + cbn [py list_ascii_of_string In] in Hc.
      repeat (destruct Hc as [<-|Hc]; [reflexivity|]). destruct Hc.
    + apply hex_is_no_mark. exact (proj1 (Forall_forall _ _) Hhex c Hc).
Qed.

Lemma link_leads_back_to_page_witness :
  let ana := person_page (py "2028b92d-dc2f-811c-a933-e7be5a1e00ee") (py "Ana") in
  extract_page_id_from_url (notion_url ana) = Some (page_id ana).
Proof.
  intros ana.
  apply (link_leads_back_to_page (py "2028b92ddc2f811ca933e7be5a1e00ee")).
  - reflexivity.
  - repeat constructor.
  - reflexivity.
Defined.

(** ** Reading the transcript *)

Lemma lstrip_split (s : str) :
  exists pre, s = pre ++ lstrip s /\ Forall (fun c => is_space c = true) pre.
Proof.
  induction s as [|c s (pre & E & F)]; [exists []; split; [reflexivity|constructor]|].
  simpl. destruct (is_space c) eqn:Hc.
  - exists (c :: pre). split; [simpl; now rewrite <- E|now constructor].
  - exists []. split; [reflexivity|constructor].
Qed.

Lemma lstrip_head (s : str) (c : ascii) (t : str) :
  lstrip s = c :: t -> is_space c = false.
Proof.
  induction s as [|a s IH]; simpl; [discriminate|].
  destruct (is_space a) eqn:Ha; [exact IH|].
  intros E. assert (Eac : a = c) by congruence. now subst.
Qed.

Lemma lstrip_nil_iff (s : str) :
  lstrip s = [] <-> Forall (fun c => is_space c = true) s.
Proof.
  induction s as [|a s IH]; simpl; [split; auto|].
  destruct (is_space a) eqn:Ha.
  - rewrite IH. split; [now constructor|now inversion 1].
  - split; [discriminate|]. inversion 1; congruence.
Qed.

Lemma lstrip_fixed (s : str) :
  match s with c :: _ => is_space c = false | [] => True end -> lstrip s = s.
Proof. destruct s as [|c s]; [reflexivity|]. simpl. now intros ->. Qed.

Lemma strip_split (s : str) :
  exists pre post,
    s = pre ++ strip s ++ post /\
    Forall (fun c => is_space c = true) pre /\
    Forall (fun c => is_space c = true) post.
Proof.
  destruct (lstrip_split s) as (pre & E & F).
  destruct (lstrip_split (rev (lstrip s))) as (q & Eq & Fq).
  exists pre, (rev q). unfold strip. conjs; auto.
  - now rewrite <- rev_app_distr, <- Eq, rev_involutive.
  - now apply Forall_rev.
Qed.

Lemma strip_nil_iff (s : str) :
  strip s = [] <-> Forall (fun c => is_space c = true) s.
Proof.
  split.
  - intros E. destruct (strip_split s) as (pre & post & Es & Fpre & Fpost).
    rewrite Es, E. apply Forall_app. split; assumption.
  - intros F. unfold strip. now rewrite (proj2 (lstrip_nil_iff s) F).
Qed.

Lemma strip_first (s : str) (c : ascii) (t : str) :
  strip s = c :: t -> is_space c = false.
Proof.
  intros E. destruct (lstrip_split (rev (lstrip s))) as (q & Eq & _).
  assert (El : lstrip s = strip s ++ rev q).
  { unfold strip. now rewrite <- rev_app_distr, <- Eq, rev_involutive. }
  rewrite E in El. exact (lstrip_head s c _ El).
Qed.

Lemma strip_last (s : str) (t : str) (c : ascii) :
  strip s = t ++ [c] -> is_space c = false.
Proof.
  intros E. unfold strip in E. apply (f_equal (@rev ascii)) in E.
  rewrite rev_involutive, rev_app_distr in E. simpl in E.
  exact (lstrip_head _ c _ E).
Qed.

(** A string that neither starts nor ends with white space is its own
    [strip()]. *)
Lemma strip_fixed (s : str) :
  match s with c :: _ => is_space c = false | [] => True end ->
  match rev s with c :: _ => is_space c = false | [] => True end ->
  strip s = s.
Proof.
  intros Hfirst Hlast. unfold strip.
  now rewrite (lstrip_fixed s Hfirst), (lstrip_fixed (rev s) Hlast), rev_involutive.
Qed.

(** X19.  The transcript that [read_transcript_file] returns is the content
    of the file without the white space around it: it is not empty, it
    neither starts nor ends with a white-space character, and the file is
    white space, the transcript, white space. *)
Theorem transcript_is_stripped (file : option str) (content : str)
        (Hread : read_transcript_file file = Some content) :
  exists raw pre post,
    file = Some raw /\ raw = pre ++ content ++ post /\
    Forall (fun c => is_space c = true) pre /\
    Forall (fun c => is_space c = true) post /\
    content <> [] /\
    (forall c t, content = c :: t -> is_space c = false) /\
    (forall t c, content = t ++ [c] -> is_space c = false).
Proof.
  destruct file as [raw|]; [|discriminate]. cbn [read_transcript_file] in Hread.
  destruct (strip raw) as [|c t] eqn:E; [discriminate|].
  injection Hread as <-. rewrite <- E.
  destruct (strip_split raw) as (pre & post & Es & Fpre & Fpost).
  exists raw, pre, post. conjs; auto.
  - rewrite E. discriminate.
  - intros c0 t0 E0. exact (strip_first raw c0 t0 E0).
  - intros t0 c0 E0. exact (strip_last raw t0 c0 E0).
Qed.

Lemma transcript_is_stripped_witness :
  exists raw pre post,
    Some (newline :: py "  Ana: hello  ") = Some raw /\
    raw = pre ++ py "Ana: hello" ++ post /\
    Forall (fun c => is_space c = true) pre /\
    Forall (fun c => is_space c = true) post /\
    py "Ana: hello" <> [] /\
    (forall c t, py "Ana: hello" = c :: t -> is_space c = false) /\
    (forall t c, py "Ana: hello" = t ++ [c] -> is_space c = false).
Proof.
  apply (transcript_is_stripped (Some (newline :: py "  Ana: hello  "))).
  reflexivity.
Defined.

(** X20.  [read_transcript_file] gives nothing exactly when the file cannot
    be read or holds white space only (an empty file included). *)
Theorem no_transcript_iff_blank (file : option str) :
  read_transcript_file file = None <->
  file = None \/
  exists raw, file = Some raw /\ Forall (fun c => is_space c = true) raw.
Proof.
  destruct file as [raw|]; cbn [read_transcript_file].
  - destruct (strip raw) as [|c t] eqn:E.
    + split; [|reflexivity]. intros _. right. exists raw. split; [reflexivity|].
      now apply strip_nil_iff.
    + split; [discriminate|]. intros [H|(raw' & Hraw & F)]; [discriminate|].
      injection Hraw as <-. apply strip_nil_iff in F. congruence.
  - split; [now left|reflexivity].
Qed.

(** ** Speaker labels *)

Lemma upper_class_is_upper (c : ascii) :
  xorb false (in_items no_flags [Range "A" "Z"] c) = is_upper c.
Proof. destruct c as [[] [] [] [] [] [] [] []]; vm_compute; reflexivity. Qed.

Lemma lower_class_is_lower (c : ascii) :
  xorb false (in_items no_flags [Range "a" "z"] c) = is_lower c.
Proof. destruct c as [[] [] [] [] [] [] [] []]; vm_compute; reflexivity. Qed.

Lemma space_is_not_lower (c : ascii) : is_space c = true -> is_lower c = false.
Proof. destruct c as [[] [] [] [] [] [] [] []]; vm_compute; intros H; congruence. Qed.

Lemma upper_is_not_space (c : ascii) : is_upper c = true -> is_space c = false.
Proof. destruct c as [[] [] [] [] [] [] [] []]; vm_compute; intros H; congruence. Qed.

Lemma lower_is_not_space (c : ascii) : is_lower c = true -> is_space c = false.
Proof. destruct c as [[] [] [] [] [] [] [] []]; vm_compute; intros H; congruence. Qed.

Lemma eat_hit (ok : ascii -> bool) (st : mstate) (c : ascii) (t : str) :
  rest st = c :: t -> ok c = true ->
  eat ok st = [{| before := Some c; rest := t; pos := S (pos st); group1 := group1 st |}].
Proof. intros E H. unfold eat, advance. now rewrite E, H. Qed.

Lemma eat_miss (ok : ascii -> bool) (st : mstate) :
  match rest st with c :: _ => ok c = false | [] => True end -> eat ok st = [].
Proof. unfold eat. destruct (rest st) as [|c t]; [reflexivity|]. now intros ->. Qed.

(** Greedy repetition of a one-character step takes the whole run first. *)
Lemma star_eat_run (ok : ascii -> bool) :
  forall (w tail : str) (fuel : nat) (st : mstate),
    rest st = w ++ tail ->
    Forall (fun c => ok c = true) w ->
    match tail with c :: _ => ok c = false | [] => True end ->
    length w <= fuel ->
    exists st' l,
      star (eat ok) fuel st = st' :: l /\ rest st' = tail /\
      pos st' = pos st + length w /\ group1 st' = group1 st.
Proof.
  induction w as [|a w IH]; intros tail fuel st E F Htail Hfuel.
  - simpl in E. exists st, []. conjs; auto.
    destruct fuel as [|fuel]; [reflexivity|]. cbn [star].
    rewrite eat_miss; [reflexivity|]. now rewrite E.
  - destruct fuel as [|fuel]; [simpl in Hfuel; lia|].
    inversion F as [|? ? Ha Hw]; subst.
    cbn [star]. rewrite (eat_hit ok st a (w ++ tail) E Ha). cbn [flat_map pos].
    replace (pos st <? S (pos st)) with true by (symmetry; apply Nat.ltb_lt; lia).
    destruct (IH tail fuel {| before := Some a; rest := w ++ tail; pos := S (pos st);
                              group1 := group1 st |} eq_refl Hw Htail)
      as (st' & l & R & Hr & Hp & Hg); [simpl in Hfuel; lia|].
    rewrite R. cbn [app]. eexists. eexists. split; [reflexivity|].
    cbn [pos group1 length] in *. conjs; auto. lia.
Qed.

Lemma plus_eat_run (ok : ascii -> bool) (w tail : str) (st : mstate) :
  rest st = w ++ tail -> w <> [] ->
  Forall (fun c => ok c = true) w ->
  match tail with c :: _ => ok c = false | [] => True end ->
  exists st' l,
    flat_map (fun st1 => star (eat ok) (length (rest st1)) st1) (eat ok st) = st' :: l /\
    rest st' = tail /\ pos st' = pos st + length w /\ group1 st' = group1 st.
Proof.
  intros E Hw F Htail. destruct w as [|a w]; [contradiction|].
  inversion F as [|? ? Ha Hall]; subst.
  rewrite (eat_hit ok st a (w ++ tail) E Ha). cbn [flat_map rest].
  destruct (star_eat_run ok w tail (length (w ++ tail))
              {| before := Some a; rest := w ++ tail; pos := S (pos st);
                 group1 := group1 st |} eq_refl Hall Htail)
    as (st' & l & R & Hr & Hp & Hg); [rewrite length_app; lia|].
  rewrite R. cbn [app]. eexists. eexists. split; [reflexivity|].
  cbn [pos group1 length] in *. conjs; auto. lia.
Qed.

Lemma is_word_parts (w : str) :
  is_word w = true ->
  exists c l, w = c :: l /\ is_upper c = true /\ l <> [] /\
              Forall (fun x => is_lower x = true) l.
Proof.
  destruct w as [|c l]; [discriminate|]. cbn [is_word].
  intros H. apply andb_true_iff in H as [H Hl]. apply andb_true_iff in H as [Hc Hne].
  exists c, l. conjs; auto.
  - intros ->. discriminate.
  - apply Forall_forall. exact (proj1 (forallb_forall _ _) Hl).
Qed.

(** [[A-Z][a-z]+] on a capitalised word that is not followed by a
    lower-case letter: the first way to match takes the whole word. *)
Lemma word_run (w tail : str) (st : mstate) :
  is_word w = true -> rest st = w ++ tail ->
  match tail with c :: _ => is_lower c = false | [] => True end ->
  exists st' l,
    rmatch no_flags upper_then_lowers st = st' :: l /\ rest st' = tail /\
    pos st' = pos st + length w /\ group1 st' = group1 st.
Proof.
  intros Hw E Htail. apply is_word_parts in Hw as (c & l & -> & Hc & Hne & Hl).
  change (rmatch no_flags upper_then_lowers st)
    with (flat_map
            (fun s1 =>
               flat_map
                 (fun st1 =>
                    star (eat (fun x => xorb false (in_items no_flags [Range "a" "z"] x)))
                         (length (rest st1)) st1)
                 (eat (fun x => xorb false (in_items no_flags [Range "a" "z"] x)) s1))
            (eat (fun x => xorb false (in_items no_flags [Range "A" "Z"] x)) st)).
  rewrite (eat_hit _ st c (l ++ tail) E) by now rewrite upper_class_is_upper.
  cbn [flat_map].
  destruct (plus_eat_run (fun x => xorb false (in_items no_flags [Range "a" "z"] x))
              l tail {| before := Some c; rest := l ++ tail; pos := S (pos st);
                        group1 := group1 st |} eq_refl Hne)
    as (st' & l' & R & Hr & Hp & Hg).
  - apply Forall_forall. intros x Hx. rewrite lower_class_is_lower.
    exact (proj1 (Forall_forall _ _) Hl x Hx).
  - destruct tail as [|t tail]; [exact I|]. now rewrite lower_class_is_lower.
  - rewrite R. cbn [app]. eexists. eexists. split; [reflexivity|].
    cbn [pos group1 length] in *. conjs; auto. lia.
Qed.

(** The group of the speaker pattern on a name that a colon follows. *)
Lemma name_run (n tail : str) (st : mstate) :
  speaker_name n -> rest st = n ++ ":"%char :: tail ->
  exists st' l,
    rmatch no_flags
           (Cat upper_then_lowers (Opt (Cat (Plus Space) upper_then_lowers))) st
    = st' :: l /\
    rest st' = ":"%char :: tail /\ pos st' = pos st + length n.
Proof.
  intros [Hw|(w1 & gap & w2 & -> & Hw1 & Hgap & Fgap & Hw2)] E.
  - destruct (word_run n (":"%char :: tail) st Hw E eq_refl)
      as (st1 & l1 & R1 & Hr1 & Hp1 & _).
    change (rmatch no_flags
              (Cat upper_then_lowers (Opt (Cat (Plus Space) upper_then_lowers))) st)
      with (flat_map
              (fun s1 =>
                 flat_map (rmatch no_flags upper_then_lowers)
                   (flat_map (fun s2 => star (eat is_space) (length (rest s2)) s2)
                      (eat is_space s1)) ++ [s1])
              (rmatch no_flags upper_then_lowers st)).
    rewrite R1. cbn [flat_map]. rewrite (eat_miss is_space st1) by now rewrite Hr1.
    cbn [flat_map app]. eexists. eexists. split; [reflexivity|]. split; assumption.
  - rewrite <- !app_assoc in E.
    destruct (is_word_parts w2 Hw2) as (c2 & l2 & -> & Hc2 & _).
    destruct (word_run w1 (gap ++ (c2 :: l2) ++ ":"%char :: tail) st Hw1 E)
      as (st1 & l1 & R1 & Hr1 & Hp1 & _).
    { destruct gap as [|s gap]; [contradiction|]. cbn [app].
      inversion Fgap; subst. now apply space_is_not_lower. }
    destruct (plus_eat_run is_space gap ((c2 :: l2) ++ ":"%char :: tail) st1 Hr1 Hgap Fgap)
      as (st2 & l2' & R2 & Hr2 & Hp2 & _).
    { cbn [app]. now apply upper_is_not_space. }
    destruct (word_run (c2 :: l2) (":"%char :: tail) st2 Hw2 Hr2 eq_refl)
      as (st3 & l3 & R3 & Hr3 & Hp3 & _).
    change (rmatch no_flags
              (Cat upper_then_lowers (Opt (Cat (Plus Space) upper_then_lowers))) st)
      with (flat_map
              (fun s1 =>
                 flat_map (rmatch no_flags upper_then_lowers)
                   (flat_map (fun s2 => star (eat is_space) (length (rest s2)) s2)
                      (eat is_space s1)) ++ [s1])
              (rmatch no_flags upper_then_lowers st)).
    rewrite R1. cbn [flat_map]. rewrite R2. cbn [flat_map]. rewrite R3. cbn [app].
    eexists. eexists. split; [reflexivity|]. split; [exact Hr3|].
    rewrite !length_app. lia.
Qed.

(** The speaker pattern on [name: ...]. *)
Lemma speaker_pattern_run (n said : str) (sp : ascii) :
  speaker_name n -> is_space sp = true ->
  exists m, re_match no_flags speaker_pattern (n ++ ":"%char :: sp :: said) = Some m /\
            group_1 m = n.
Proof.
  intros Hn Hsp. unfold re_match.
  destruct (name_run n (sp :: said) (start_of (n ++ ":"%char :: sp :: said)) Hn eq_refl)
    as (st' & l & R & Hr & Hp).
  change (rmatch no_flags speaker_pattern (start_of (n ++ ":"%char :: sp :: said)))
    with (flat_map
            (fun s1 => flat_map (eat is_space) (eat (chr_matches no_flags ":") s1))
            (map (fun s1 => {| before := before s1; rest := rest s1; pos := pos s1;
                               group1 := Some (firstn (pos s1 - 0)
                                                      (n ++ ":"%char :: sp :: said)) |})
                 (rmatch no_flags
                    (Cat upper_then_lowers (Opt (Cat (Plus Space) upper_then_lowers)))
                    (start_of (n ++ ":"%char :: sp :: said)))) ++ []).
  rewrite R. cbn [map flat_map].
  rewrite (eat_hit _ _ ":"%char (sp :: said)) by (cbn [rest]; auto).
  cbn [flat_map]. rewrite (eat_hit is_space _ sp said) by (cbn [rest]; auto).
  cbn [app hd_error]. eexists. split; [reflexivity|].
  unfold group_1. cbn [group1]. rewrite Hp. cbn [start_of pos].
  replace (0 + length n - 0) with (length n + 0) by lia.
  rewrite firstn_app_2. cbn [firstn]. apply app_nil_r.
Qed.

Lemma word_is_stripped (w : str) :
  is_word w = true ->
  match w with c :: _ => is_space c = false | [] => True end /\
  match rev w with c :: _ => is_space c = false | [] => True end.
Proof.
  intros Hw. apply is_word_parts in Hw as (c & l & -> & Hc & Hne & Hl). split.
  - now apply upper_is_not_space.
  - cbn [rev]. destruct (rev l) as [|x r] eqn:E.
    + apply (f_equal (@rev ascii)) in E. rewrite rev_involutive in E. contradiction.
    + cbn [app]. apply lower_is_not_space.
      apply (proj1 (Forall_forall _ _) Hl). apply in_rev. rewrite E. now left.
Qed.

Lemma speaker_name_is_stripped (n : str) : speaker_name n -> strip n = n.
Proof.
  intros [Hw|(w1 & gap & w2 & -> & Hw1 & _ & _ & Hw2)].
  - apply strip_fixed; now apply word_is_stripped.
  - destruct (word_is_stripped w1 Hw1) as [H1 _].
    destruct (word_is_stripped w2 Hw2) as [_ H2].
    apply strip_fixed.
    + destruct w1 as [|c w1]; [discriminate|]. exact H1.
    + rewrite !rev_app_distr, <- app_assoc.
      destruct (rev w2) as [|c r] eqn:E; [|exact H2].
      apply (f_equal (@rev ascii)) in E. rewrite rev_involutive in E. now subst.
Qed.

Lemma add_speaker_keeps (x : str) (acc : list str) (line : str) :
  In x acc -> In x (add_speaker acc line).
Proof.
  intros H. unfold add_speaker.
  destruct (re_match no_flags speaker_pattern (strip line)) as [m|]; [|exact H].
  cbn zeta. destruct (_is_likely_person_name (strip (group_1 m))); [|exact H].
  apply set_add_in. now right.
Qed.

Lemma add_pattern_keeps (x : str) (s : str) (acc : list str) (pattern : regex) :
  In x acc -> In x (add_pattern s acc pattern).
Proof.
  unfold add_pattern. apply (fold_left_keeps (fun acc0 => In x acc0)).
  intros acc0 m. unfold add_match. apply (fold_left_keeps (fun acc1 => In x acc1)).
  intros acc1 n0 H. unfold add_listed. cbn zeta.
  destruct (_is_likely_person_name (strip n0) && (word_count (strip n0) false <=? 3));
    [|exact H].
  apply set_add_in. now right.
Qed.

(** The step of the speaker loop on a labelled line adds the name. *)
Lemma add_speaker_adds (acc : list str) (line n said : str) (sp : ascii) :
  strip line = n ++ ":"%char :: sp :: said ->
  is_space sp = true ->
  speaker_name n ->
  _is_likely_person_name n = true ->
  In n (add_speaker acc line).
Proof.
  intros Hstrip Hsp Hn Hlikely. unfold add_speaker. rewrite Hstrip.
  destruct (speaker_pattern_run n said sp Hn Hsp) as (m & -> & Hg).
  cbn zeta. rewrite Hg, (speaker_name_is_stripped n Hn), Hlikely.
  apply set_add_in. now left.
Qed.

(** What the speaker loop adds at one line is still there at the end. *)
Lemma speaker_line_is_kept (text line n : str) :
  In line (split_char newline text []) ->
  (forall acc, In n (add_speaker acc line)) ->
  In n (extract_person_names text).
Proof.
  intros Hline Hadds. unfold extract_person_names. cbn zeta.
  apply (fold_left_keeps (fun acc => In n acc)).
  { intros acc pattern. apply add_pattern_keeps. }
  generalize (@nil str) as acc.
  induction (split_char newline text []) as [|l lines IH]; intros acc; [destruct Hline|].
  cbn [fold_left]. destruct Hline as [->|Hline]; [|now apply IH].
  apply (fold_left_keeps (fun acc0 => In n acc0)).
  { intros acc0 l0. apply add_speaker_keeps. }
  apply Hadds.
Qed.

(** X21.  Speaker labels are found: when a line of the text reads, white
    space around it apart, as a name, a colon, a white-space character and
    anything after, where the name is one capitalised word or two with
    white space between them and passes [_is_likely_person_name], then
    [extract_person_names] returns the name among its candidates. *)
Theorem speaker_label_is_found (text line n said : str) (sp : ascii)
        (Hline : In line (split_char newline text []))
        (Hreads : strip line = n ++ ":"%char :: sp :: said)
        (Hsp : is_space sp = true)
        (Hname : speaker_name n)
        (Hlikely : _is_likely_person_name n = true) :
  In n (extract_person_names text).
Proof.
  apply (speaker_line_is_kept text line n Hline). intros acc.
  exact (add_speaker_adds acc line n said sp Hreads Hsp Hname Hlikely).
Qed.

Lemma speaker_label_is_found_witness :
  In (py "John Smith")
     (extract_person_names
        (py "Notes" ++ newline :: py "  John Smith: we ship on Friday." ++ newline
            :: py "Sarah: good")).
Proof.
  apply (speaker_label_is_found _ (py "  John Smith: we ship on Friday.") (py "John Smith")
           (py "we ship on Friday.") " "%char).
  - vm_compute. right. left. reflexivity.
  - reflexivity.
  - reflexivity.
  - right. exists (py "John"), (py " "), (py "Smith").
    conjs; [reflexivity|reflexivity|discriminate|repeat constructor|reflexivity].
  - reflexivity.
Defined.

(** X22.  The label of an attendee list is itself taken for a name: a line
    that starts with [Attendees:], [Participants:] or [People:] (or the
    singular) and a white-space character puts the label word among the
    candidates of [extract_person_names]. *)
Theorem list_label_is_a_candidate (text line label listed : str) (sp : ascii)
        (Hlabel : In label list_labels)
        (Hline : In line (split_char newline text []))
        (Hreads : strip line = label ++ ":"%char :: sp :: listed)
        (Hsp : is_space sp = true) :
  In label (extract_person_names text).
Proof.
  assert (Hword : is_word label = true /\ _is_likely_person_name label = true).
  { unfold list_labels in Hlabel. cbn [map In] in Hlabel.
    repeat (destruct Hlabel as [<-|Hlabel]; [split; reflexivity|]). destruct Hlabel. }
  destruct Hword as [Hword Hlikely].
  apply (speaker_line_is_kept text line label Hline). intros acc.
  apply (add_speaker_adds acc line label listed sp Hreads Hsp); [|exact Hlikely].
  left. exact Hword.
Qed.

Lemma list_label_is_a_candidate_witness :
  In (py "Attendees")
     (extract_person_names (py "Attendees: Aaron, Darren" ++ newline :: py "Agenda")).
Proof.
  apply (list_label_is_a_candidate _ (py "Attendees: Aaron, Darren") (py "Attendees")
           (py "Aaron, Darren") " "%char).
  - left. reflexivity.
  - vm_compute. left. reflexivity.
  - reflexivity.
  - reflexivity.
Defined.

(** ** Project links *)

(** X23.  A link returned by [get_project_link] is the URL of a page of
    the query answer: the first page with the best similarity to the
    wanted name, that similarity being at least 0.8.  The title of the
    page, read from the first of the properties Name, Title, Project Name
    and Project that the page has, is one [get_all_project_names] lists
    (the same query answer being read), and no listed title scores
    higher. *)
Theorem project_link_is_listed_project (ratio : str -> str -> Q) (env : Env) (n url : str)
        (Hlink : get_project_link ratio env n = Some url) :
  exists results p t,
    projects_response env = Some results /\
    first_best ratio project_name n results p (ratio (lower n) (lower t)) /\
    In p results /\
    project_name p = Some t /\
    In t (get_all_project_names env) /\
    url = py "https://www.notion.so/" ++ remove_char "-" (page_id p) /\
    (link_threshold <= ratio (lower n) (lower t))%Q /\
    (forall t', In t' (get_all_project_names env) ->
                (ratio (lower n) (lower t') <= ratio (lower n) (lower t))%Q).
Proof.
  unfold get_project_link in Hlink. unfold get_all_project_names.
  destruct (negb (truthy (NOTION_TOKEN env)) || negb (truthy (PROJECTS_DATABASE_ID env)));
    [discriminate|].
  destruct (projects_response env) as [results|]; [|discriminate].
  destruct (fst (best_match_loop ratio project_name n link_threshold results))
    as [p|] eqn:E; [|discriminate].
  injection Hlink as <-.
  apply best_match_some in E as (s & Hbest & Hth & _).
  pose proof (first_best_in ratio project_name n results p s Hbest) as Hin.
  pose proof (first_best_max ratio project_name n results p s Hbest) as Hmax.
  assert (Hs : score_of ratio project_name n p = Some s)
    by (destruct Hbest as (l1 & l2 & _ & Hs & _); exact Hs).
  unfold score_of in Hs.
  destruct (project_name p) as [t|] eqn:Ht; [|discriminate].
  assert (Es : s = ratio (lower n) (lower t)) by congruence.
  subst s.
  exists results, p, t. conjs; auto.
  - apply names_of_in. now exists p.
  - intros t' Ht'. apply names_of_in in Ht' as (q & Hq & Hname).
    apply (Hmax q); [exact Hq|]. unfold score_of. now rewrite Hname.
Qed.

Lemma project_link_is_listed_project_witness :
  get_project_link sequence_matcher_ratio (projects_env [py "Website"; py "Web Site"])
                   (py "web site")
  = Some (py "https://www.notion.so/0c2d") /\
  exists results p t,
    projects_response (projects_env [py "Website"; py "Web Site"]) = Some results /\
    first_best sequence_matcher_ratio project_name (py "web site") results p
               (sequence_matcher_ratio (lower (py "web site")) (lower t)) /\
    In p results /\
    project_name p = Some t /\
    In t (get_all_project_names (projects_env [py "Website"; py "Web Site"])) /\
    py "https://www.notion.so/0c2d" = py "https://www.notion.so/" ++ remove_char "-" (page_id p) /\
    (link_threshold <= sequence_matcher_ratio (lower (py "web site")) (lower t))%Q /\
    (forall t', In t' (get_all_project_names (projects_env [py "Website"; py "Web Site"])) ->
                (sequence_matcher_ratio (lower (py "web site")) (lower t')
                 <= sequence_matcher_ratio (lower (py "web site")) (lower t))%Q).
Proof.
  assert (Hlink : get_project_link sequence_matcher_ratio
                    (projects_env [py "Website"; py "Web Site"]) (py "web site")
                  = Some (py "https://www.notion.so/0c2d")) by (vm_compute; reflexivity).
  split; [exact Hlink|].
  exact (project_link_is_listed_project sequence_matcher_ratio
           (projects_env [py "Website"; py "Web Site"]) (py "web site")
           (py "https://www.notion.so/0c2d") Hlink).
Defined.
